(** * ytm: LAN jukebox protocol and mpv IPC bridge

    A shallow embedding of [ytm_cli/net.py] (message framing, the
    [JukeboxServer] and the [JukeboxClient]) and of [ytm_cli/player.py]
    (the [MpvPlayer] controller), together with the parts of the Python
    runtime they lean on: the exception classes their handlers name,
    [str.encode]/[bytes.decode] for UTF-8, and [json.dumps]/[json.loads].

    Conventions.
    - A Python [str] is a list of code points ([N]); [bytes] is a list of
      [Byte.byte].
    - A Python object that can travel through [json] is a [value]; a [dict]
      is an association list in insertion order, the way CPython iterates
      and serialises it.
    - Code that can raise runs in the monad [M S A := S -> outcome A * S]:
      the state survives a raise, as the attributes of a Python object do.
    - What the operating system or the network decides (whether a write
      fails, what a socket delivers, whether a file shows up) is read from
      explicit fields of the state, so every definition computes.
    - [json.loads] is embedded twice: as the parser of the [json] module
      run without the limits an interpreter puts on it ([loads]), and
      under those limits ([loads_in]): the number of digits [int]
      converts and the depth of recursion.  The two agree unless a limit
      is reached.  Memory is not modelled. *)

From Stdlib Require Import List NArith ZArith Lia Bool Arith.
From Stdlib Require Import Strings.Byte Ascii String Decimal.
From Stdlib Require DecimalPos DecimalFacts.
Import ListNotations.

Set Implicit Arguments.
Set Warnings "-register-all".

(* ================================================================== *)
(** * Python exceptions and the state-and-exception monad               *)
(* ================================================================== *)

Module Py.

(** The exception classes that this program raises, catches or lets
    through. *)
Inductive exn : Type :=
| BaseException
| Exception
| CancelledError          (* asyncio.CancelledError *)
| OSError
| ConnectionError
| BrokenPipeError
| ConnectionRefusedError
| ConnectionResetError
| FileNotFoundError
| PermissionError
| TimeoutError            (* builtin; socket.timeout is this class *)
| AsyncTimeoutError       (* asyncio.TimeoutError *)
| gaierror                (* socket.gaierror: name resolution *)
| ValueError
| RecursionError
| JSONDecodeError         (* json.JSONDecodeError *)
| UnicodeDecodeError
| UnicodeEncodeError
| KeyError
| AttributeError
| TypeError
| TimeoutExpired.         (* subprocess.TimeoutExpired *)

Definition exn_eq_dec (a b : exn) : {a = b} + {a <> b}.
Proof. decide equality. Defined.

(** Direct superclass. [asyncio.TimeoutError] is a class of its own under
    [Exception] in Python 3.10 and the builtin [TimeoutError] from 3.11
    on; every handler of this program that means it names it. *)
Definition base (e : exn) : option exn :=
  match e with
  | BaseException => None
  | Exception | CancelledError => Some BaseException
  | OSError | ValueError | AttributeError | TypeError
  | AsyncTimeoutError | TimeoutExpired => Some Exception
  | ConnectionError | FileNotFoundError | PermissionError
  | TimeoutError | gaierror => Some OSError
  | BrokenPipeError | ConnectionRefusedError | ConnectionResetError =>
      Some ConnectionError
  | JSONDecodeError | UnicodeDecodeError | UnicodeEncodeError =>
      Some ValueError
  | KeyError | RecursionError => Some Exception
  end.

Fixpoint climbs (depth : nat) (e cls : exn) : bool :=
  if exn_eq_dec e cls then true
  else match depth with
       | O => false
       | S d => match base e with
                | Some b => climbs d b cls
                | None => false
                end
       end.

(** [issubclass e cls]: the class hierarchy above is four levels deep. *)
Definition issubclass (e cls : exn) : bool := climbs 4 e cls.

(** Does [except (c1, c2, ...)] catch a raised [e]? *)
Definition caught (e : exn) (classes : list exn) : bool :=
  existsb (issubclass e) classes.

Inductive outcome (A : Type) : Type :=
| Return (a : A)
| Raise (e : exn).
Arguments Return {A} a.
Arguments Raise {A} e.

(** Code without side effects: [obind] sequences, [ocatch] is
    [try: ... except classes: ...]. *)
Definition obind {A B} (r : outcome A) (k : A -> outcome B) : outcome B :=
  match r with
  | Return a => k a
  | Raise e => Raise e
  end.

Definition ocatch {A} (r : outcome A) (classes : list exn)
    (handler : outcome A) : outcome A :=
  match r with
  | Raise e => if caught e classes then handler else Raise e
  | done => done
  end.

Definition M (S A : Type) : Type := S -> outcome A * S.

Definition ret {S A} (a : A) : M S A := fun s => (Return a, s).
Definition raise {S A} (e : exn) : M S A := fun s => (Raise e, s).

Definition bind {S A B} (c : M S A) (k : A -> M S B) : M S B :=
  fun s => match c s with
           | (Return a, s') => k a s'
           | (Raise e, s') => (Raise e, s')
           end.

Definition gets {S A} (f : S -> A) : M S A := fun s => (Return (f s), s).
Definition modify {S} (f : S -> S) : M S unit := fun s => (Return tt, f s).

(** Lift an effect-free computation that may raise. *)
Definition lift {S A} (r : outcome A) : M S A := fun s => (r, s).

(** [try: body  except classes: handler] *)
Definition try_except {S A} (body : M S A) (classes : list exn)
    (handler : M S A) : M S A :=
  fun s => match body s with
           | (Raise e, s') =>
               if caught e classes then handler s' else (Raise e, s')
           | done => done
           end.

(** [try: body  finally: cleanup] *)
Definition try_finally {S A} (body : M S A) (cleanup : M S unit) : M S A :=
  fun s => match body s with
           | (r, s') => match cleanup s' with
                        | (Return _, s'') => (r, s'')
                        | (Raise e, s'') => (Raise e, s'')
                        end
           end.

Definition when {S} (b : bool) (c : M S unit) : M S unit :=
  if b then c else ret tt.

End Py.

Import Py.

Declare Scope py_scope.
Delimit Scope py_scope with py.
Notation "x <- c ;; k" := (bind c (fun x => k))
  (at level 61, c at next level, right associativity) : py_scope.
Notation "c ;;; k" := (bind c (fun _ => k))
  (at level 61, right associativity) : py_scope.

(* ================================================================== *)
(** * UTF-8: [str.encode()] and [bytes.decode()]                        *)
(* ================================================================== *)

Module Utf8.

(** The byte with value [n]; [n] is below 256 wherever this is used. *)
Definition byte_of (n : N) : byte :=
  match Byte.of_N n with
  | Some b => b
  | None => x00
  end.

Definition is_surrogate (cp : N) : bool :=
  ((55296 <=? cp) && (cp <=? 57343))%N.

(** Payload of a continuation byte [10xxxxxx]. *)
Definition cont (b : byte) : option N :=
  let n := Byte.to_N b in
  if ((128 <=? n) && (n <=? 191))%N then Some (n - 128)%N else None.

(** [bytes.decode()] with the default strict error handler: [None] stands
    for [UnicodeDecodeError].  Overlong forms, encoded surrogates and
    values above U+10FFFF are refused. *)
Fixpoint decode (bs : list byte) : option (list N) :=
  match bs with
  | [] => Some []
  | b0 :: r0 =>
      let n0 := Byte.to_N b0 in
      if (n0 <? 128)%N then option_map (cons n0) (decode r0)
      else if ((192 <=? n0) && (n0 <=? 223))%N then
        match r0 with
        | b1 :: r1 =>
            match cont b1 with
            | Some c1 =>
                let cp := ((n0 - 192) * 64 + c1)%N in
                if (128 <=? cp)%N then option_map (cons cp) (decode r1)
                else None
            | None => None
            end
        | _ => None
        end
      else if ((224 <=? n0) && (n0 <=? 239))%N then
        match r0 with
        | b1 :: b2 :: r2 =>
            match cont b1, cont b2 with
            | Some c1, Some c2 =>
                let cp := ((n0 - 224) * 4096 + c1 * 64 + c2)%N in
                if ((2048 <=? cp) && negb (is_surrogate cp))%N
                then option_map (cons cp) (decode r2)
                else None
            | _, _ => None
            end
        | _ => None
        end
      else if ((240 <=? n0) && (n0 <=? 244))%N then
        match r0 with
        | b1 :: b2 :: b3 :: r3 =>
            match cont b1, cont b2, cont b3 with
            | Some c1, Some c2, Some c3 =>
                let cp := ((n0 - 240) * 262144 + c1 * 4096 + c2 * 64 + c3)%N in
                if ((65536 <=? cp) && (cp <=? 1114111))%N
                then option_map (cons cp) (decode r3)
                else None
            | _, _, _ => None
            end
        | _ => None
        end
      else None
  end.

(** [str.encode()]: [None] stands for [UnicodeEncodeError] (a surrogate
    code point cannot be encoded). *)
Fixpoint encode (s : list N) : option (list byte) :=
  match s with
  | [] => Some []
  | cp :: r =>
      let unit_bytes :=
        if (cp <? 128)%N then Some [byte_of cp]
        else if (cp <? 2048)%N then
          Some [byte_of (192 + cp / 64); byte_of (128 + cp mod 64)]%N
        else if is_surrogate cp then None
        else if (cp <? 65536)%N then
          Some [byte_of (224 + cp / 4096); byte_of (128 + (cp / 64) mod 64);
                byte_of (128 + cp mod 64)]%N
        else if (cp <? 1114112)%N then
          Some [byte_of (240 + cp / 262144); byte_of (128 + (cp / 4096) mod 64);
                byte_of (128 + (cp / 64) mod 64); byte_of (128 + cp mod 64)]%N
        else None in
      match unit_bytes, encode r with
      | Some u, Some bs => Some (u ++ bs)
      | _, _ => None
      end
  end.

End Utf8.

(* ================================================================== *)
(** * Python values and the [json] module                               *)
(* ================================================================== *)

Module Json.

(** A [str]: its code points. *)
Definition str : Type := list N.

(** A [str] literal. *)
Definition u (x : string) : str :=
  map (fun a => N_of_ascii a) (list_ascii_of_string x).

Fixpoint str_eqb (a b : str) : bool :=
  match a, b with
  | [], [] => true
  | x :: a', y :: b' => (x =? y)%N && str_eqb a' b'
  | _, _ => false
  end.

(** A [float] is kept as the decimal that [float.__repr__] prints for it,
    [(-1)^neg * mant * 10^exp] with [mant] free of trailing zeros: the
    shortest decimal that reads back as the same binary64, so that two
    finite floats are the same exactly when their decimals are (the two
    zeros apart, which Python holds equal).  Python rounds a literal to
    the nearest binary64; that rounding is not part of this embedding,
    and [make_float] keeps the decimal of the literal itself. *)
Inductive float : Type :=
| FNaN
| FInf (neg : bool)
| FDec (neg : bool) (mant : N) (exp : Z).

(** The Python objects that [json.loads] builds and [json.dumps] accepts.
    [VNone] is [None]; a [dict] has [str] keys and keeps insertion order. *)
Inductive value : Type :=
| VNone
| VBool (b : bool)
| VInt (z : Z)
| VFloat (f : float)
| VStr (s : str)
| VList (l : list value)
| VDict (d : list (str * value)).

(** ** [dict] operations *)

Section Dict.
Variables (K V : Type) (keqb : K -> K -> bool).

Fixpoint dict_get (k : K) (d : list (K * V)) : option V :=
    match d with
    | [] => None
    | (k', v) :: d' => if keqb k k' then Some v else dict_get k d'
    end.

Definition dict_contains (k : K) (d : list (K * V)) : bool :=
    match dict_get k d with Some _ => true | None => false end.

  (** [d[k] = v]: an existing key keeps its place, a new one goes last. *)
Fixpoint dict_set (k : K) (v : V) (d : list (K * V)) : list (K * V) :=
    match d with
    | [] => [(k, v)]
    | (k', v') :: d' =>
        if keqb k k' then (k', v) :: d' else (k', v') :: dict_set k v d'
    end.

  (** [d.pop(k, None)] *)
Fixpoint dict_pop (k : K) (d : list (K * V)) : list (K * V) :=
    match d with
    | [] => []
    | (k', v') :: d' => if keqb k k' then d' else (k', v') :: dict_pop k d'
    end.

  (** [dict(pairs)] *)
Definition dict_of_pairs (ps : list (K * V)) : list (K * V) :=
    fold_left (fun d kv => dict_set (fst kv) (snd kv) d) ps [].
End Dict.

(** ** Truthiness, [in], [.get] *)

(** [bool(v)] *)
Definition truthy (v : value) : bool :=
  match v with
  | VNone => false
  | VBool b => b
  | VInt z => negb (z =? 0)%Z
  | VFloat (FDec _ m _) => negb (m =? 0)%N
  | VFloat _ => true
  | VStr s => match s with [] => false | _ => true end
  | VList l => match l with [] => false | _ => true end
  | VDict d => match d with [] => false | _ => true end
  end.

(** [v.get(key)]: only a [dict] has the method. *)
Definition py_get (v : value) (key : str) : outcome value :=
  match v with
  | VDict d => match dict_get str_eqb key d with
               | Some x => Return x
               | None => Return VNone
               end
  | _ => Raise AttributeError
  end.

(** [v.get(key, default)] *)
Definition py_get_default (v : value) (key : str) (default : value)
  : outcome value :=
  match v with
  | VDict d => match dict_get str_eqb key d with
               | Some x => Return x
               | None => Return default
               end
  | _ => Raise AttributeError
  end.

Fixpoint is_prefix (p s : str) : bool :=
  match p, s with
  | [], _ => true
  | x :: p', y :: s' => (x =? y)%N && is_prefix p' s'
  | _ :: _, [] => false
  end.

Fixpoint is_substring (p s : str) : bool :=
  is_prefix p s || match s with
                   | [] => false
                   | _ :: s' => is_substring p s'
                   end.

(** Structural equality of the values a list membership test compares
    against a [str]. *)
Definition is_str (key : str) (v : value) : bool :=
  match v with
  | VStr s => str_eqb key s
  | _ => false
  end.

(** [key in v] for a [str] key: key lookup in a [dict], membership in a
    [list], substring test on a [str], [TypeError] otherwise. *)
Definition py_in (key : str) (v : value) : outcome bool :=
  match v with
  | VDict d => Return (dict_contains str_eqb key d)
  | VList l => Return (existsb (is_str key) l)
  | VStr s => Return (is_substring key s)
  | _ => Raise TypeError
  end.

Definition is_dict (v : value) : bool :=
  match v with VDict _ => true | _ => false end.

Definition is_none (v : value) : bool :=
  match v with VNone => true | _ => false end.

(** ** [json.dumps] *)

Definition hex_digit (n : N) : N :=
  if (n <? 10)%N then (48 + n)%N else (87 + n)%N.

(** ["\\u{0:04x}"] *)
Definition u_escape (n : N) : str :=
  [92; 117; hex_digit (n / 4096); hex_digit ((n / 256) mod 16);
   hex_digit ((n / 16) mod 16); hex_digit (n mod 16)]%N.

(** One character of [py_encode_basestring_ascii]: the short escapes of
    [ESCAPE_DCT], printable ASCII as it is, everything else as [\uXXXX]
    (a surrogate pair above the basic plane). *)
Definition escape_char (c : N) : str :=
  if (c =? 34)%N then [92; 34]%N
  else if (c =? 92)%N then [92; 92]%N
  else if (c =? 10)%N then [92; 110]%N
  else if (c =? 13)%N then [92; 114]%N
  else if (c =? 9)%N then [92; 116]%N
  else if (c =? 12)%N then [92; 102]%N
  else if (c =? 8)%N then [92; 98]%N
  else if ((32 <=? c) && (c <=? 126))%N then [c]
  else if (c <? 65536)%N then u_escape c
  else let n := (c - 65536)%N in
       u_escape (55296 + (n / 1024) mod 1024) ++
       u_escape (56320 + n mod 1024).

Definition encode_basestring_ascii (s : str) : str :=
  (34%N :: flat_map escape_char s) ++ [34%N].

Fixpoint uint_chars (d : Decimal.uint) : str :=
  match d with
  | Nil => []
  | D0 d' => 48%N :: uint_chars d'
  | D1 d' => 49%N :: uint_chars d'
  | D2 d' => 50%N :: uint_chars d'
  | D3 d' => 51%N :: uint_chars d'
  | D4 d' => 52%N :: uint_chars d'
  | D5 d' => 53%N :: uint_chars d'
  | D6 d' => 54%N :: uint_chars d'
  | D7 d' => 55%N :: uint_chars d'
  | D8 d' => 56%N :: uint_chars d'
  | D9 d' => 57%N :: uint_chars d'
  end.

(** [int.__repr__] *)
Definition int_repr (z : Z) : str :=
  match z with
  | Z0 => [48%N]
  | Zpos p => uint_chars (Pos.to_uint p)
  | Zneg p => 45%N :: uint_chars (Pos.to_uint p)
  end.

(** [float.__repr__] on the digits [mant] and the exponent [exp]: plain
    notation while the decimal point sits between positions -4 and 16,
    exponent notation with at least two exponent digits otherwise;
    [json.dumps] spells the non-finite values [NaN] and [Infinity]. *)
Definition float_repr (f : float) : str :=
  match f with
  | FNaN => u "NaN"
  | FInf false => u "Infinity"
  | FInf true => u "-Infinity"
  | FDec neg mant exp =>
      let sign : str := if neg then [45%N] else [] in
      let ds := uint_chars (N.to_uint mant) in
      let n := Z.of_nat (List.length ds) in
      let decpt := (n + exp)%Z in
      sign ++
      (if (mant =? 0)%N then u "0.0"
       else if ((-4 <? decpt) && (decpt <=? 16))%Z then
         if (decpt <=? 0)%Z then
           u "0." ++ repeat 48%N (Z.to_nat (- decpt)) ++ ds
         else if (n <=? decpt)%Z then
           ds ++ repeat 48%N (Z.to_nat (decpt - n)) ++ u ".0"
         else firstn (Z.to_nat decpt) ds ++ [46%N] ++ skipn (Z.to_nat decpt) ds
       else
         let e := (decpt - 1)%Z in
         let es := uint_chars (N.to_uint (Z.abs_N e)) in
         [hd 48%N ds] ++
         match tl ds with [] => [] | t => 46%N :: t end ++
         [101%N] ++ (if (e <? 0)%Z then [45%N] else [43%N]) ++
         match es with [_] => 48%N :: es | _ => es end)
  end.

(** [json.dumps(v, separators=(item_sep, key_sep))] with the other
    defaults ([ensure_ascii=True], [allow_nan=True]). *)
Fixpoint dumps (item_sep key_sep : str) (v : value) : str :=
  match v with
  | VNone => u "null"
  | VBool true => u "true"
  | VBool false => u "false"
  | VInt z => int_repr z
  | VFloat f => float_repr f
  | VStr s => encode_basestring_ascii s
  | VList l =>
      91%N ::
      (fix items (l : list value) : str :=
         match l with
         | [] => []
         | [x] => dumps item_sep key_sep x
         | x :: xs => dumps item_sep key_sep x ++ item_sep ++ items xs
         end) l ++ [93%N]
  | VDict d =>
      123%N ::
      (fix pairs (d : list (str * value)) : str :=
         match d with
         | [] => []
         | [(k, x)] =>
             encode_basestring_ascii k ++ key_sep ++ dumps item_sep key_sep x
         | (k, x) :: xs =>
             encode_basestring_ascii k ++ key_sep ++ dumps item_sep key_sep x
             ++ item_sep ++ pairs xs
         end) d ++ [125%N]
  end.

(** ** [json.loads] *)

Definition is_ws (c : N) : bool :=
  ((c =? 32) || (c =? 9) || (c =? 10) || (c =? 13))%N.

(** The [WHITESPACE] regular expression: skip blanks, tabs, newlines and
    carriage returns. *)
Fixpoint skip_ws (s : str) : str :=
  match s with
  | c :: r => if is_ws c then skip_ws r else s
  | [] => []
  end.

Definition hexval (c : N) : option N :=
  if ((48 <=? c) && (c <=? 57))%N then Some (c - 48)%N
  else if ((97 <=? c) && (c <=? 102))%N then Some (c - 87)%N
  else if ((65 <=? c) && (c <=? 70))%N then Some (c - 55)%N
  else None.

(** [_decode_uXXXX]: exactly four hexadecimal digits. *)
Definition hex4 (a b c d : N) : option N :=
  match hexval a, hexval b, hexval c, hexval d with
  | Some x, Some y, Some z, Some w =>
      Some (((x * 16 + y) * 16 + z) * 16 + w)%N
  | _, _, _, _ => None
  end.

(** The [BACKSLASH] table. *)
Definition unescape (c : N) : option N :=
  if (c =? 34)%N then Some 34%N
  else if (c =? 92)%N then Some 92%N
  else if (c =? 47)%N then Some 47%N
  else if (c =? 98)%N then Some 8%N
  else if (c =? 102)%N then Some 12%N
  else if (c =? 110)%N then Some 10%N
  else if (c =? 114)%N then Some 13%N
  else if (c =? 116)%N then Some 9%N
  else None.

Definition is_high_surrogate (n : N) : bool :=
  ((55296 <=? n) && (n <=? 56319))%N.
Definition is_low_surrogate (n : N) : bool :=
  ((56320 <=? n) && (n <=? 57343))%N.

Definition push (c : N) (r : option (str * str)) : option (str * str) :=
  match r with
  | Some (s, rest) => Some (c :: s, rest)
  | None => None
  end.

(** [scanstring] in strict mode, started after the opening quote: the
    decoded string and what follows the closing quote.  [None] is a
    [JSONDecodeError]: unterminated string, raw control character, bad
    escape.  A [\uXXXX] high surrogate directly followed by a [\uXXXX]
    low surrogate is joined into one code point. *)
Fixpoint scanstring (s : str) : option (str * str) :=
  match s with
  | [] => None
  | c :: r =>
      if (c =? 34)%N then Some ([], r)
      else if (c =? 92)%N then
        match r with
        | [] => None
        | esc :: r1 =>
            if (esc =? 117)%N then
              match r1 with
              | h1 :: h2 :: h3 :: h4 :: r2 =>
                  match hex4 h1 h2 h3 h4 with
                  | None => None
                  | Some uni =>
                      match r2 with
                      | x :: y :: r3 =>
                          if is_high_surrogate uni && (x =? 92)%N && (y =? 117)%N
                          then
                            match r3 with
                            | l1 :: l2 :: l3 :: l4 :: r4 =>
                                match hex4 l1 l2 l3 l4 with
                                | None => None
                                | Some uni2 =>
                                    if is_low_surrogate uni2 then
                                      push (65536 + (uni - 55296) * 1024
                                                  + (uni2 - 56320))%N
                                           (scanstring r4)
                                    else push uni (scanstring r2)
                                end
                            | _ => None
                            end
                          else push uni (scanstring r2)
                      | _ => push uni (scanstring r2)
                      end
                  end
              | _ => None
              end
            else
              match unescape esc with
              | Some ch => push ch (scanstring r1)
              | None => None
              end
        end
      else if (c <? 32)%N then None
      else push c (scanstring r)
  end.

Definition is_digit (c : N) : bool := ((48 <=? c) && (c <=? 57))%N.

(** The longest run of digits (the [\d] star of the number pattern) and
    what follows it. *)
Fixpoint scan_digits (s : str) : str * str :=
  match s with
  | c :: r =>
      if is_digit c then let (d, rest) := scan_digits r in (c :: d, rest)
      else ([], s)
  | [] => ([], [])
  end.

(** The integer part: a lone [0], or a non-zero digit and more digits. *)
Definition scan_integer (s : str) : option (str * str) :=
  match s with
  | c :: r =>
      if (c =? 48)%N then Some ([c], r)
      else if is_digit c then let (d, rest) := scan_digits r in Some (c :: d, rest)
      else None
  | [] => None
  end.

(** The optional fraction: it matches only with a digit after the point. *)
Definition scan_frac (s : str) : option str * str :=
  match s with
  | c :: r =>
      if (c =? 46)%N then
        match scan_digits r with
        | ([], _) => (None, s)
        | (d, rest) => (Some d, rest)
        end
      else (None, s)
  | [] => (None, s)
  end.

(** The number a run of decimal digits denotes. *)
Definition digits_value (s : str) : N :=
  fold_left (fun acc c => (acc * 10 + (c - 48))%N) s 0%N.

(** The optional exponent: [e] or [E], an optional sign, digits. *)
Definition scan_exp (s : str) : option Z * str :=
  match s with
  | c :: r =>
      if ((c =? 101) || (c =? 69))%N then
        let (neg, r') :=
          match r with
          | sg :: r1 => if (sg =? 45)%N then (true, r1)
                        else if (sg =? 43)%N then (false, r1)
                        else (false, r)
          | [] => (false, r)
          end in
        match scan_digits r' with
        | ([], _) => (None, s)
        | (d, rest) =>
            let e := Z.of_N (digits_value d) in
            (Some (if neg then (- e)%Z else e), rest)
        end
      else (None, s)
  | [] => (None, s)
  end.

(** The zeros a run of digits starts with, counted and taken off. *)
Fixpoint drop_zeros (s : str) : str * nat :=
  match s with
  | c :: r =>
      if (c =? 48)%N then let (t, n) := drop_zeros r in (t, S n)
      else (s, O)
  | [] => ([], O)
  end.

(** [float(integer + frac + exp)] as a decimal without trailing zeros. *)
Definition make_float (neg : bool) (int : str) (frac : option str)
    (exp : option Z) : float :=
  let fr := match frac with Some d => d | None => [] end in
  let e := match exp with Some z => z | None => 0%Z end in
  let (digits, zeros) := drop_zeros (List.rev (int ++ fr)) in
  let mant := digits_value (List.rev digits) in
  if (mant =? 0)%N then FDec neg 0 0
  else FDec neg mant (e - Z.of_nat (List.length fr) + Z.of_nat zeros).

(** [NUMBER_RE] and the conversion that follows it in the scanner:
    [int(integer)] unless a fraction or an exponent is present. *)
Definition match_number (s : str) : option (value * str) :=
  let (neg, s1) :=
    match s with
    | c :: r => if (c =? 45)%N then (true, r) else (false, s)
    | [] => (false, s)
    end in
  match scan_integer s1 with
  | None => None
  | Some (int, s2) =>
      let (frac, s3) := scan_frac s2 in
      let (exp, s4) := scan_exp s3 in
      match frac, exp with
      | None, None =>
          let n := Z.of_N (digits_value int) in
          Some (VInt (if neg then (- n)%Z else n), s4)
      | _, _ => Some (VFloat (make_float neg int frac exp), s4)
      end
  end.

(** [s[idx:idx+len(p)] == p]: the rest of [s] after the prefix [p]. *)
Fixpoint after_prefix (p s : str) : option str :=
  match p, s with
  | [], _ => Some s
  | x :: p', y :: s' => if (x =? y)%N then after_prefix p' s' else None
  | _ :: _, [] => None
  end.

Definition keyword (p : string) (v : value) (s : str)
    (otherwise : option (value * str)) : option (value * str) :=
  match after_prefix (u p) s with
  | Some rest => Some (v, rest)
  | None => otherwise
  end.

(** [scan_once], [JSONArray] and [JSONObject].  Python recurses on the
    nesting of the text; here [fuel] bounds that recursion, and
    [2 * length s] is always enough ([scan_once_fuel]).  [array_loop] is
    the [while True] of [JSONArray], entered in front of an element;
    [object_loop] is the one of [JSONObject], entered after the opening
    quote of a key. *)
Fixpoint scan_once (fuel : nat) (s : str) {struct fuel}
  : option (value * str) :=
  match fuel with
  | O => None
  | S fuel' =>
      match s with
      | [] => None
      | c :: r =>
          if (c =? 34)%N then
            match scanstring r with
            | Some (x, rest) => Some (VStr x, rest)
            | None => None
            end
          else if (c =? 123)%N then
            match skip_ws r with
            | c1 :: r1 =>
                if (c1 =? 125)%N then Some (VDict [], r1)
                else if (c1 =? 34)%N then
                  match object_loop fuel' r1 with
                  | Some (ps, rest) =>
                      Some (VDict (dict_of_pairs str_eqb ps), rest)
                  | None => None
                  end
                else None
            | [] => None
            end
          else if (c =? 91)%N then
            match skip_ws r with
            | c1 :: r1 =>
                if (c1 =? 93)%N then Some (VList [], r1)
                else
                  match array_loop fuel' (c1 :: r1) with
                  | Some (vs, rest) => Some (VList vs, rest)
                  | None => None
                  end
            | [] => None
            end
          else
            keyword "null" VNone s
            (keyword "true" (VBool true) s
            (keyword "false" (VBool false) s
            (match match_number s with
             | Some r => Some r
             | None =>
                 keyword "NaN" (VFloat FNaN) s
                 (keyword "Infinity" (VFloat (FInf false)) s
                 (keyword "-Infinity" (VFloat (FInf true)) s None))
             end)))
      end
  end

with array_loop (fuel : nat) (s : str) {struct fuel}
  : option (list value * str) :=
  match fuel with
  | O => None
  | S fuel' =>
      match scan_once fuel' s with
      | None => None
      | Some (v, r) =>
          match skip_ws r with
          | c :: r1 =>
              if (c =? 93)%N then Some ([v], r1)
              else if (c =? 44)%N then
                match array_loop fuel' (skip_ws r1) with
                | Some (vs, rest) => Some (v :: vs, rest)
                | None => None
                end
              else None
          | [] => None
          end
      end
  end

with object_loop (fuel : nat) (s : str) {struct fuel}
  : option (list (str * value) * str) :=
  match fuel with
  | O => None
  | S fuel' =>
      match scanstring s with
      | None => None
      | Some (key, r) =>
          match skip_ws r with
          | c :: r1 =>
              if (c =? 58)%N then
                match scan_once fuel' (skip_ws r1) with
                | None => None
                | Some (v, r2) =>
                    match skip_ws r2 with
                    | c2 :: r3 =>
                        if (c2 =? 125)%N then Some ([(key, v)], r3)
                        else if (c2 =? 44)%N then
                          match skip_ws r3 with
                          | c3 :: r4 =>
                              if (c3 =? 34)%N then
                                match object_loop fuel' r4 with
                                | Some (ps, rest) =>
                                    Some ((key, v) :: ps, rest)
                                | None => None
                                end
                              else None
                          | [] => None
                          end
                        else None
                    | [] => None
                    end
                end
              else None
          | [] => None
          end
      end
  end.

(** [s.startswith('\ufeff')] *)
Definition has_bom (s : str) : bool :=
  match s with
  | c :: _ => (c =? 65279)%N
  | [] => false
  end.

(** [json.loads(s)] for a [str]: [None] stands for [JSONDecodeError].  A
    leading byte-order mark is refused, blanks around the document are
    skipped, anything after it is "Extra data". *)
Definition loads (s : str) : option value :=
  if has_bom s then None
  else
    match scan_once (2 * List.length s) (skip_ws s) with
    | Some (v, rest) =>
        match skip_ws rest with
        | [] => Some v
        | _ :: _ => None
        end
    | None => None
    end.

(** ** [json.loads] under the limits of an interpreter *)

(** What the interpreter that runs the program allows. *)
Record interpreter : Type := {
  (* [sys.get_int_max_str_digits()]; [0] switches the limit off *)
  int_max_str_digits : nat;
  (* the lists and dicts, one inside the other, that the scanner can
     still enter before the recursion limit is reached *)
  recursion_room : nat
}.

(** [int(digits)] raises [ValueError] for this many digits: more than
    the limit, when there is one (the check starts above 640 digits,
    the smallest limit that can be set). *)
Definition too_many_digits (py : interpreter) (digits : str) : bool :=
  (640 <? List.length digits) && (0 <? int_max_str_digits py) &&
  (int_max_str_digits py <? List.length digits).

(** [match_number], with the conversion [int(integer)] under the digit
    limit.  A text that is no number gives [JSONDecodeError] here. *)
Definition match_number_in (py : interpreter) (s : str)
  : outcome (value * str) :=
  let (neg, s1) :=
    match s with
    | c :: r => if (c =? 45)%N then (true, r) else (false, s)
    | [] => (false, s)
    end in
  match scan_integer s1 with
  | None => Raise JSONDecodeError
  | Some (int, s2) =>
      let (frac, s3) := scan_frac s2 in
      let (exp, s4) := scan_exp s3 in
      match frac, exp with
      | None, None =>
          if too_many_digits py int then Raise ValueError
          else
            let n := Z.of_N (digits_value int) in
            Return (VInt (if neg then (- n)%Z else n), s4)
      | _, _ => Return (VFloat (make_float neg int frac exp), s4)
      end
  end.

Definition keyword_in (p : string) (v : value) (s : str)
    (otherwise : outcome (value * str)) : outcome (value * str) :=
  match after_prefix (u p) s with
  | Some rest => Return (v, rest)
  | None => otherwise
  end.

(** [scan_once], [JSONArray] and [JSONObject] as an interpreter runs
    them: entering a list or a dict takes one level of [room], and
    [RecursionError] is raised when none is left; an integer is
    converted under the digit limit.  Every other failure is
    [JSONDecodeError]. *)
Fixpoint scan_once_in (py : interpreter) (fuel room : nat) (s : str)
    {struct fuel} : outcome (value * str) :=
  match fuel with
  | O => Raise JSONDecodeError
  | S fuel' =>
      match s with
      | [] => Raise JSONDecodeError
      | c :: r =>
          if (c =? 34)%N then
            match scanstring r with
            | Some (x, rest) => Return (VStr x, rest)
            | None => Raise JSONDecodeError
            end
          else if (c =? 123)%N then
            match room with
            | O => Raise RecursionError
            | S room' =>
                match skip_ws r with
                | c1 :: r1 =>
                    if (c1 =? 125)%N then Return (VDict [], r1)
                    else if (c1 =? 34)%N then
                      match object_loop_in py fuel' room' r1 with
                      | Return (ps, rest) =>
                          Return (VDict (dict_of_pairs str_eqb ps), rest)
                      | Raise e => Raise e
                      end
                    else Raise JSONDecodeError
                | [] => Raise JSONDecodeError
                end
            end
          else if (c =? 91)%N then
            match room with
            | O => Raise RecursionError
            | S room' =>
                match skip_ws r with
                | c1 :: r1 =>
                    if (c1 =? 93)%N then Return (VList [], r1)
                    else
                      match array_loop_in py fuel' room' (c1 :: r1) with
                      | Return (vs, rest) => Return (VList vs, rest)
                      | Raise e => Raise e
                      end
                | [] => Raise JSONDecodeError
                end
            end
          else
            keyword_in "null" VNone s
            (keyword_in "true" (VBool true) s
            (keyword_in "false" (VBool false) s
            (match match_number_in py s with
             | Raise JSONDecodeError =>
                 keyword_in "NaN" (VFloat FNaN) s
                 (keyword_in "Infinity" (VFloat (FInf false)) s
                 (keyword_in "-Infinity" (VFloat (FInf true)) s
                             (Raise JSONDecodeError)))
             | done => done
             end)))
      end
  end

with array_loop_in (py : interpreter) (fuel room : nat) (s : str)
    {struct fuel} : outcome (list value * str) :=
  match fuel with
  | O => Raise JSONDecodeError
  | S fuel' =>
      match scan_once_in py fuel' room s with
      | Raise e => Raise e
      | Return (v, r) =>
          match skip_ws r with
          | c :: r1 =>
              if (c =? 93)%N then Return ([v], r1)
              else if (c =? 44)%N then
                match array_loop_in py fuel' room (skip_ws r1) with
                | Return (vs, rest) => Return (v :: vs, rest)
                | Raise e => Raise e
                end
              else Raise JSONDecodeError
          | [] => Raise JSONDecodeError
          end
      end
  end

with object_loop_in (py : interpreter) (fuel room : nat) (s : str)
    {struct fuel} : outcome (list (str * value) * str) :=
  match fuel with
  | O => Raise JSONDecodeError
  | S fuel' =>
      match scanstring s with
      | None => Raise JSONDecodeError
      | Some (key, r) =>
          match skip_ws r with
          | c :: r1 =>
              if (c =? 58)%N then
                match scan_once_in py fuel' room (skip_ws r1) with
                | Raise e => Raise e
                | Return (v, r2) =>
                    match skip_ws r2 with
                    | c2 :: r3 =>
                        if (c2 =? 125)%N then Return ([(key, v)], r3)
                        else if (c2 =? 44)%N then
                          match skip_ws r3 with
                          | c3 :: r4 =>
                              if (c3 =? 34)%N then
                                match object_loop_in py fuel' room r4 with
                                | Return (ps, rest) =>
                                    Return ((key, v) :: ps, rest)
                                | Raise e => Raise e
                                end
                              else Raise JSONDecodeError
                          | [] => Raise JSONDecodeError
                          end
                        else Raise JSONDecodeError
                    | [] => Raise JSONDecodeError
                    end
                end
              else Raise JSONDecodeError
          | [] => Raise JSONDecodeError
          end
      end
  end.

(** [json.loads(s)] as the interpreter [py] runs it. *)
Definition loads_in (py : interpreter) (s : str) : outcome value :=
  if has_bom s then Raise JSONDecodeError
  else
    match scan_once_in py (2 * List.length s) (recursion_room py) (skip_ws s) with
    | Return (v, rest) =>
        match skip_ws rest with
        | [] => Return v
        | _ :: _ => Raise JSONDecodeError
        end
    | Raise e => Raise e
    end.

(** CPython as it is set up by default: integers of up to 4300 digits
    (from 3.11 on) and a recursion limit of 1000, none of it used yet. *)
Definition cpython : interpreter :=
  {| int_max_str_digits := 4300; recursion_room := 1000 |}.

(** The result of [loads] as an outcome. *)
Definition decoded {A} (r : option A) : outcome A :=
  match r with
  | Some a => Return a
  | None => Raise JSONDecodeError
  end.

(** A limit of the interpreter was reached. *)
Definition limit_hit {A} (r : outcome A) : Prop :=
  r = Raise ValueError \/ r = Raise RecursionError.

(** [json.loads] ran as it does without limits, or a limit was
    reached. *)
Definition unless_limit_hit {A} (r : outcome A) (free : option A) : Prop :=
  limit_hit r \/ r = decoded free.

(** ** The values whose round trip is stated below *)

(** A Unicode scalar value: a code point that is not a surrogate. *)
Definition scalar_value (c : N) : bool :=
  (c <? 1114112)%N && negb (Utf8.is_surrogate c).

(** Text: a [str] of scalar values, which is what UTF-8 can carry. *)
Definition text (s : str) : bool := forallb scalar_value s.

Fixpoint distinct (ks : list str) : bool :=
  match ks with
  | [] => true
  | k :: rest => negb (existsb (str_eqb k) rest) && distinct rest
  end.

(** The floats that a message can carry and compare: not [nan], which
    differs from itself, and a decimal in the form [float] describes. *)
Definition normal_float (f : float) : bool :=
  match f with
  | FNaN => false
  | FInf _ => true
  | FDec _ mant exp =>
      if (mant =? 0)%N then (exp =? 0)%Z else negb (mant mod 10 =? 0)%N
  end.

(** [None], booleans, integers, floats, text, and lists and dicts of
    these; the keys of a dict are text and, as in any Python dict,
    distinct. *)
Fixpoint plain (v : value) : bool :=
  match v with
  | VNone | VBool _ | VInt _ => true
  | VFloat f => normal_float f
  | VStr s => text s
  | VList l => forallb plain l
  | VDict d =>
      distinct (map fst d) &&
      (fix entries (d : list (str * value)) : bool :=
         match d with
         | [] => true
         | (k, x) :: rest => text k && plain x && entries rest
         end) d
  end.

(** The nesting that [scan_once] has to follow to read [v] back. *)
Fixpoint cost (v : value) : nat :=
  match v with
  | VList l =>
      S ((fix items (l : list value) : nat :=
            match l with
            | [] => O
            | x :: xs => S (cost x + items xs)
            end) l)
  | VDict d =>
      S ((fix entries (d : list (str * value)) : nat :=
            match d with
            | [] => O
            | (_, x) :: rest => S (cost x + entries rest)
            end) d)
  | _ => 1
  end.

(** ** Notions used to state and prove the round trip *)

(** [sep.join(texts)] *)
Fixpoint join (sep : str) (texts : list str) : str :=
  match texts with
  | [] => []
  | [x] => x
  | x :: xs => x ++ sep ++ join sep xs
  end.

(** The text of one [key: value] pair of a dict. *)
Definition pair_text (i k : str) (kv : str * value) : str :=
  encode_basestring_ascii (fst kv) ++ k ++ dumps i k (snd kv).

(** [pair_text] with the separators of [encode_msg]. *)
Definition pt : str * value -> str := pair_text [44%N] [58%N].

(** What follows a pair inside a compact dict: the closing brace, or a
    comma and the remaining pairs. *)
Definition more (d : list (str * value)) (rest : str) : str :=
  match d with
  | [] => 125%N :: rest
  | _ :: _ => 44%N :: join [44%N] (map pt d) ++ 125%N :: rest
  end.

(** [cost] of the elements of a list, as [array_loop] meets them. *)
Fixpoint cost_items (l : list value) : nat :=
  match l with
  | [] => O
  | x :: xs => S (cost x + cost_items xs)
  end.

(** What may follow a value in compact JSON: nothing, a comma, a closing
    bracket or brace, or the newline that ends a frame. *)
Definition closes (rest : str) : bool :=
  match rest with
  | [] => true
  | c :: _ => ((c =? 44) || (c =? 93) || (c =? 125) || (c =? 10))%N
  end.

(** A run of digits ends here. *)
Definition no_digit_ahead (rest : str) : bool :=
  match rest with
  | [] => true
  | c :: _ => negb (is_digit c)
  end.

Definition digits_only (s : str) : Prop := Forall (fun c => is_digit c = true) s.

(** How the text of a value can begin: not with a blank, a closing
    bracket or brace, or a byte-order mark. *)
Definition opens (c : N) : Prop :=
  is_ws c = false /\ c <> 93%N /\ c <> 125%N /\ c <> 65279%N.

(** [scan_once] reads the compact text of [v] back, whatever follows. *)
Definition reads_back (v : value) : Prop :=
  plain v = true ->
  forall fuel rest, cost v <= fuel -> closes rest = true ->
  scan_once fuel (dumps [44%N] [58%N] v ++ rest) = Some (v, rest).

(** The fuel that [loads] grants covers the [cost] of the value. *)
Definition fits (v : value) : Prop :=
  plain v = true -> cost v + 1 <= 2 * List.length (dumps [44%N] [58%N] v).

Definition ascii_only (s : str) : Prop := Forall (fun c => (c < 128)%N) s.

(** Blanks: the characters [json.loads] skips around a document. *)
Definition blanks (s : str) : Prop := Forall (fun c => is_ws c = true) s.

(** Text made of printable ASCII characters only. *)
Definition printable (s : str) : Prop := Forall (fun c => (32 <= c <= 126)%N) s.

(** With [fuel], each scanner leaves less input than it was given. *)
Definition consumes (fuel : nat) : Prop :=
  (forall s v rest, scan_once fuel s = Some (v, rest) ->
                    List.length rest < List.length s) /\
  (forall s vs rest, array_loop fuel s = Some (vs, rest) ->
                     List.length rest < List.length s) /\
  (forall s ps rest, object_loop fuel s = Some (ps, rest) ->
                     List.length rest < List.length s).

(** From [f1] on, more fuel changes no result. *)
Definition settled (f1 : nat) : Prop :=
  forall f2 s,
    (2 * List.length s <= f1 -> 2 * List.length s <= f2 ->
     scan_once f1 s = scan_once f2 s) /\
    (2 * List.length s + 1 <= f1 -> 2 * List.length s + 1 <= f2 ->
     array_loop f1 s = array_loop f2 s) /\
    (2 * List.length s + 1 <= f1 -> 2 * List.length s + 1 <= f2 ->
     object_loop f1 s = object_loop f2 s).

(** Induction on a value and, through [Forall], on the values inside it. *)
Section ValueInduction.
Variable P : value -> Prop.
Hypothesis HNone : P VNone.
Hypothesis HBool : forall b, P (VBool b).
Hypothesis HInt : forall z, P (VInt z).
Hypothesis HFloat : forall f, P (VFloat f).
Hypothesis HStr : forall s, P (VStr s).
Hypothesis HList : forall l, Forall P l -> P (VList l).
Hypothesis HDict : forall d, Forall (fun kv => P (snd kv)) d -> P (VDict d).

Fixpoint value_induction (v : value) : P v :=
  match v with
  | VNone => HNone
  | VBool b => HBool b
  | VInt z => HInt z
  | VFloat f => HFloat f
  | VStr s => HStr s
  | VList l =>
      HList ((fix all (l : list value) : Forall P l :=
                match l with
                | [] => Forall_nil P
                | x :: xs => Forall_cons x (value_induction x) (all xs)
                end) l)
  | VDict d =>
      HDict ((fix all (d : list (str * value))
                : Forall (fun kv => P (snd kv)) d :=
                match d with
                | [] => Forall_nil _
                | kv :: rest =>
                    Forall_cons kv (value_induction (snd kv)) (all rest)
                end) d)
  end.
End ValueInduction.

End Json.

(* ================================================================== *)
(** * [ytm_cli/net.py]                                                  *)
(* ================================================================== *)

Module Net.
Import Json.

Definition bytes : Type := list byte.

(** [s.encode()] *)
Definition str_encode (s : str) : outcome bytes :=
  match Utf8.encode s with
  | Some b => Return b
  | None => Raise UnicodeEncodeError
  end.

(** [b.decode()] *)
Definition bytes_decode (b : bytes) : outcome str :=
  match Utf8.decode b with
  | Some s => Return s
  | None => Raise UnicodeDecodeError
  end.

(** [json.loads(s)] run without the limits of an interpreter:
    [JSONDecodeError] is its only failure.  [json_loads_in] is the same
    call under those limits. *)
Definition json_loads (s : str) : outcome value :=
  match loads s with
  | Some v => Return v
  | None => Raise JSONDecodeError
  end.

(** [json.loads(s)] as the interpreter [py] runs it: besides
    [JSONDecodeError] it raises [ValueError] at an integer of too many
    digits and [RecursionError] at lists and dicts nested too deep. *)
Definition json_loads_in (py : interpreter) (s : str) : outcome value :=
  loads_in py s.

(** ** Framing *)

(** [encode_msg]: compact JSON and a newline, as bytes. *)
Definition encode_msg (msg : value) : outcome bytes :=
  str_encode (dumps (u ",") (u ":") msg ++ u (String "010" EmptyString)).

(** An [asyncio.StreamReader], as what each successive
    [await asyncio.wait_for(reader.readline(), timeout=30.0)] produces: a
    line, or the exception it raises.  Once the list is used up the
    stream is at end of file and [readline] returns [b""]. *)
Definition StreamReader : Type := list (outcome bytes).

(** The body of [read_msg] once the awaited [readline] has produced
    [got]. *)
Definition read_msg_of (got : outcome bytes) : outcome value :=
  match got with
  | Raise e =>
      if caught e [AsyncTimeoutError; ConnectionError; OSError]
      then Return VNone
      else Raise e
  | Return line =>
      match line with
      | [] => Return VNone
      | _ :: _ =>
          ocatch (obind (bytes_decode line) json_loads)
                 [JSONDecodeError; UnicodeDecodeError]
                 (Return VNone)
      end
  end.

(** [read_msg]: the message (or [None]) and the reader afterwards. *)
Definition read_msg (reader : StreamReader) : outcome value * StreamReader :=
  match reader with
  | [] => (read_msg_of (Return []), [])
  | got :: rest => (read_msg_of got, rest)
  end.

(** The body of [read_msg] as the interpreter [py] runs it, once the
    awaited [readline] has produced [got]: the same lines of code, with
    [json.loads] under the limits of [py].  The handler names
    [json.JSONDecodeError] and [UnicodeDecodeError] and nothing else. *)
Definition read_msg_of_in (py : interpreter) (got : outcome bytes)
  : outcome value :=
  match got with
  | Raise e =>
      if caught e [AsyncTimeoutError; ConnectionError; OSError]
      then Return VNone
      else Raise e
  | Return line =>
      match line with
      | [] => Return VNone
      | _ :: _ =>
          ocatch (obind (bytes_decode line) (json_loads_in py))
                 [JSONDecodeError; UnicodeDecodeError]
                 (Return VNone)
      end
  end.

(** ** Transports *)

(** An [asyncio.StreamWriter] is known by the number of its transport;
    an [asyncio.Task] by its number. *)
Definition StreamWriter : Type := nat.
Definition Task : Type := nat.

(** What a process did that others can see. *)
Inductive event : Type :=
| Wrote (w : StreamWriter) (data : bytes)   (* [w.write(data)] went through *)
| Closed (w : StreamWriter)                 (* [w.close()] *)
| OnAdd (entry : value)                     (* [on_add(entry)] was called *)
| OnSync (msg : value).                     (* [on_sync(msg)] was called *)

(** The event loop's side of a process: the events so far, oldest first,
    and what the transports will do when they are used. *)
Record io : Type := {
  trace : list event;
  write_error : StreamWriter -> option exn;  (* raised by [w.write] *)
  drain_error : StreamWriter -> option exn;  (* raised by [await w.drain()] *)
  close_error : StreamWriter -> option exn;  (* raised by [w.close()] *)
  (* what [await wait_for(open_connection(host, port), 5.0)] produces *)
  open_connection : outcome (StreamReader * StreamWriter)
}.

Definition log (e : event) (env : io) : io :=
  {| trace := trace env ++ [e];
     write_error := write_error env;
     drain_error := drain_error env;
     close_error := close_error env;
     open_connection := open_connection env |}.

Section Transport.
  (** [O] is the object whose method is running. *)
Variable O : Type.

Definition self : M (O * io) O := gets fst.
Definition set_self (f : O -> O) : M (O * io) unit :=
    modify (fun s => (f (fst s), snd s)).
Definition emit (e : event) : M (O * io) unit :=
    modify (fun s => (fst s, log e (snd s))).

  (** [w.write(data)] *)
Definition write (w : StreamWriter) (data : bytes) : M (O * io) unit :=
    fun s => match write_error (snd s) w with
             | Some e => (Raise e, s)
             | None => emit (Wrote w data) s
             end.

  (** [await w.drain()] *)
Definition drain (w : StreamWriter) : M (O * io) unit :=
    fun s => match drain_error (snd s) w with
             | Some e => (Raise e, s)
             | None => (Return tt, s)
             end.

  (** [w.close()] *)
Definition close_writer (w : StreamWriter) : M (O * io) unit :=
    fun s => match close_error (snd s) w with
             | Some e => (Raise e, s)
             | None => emit (Closed w) s
             end.
End Transport.

Arguments self {O}.
Arguments set_self {O} f.
Arguments emit {O} e.
Arguments write {O} w data.
Arguments drain {O} w.
Arguments close_writer {O} w.

(** The bytes that went out on [w], oldest first. *)
Fixpoint received (w : StreamWriter) (t : list event) : list bytes :=
  match t with
  | [] => []
  | Wrote w' data :: t' =>
      if Nat.eqb w w' then data :: received w t' else received w t'
  | _ :: t' => received w t'
  end.

(** The entries [on_add] was called with, oldest first. *)
Fixpoint added (t : list event) : list value :=
  match t with
  | [] => []
  | OnAdd entry :: t' => entry :: added t'
  | _ :: t' => added t'
  end.

(** ** Server *)

Record JukeboxServer : Type := {
  _clients : list (Task * StreamWriter);   (* dict[Task, StreamWriter] *)
  on_add : bool                            (* is a callback installed? *)
}.

Definition server : Type := (JukeboxServer * io)%type.

Definition set_clients (f : list (Task * StreamWriter) ->
                            list (Task * StreamWriter))
  : M server unit :=
  set_self (fun o => {| _clients := f (_clients o); on_add := on_add o |}).

(** [msg[key]] *)
Definition py_getitem (v : value) (key : str) : outcome value :=
  match v with
  | VDict d => match dict_get str_eqb key d with
               | Some x => Return x
               | None => Raise KeyError
               end
  | _ => Raise TypeError
  end.

Definition ack (title : value) : value :=
  VDict [(u "type", VStr (u "ack")); (u "title", title)].

(** [JukeboxServer._process] *)
Definition _process (msg : value) (writer : StreamWriter) : M server unit :=
  (mtype <- lift (py_get msg (u "type")) ;;
   is_add <- (if is_str (u "add") mtype
              then e <- lift (py_get msg (u "entry")) ;; ret (is_dict e)
              else ret false) ;;
   if is_add : bool then
     entry <- lift (py_getitem msg (u "entry")) ;;
     (* Validate required keys *)
     has_id <- lift (py_in (u "id") entry) ;;
     has_both <- (if has_id : bool then lift (py_in (u "title") entry)
                  else ret false) ;;
     if has_both : bool then
       cb <- self ;;
       when (on_add cb) (emit (OnAdd entry)) ;;;
       try_except
         (title <- lift (py_get_default entry (u "title") (VStr (u "?"))) ;;
          data <- lift (encode_msg (ack title)) ;;
          write writer data)
         [ConnectionError; OSError]
         (ret tt)
     else ret tt
   else ret tt)%py.

(** The [for task, writer in self._clients.items()] of [broadcast]: the
    tasks whose write failed, in the order met. *)
Fixpoint broadcast_pass (data : bytes) (items : list (Task * StreamWriter))
    (dead : list Task) : M server (list Task) :=
  match items with
  | [] => ret dead
  | (task, writer) :: rest =>
      (dead' <- try_except (write writer data ;;; ret dead)
                           [ConnectionError; OSError]
                           (ret (dead ++ [task])) ;;
       broadcast_pass data rest dead')%py
  end.

(** The [for task in dead] of [broadcast]. *)
Fixpoint prune (dead : list Task) : M server unit :=
  match dead with
  | [] => ret tt
  | task :: rest =>
      (set_clients (dict_pop Nat.eqb task) ;;; prune rest)%py
  end.

(** [JukeboxServer.broadcast] *)
Definition broadcast (msg : value) : M server unit :=
  (o <- self ;;
   match _clients o with
   | [] => ret tt
   | _ :: _ =>
       data <- lift (encode_msg msg) ;;
       dead <- broadcast_pass data (_clients o) [] ;;
       prune dead
   end)%py.

(** [JukeboxServer.client_count] *)
Definition client_count (s : server) : nat := List.length (_clients (fst s)).

(** The [while True] of [_handle_client]. *)
Fixpoint handle_loop (reader : StreamReader) (writer : StreamWriter)
  : M server unit :=
  match reader with
  | [] =>
      (* end of file: [read_msg] gives [None] *)
      match fst (read_msg []) with
      | Raise e => raise e
      | Return _ => ret tt
      end
  | got :: rest =>
      match fst (read_msg (got :: rest)) with
      | Raise e => raise e
      | Return msg =>
          if is_none msg then ret tt
          else (_process msg writer ;;; handle_loop rest writer)%py
      end
  end.

(** [JukeboxServer._handle_client], run as task [task]. *)
Definition _handle_client (task : Task) (reader : StreamReader)
    (writer : StreamWriter) : M server unit :=
  (set_clients (dict_set Nat.eqb task writer) ;;;
   try_finally
     (try_except (handle_loop reader writer)
                 [ConnectionError; CancelledError]
                 (ret tt))
     (set_clients (dict_pop Nat.eqb task) ;;;
      try_except (close_writer writer) [OSError] (ret tt)))%py.

(** ** Client *)

Record JukeboxClient : Type := {
  _reader : option StreamReader;
  _writer : option StreamWriter;
  _connected : bool;
  on_sync : bool                           (* is a callback installed? *)
}.

Definition client : Type := (JukeboxClient * io)%type.

Definition set_connected (b : bool) : M client unit :=
  set_self (fun o => {| _reader := _reader o; _writer := _writer o;
                        _connected := b; on_sync := on_sync o |}).

Definition set_reader (r : StreamReader) : M client unit :=
  set_self (fun o => {| _reader := Some r; _writer := _writer o;
                        _connected := _connected o; on_sync := on_sync o |}).

Definition set_streams (r : StreamReader) (w : StreamWriter) : M client unit :=
  set_self (fun o => {| _reader := Some r; _writer := Some w;
                        _connected := _connected o; on_sync := on_sync o |}).

(** [JukeboxClient.connected] *)
Definition connected (s : client) : bool := _connected (fst s).

Definition hello : value := VDict [(u "type", VStr (u "hello"))].

(** [JukeboxClient.connect] *)
Definition connect : M client bool :=
  try_except
    (rw <- (fun s => (open_connection (snd s), s)) ;;
     set_streams (fst rw) (snd rw) ;;;
     set_connected true ;;;
     data <- lift (encode_msg hello) ;;
     write (snd rw) data ;;;
     drain (snd rw) ;;;
     ret true)%py
    [OSError; AsyncTimeoutError]
    (ret false).

(** The [while self._reader and self._connected] of [listen], with
    [self._reader] holding [reader]. *)
Fixpoint listen_loop (reader : StreamReader) : M client unit :=
  (o <- self ;;
   if _connected o then
     match reader with
     | [] =>
         match fst (read_msg []) with
         | Raise e => raise e
         | Return _ => set_connected false
         end
     | got :: rest =>
         set_reader rest ;;;
         match fst (read_msg (got :: rest)) with
         | Raise e => raise e
         | Return msg =>
             if is_none msg then set_connected false
             else
               mtype <- lift (py_get msg (u "type")) ;;
               when (is_str (u "sync") mtype && on_sync o)
                    (emit (OnSync msg)) ;;;
               listen_loop rest
         end
     end
   else ret tt)%py.

(** [JukeboxClient.listen] *)
Definition listen : M client unit :=
  (o <- self ;;
   match _reader o with
   | Some reader => listen_loop reader
   | None => ret tt
   end)%py.

Definition add (entry : value) : value :=
  VDict [(u "type", VStr (u "add")); (u "entry", entry)].

(** [JukeboxClient.send_add] *)
Definition send_add (entry : value) : M client unit :=
  (o <- self ;;
   match _writer o with
   | Some w =>
       if _connected o then
         try_except
           (data <- lift (encode_msg (add entry)) ;;
            write w data ;;;
            drain w)
           [ConnectionError; OSError]
           (set_connected false)
       else ret tt
   | None => ret tt
   end)%py.

(** [JukeboxClient.close] *)
Definition close : M client unit :=
  (set_connected false ;;;
   o <- self ;;
   match _writer o with
   | Some w => try_except (close_writer w) [OSError] (ret tt)
   | None => ret tt
   end)%py.

(** The snapshot [YtmApp._tick] hands to [broadcast]. *)
Definition sync (queue track position duration paused : value) : value :=
  VDict [(u "type", VStr (u "sync")); (u "queue", queue); (u "track", track);
         (u "position", position); (u "duration", duration);
         (u "paused", paused)].


(** ** Notions used in the statements about [net.py] *)

(** The frame of a message: its compact JSON text and a newline, one
    byte per character ([encode_msg_frame]: what [encode_msg] returns). *)
Definition frame (msg : value) : bytes :=
  map Utf8.byte_of (dumps [44%N] [58%N] msg ++ [10%N]).

(** Encoding [m] and reading the bytes back gives [m] and uses up the
    line. *)
Definition round_trip (m : value) : Prop :=
  exists data,
    encode_msg m = Return data /\
    read_msg [Return data] = (Return m, []).

(** The bytes of an ASCII line, newline included. *)
Definition line (x : string) : bytes := list_byte_of_string x ++ [x0a].

(** A line of [n] opening brackets. *)
Definition nested (n : nat) : bytes := repeat x5b n ++ [x0a].

(** A line that opens a list and goes on with a number of [n] digits. *)
Definition number_in_a_list (n : nat) : bytes :=
  x5b :: repeat x31 n ++ [x0a].

(** An event loop where nothing has happened yet, every transport works
    and the host refuses connections. *)
Definition quiet : io :=
  {| trace := [];
     write_error := fun _ => None;
     drain_error := fun _ => None;
     close_error := fun _ => None;
     open_connection := Raise ConnectionRefusedError |}.

(** The test [_process] applies to the entry of an [add]:
    [isinstance(entry, dict) and "id" in entry and "title" in entry]. *)
Definition has_required_keys (entry : value) : bool :=
  match entry with
  | VDict d =>
      dict_contains str_eqb (u "id") d && dict_contains str_eqb (u "title") d
  | _ => false
  end.

(** Does a write on the connection go through? *)
Definition alive (env : io) (c : Task * StreamWriter) : bool :=
  match write_error env (snd c) with
  | None => true
  | Some _ => false
  end.

(** [env] after the events [es], in order. *)
Definition logs (es : list event) (env : io) : io :=
  fold_left (fun e ev => log ev e) es env.

Definition with_clients (cl : list (Task * StreamWriter)) (o : JukeboxServer)
  : JukeboxServer :=
  {| _clients := cl; on_add := on_add o |}.

(** [JukeboxClient(host, port)] *)
Definition fresh_client : JukeboxClient :=
  {| _reader := None; _writer := None; _connected := false; on_sync := false |}.

(** A host that accepts the connection and resets it before the [hello]
    frame is flushed. *)
Definition resets_on_drain : io :=
  {| trace := [];
     write_error := fun _ => None;
     drain_error := fun _ => Some ConnectionResetError;
     close_error := fun _ => None;
     open_connection := Return ([], 5) |}.

(** Three peers; the transport of the second one is broken. *)
Definition three_peers : server :=
  ({| _clients := [(1, 10); (2, 20); (3, 30)]; on_add := true |},
   {| trace := [];
      write_error := fun w => if Nat.eqb w 20 then Some ConnectionResetError
                              else None;
      drain_error := fun _ => None;
      close_error := fun _ => None;
      open_connection := Raise ConnectionRefusedError |}).

(** ** Notions used in the further statements about [net.py] *)

(** A computation that leaves the server object alone and acts on the
    event loop only by adding events. *)
Definition steady {A} (c : M server A) : Prop :=
  forall s, exists es, snd (c s) = (fst s, logs es (snd s)).

(** [entry.get("title", "?")] for a dict [entry]. *)
Definition title_of (entry : value) : value :=
  match entry with
  | VDict d => match dict_get str_eqb (u "title") d with
               | Some t => t
               | None => VStr (u "?")
               end
  | _ => VNone
  end.

(** What the host does for an accepted [add] on writer [w]. *)
Definition accepted (w : StreamWriter) (entry : value) : list event :=
  [OnAdd entry; Wrote w (frame (ack (title_of entry)))].

(** [send_add] for each entry in turn. *)
Fixpoint send_adds (entries : list value) : M client unit :=
  match entries with
  | [] => ret tt
  | e :: rest => (send_add e ;;; send_adds rest)%py
  end.

(** [msg.get("type") == "sync"] *)
Definition is_sync (msg : value) : bool :=
  match py_get msg (u "type") with
  | Return t => is_str (u "sync") t
  | Raise _ => false
  end.

Definition disconnected (o : JukeboxClient) : JukeboxClient :=
  {| _reader := _reader o; _writer := _writer o; _connected := false;
     on_sync := on_sync o |}.

Definition listening (reader : StreamReader) (o : JukeboxClient) : JukeboxClient :=
  {| _reader := Some reader; _writer := _writer o; _connected := _connected o;
     on_sync := on_sync o |}.

(** A song, as a search result describes it. *)
Definition song : value :=
  VDict [(u "id", VStr (u "abc")); (u "title", VStr (u "Song"));
         (u "duration", VFloat (FDec false 2125 (-1)))].

(** An event loop on which writes to transport [9] fail. *)
Definition broken_pipe : io :=
  {| trace := [];
     write_error := fun w => if Nat.eqb w 9 then Some BrokenPipeError else None;
     drain_error := fun _ => None;
     close_error := fun _ => None;
     open_connection := Return ([], 5) |}.

(** A client connected through transport [w]. *)
Definition joined (w : StreamWriter) (reader : StreamReader) : JukeboxClient :=
  {| _reader := Some reader; _writer := Some w; _connected := true;
     on_sync := true |}.

Definition host : JukeboxServer := {| _clients := [(1, 7)]; on_add := true |}.

Definition snapshot : value :=
  sync (VList [song]) song (VFloat (FDec false 125 (-1)))
       (VFloat (FDec false 2125 (-1))) (VBool false).

End Net.

(* ================================================================== *)
(** * [ytm_cli/player.py]                                               *)
(* ================================================================== *)

Module Player.
Import Json.

Definition bytes : Type := list byte.

(** A [subprocess.Popen] handle and what the process behind it does. *)
Record Popen : Type := {
  pid : nat;
  running : bool;          (* [poll() is None] *)
  heeds_sigterm : bool     (* does it exit within 3 s of [terminate()]? *)
}.

(** A connected [socket.socket]: what each successive [recv(4096)]
    produces (once the list is used up nothing more arrives and [recv]
    raises [socket.timeout]), and what [sendall] and [close] raise. *)
Record socket : Type := {
  incoming : list (outcome bytes);
  send_error : option exn;
  sock_close_error : option exn
}.

Record MpvPlayer : Type := {
  _proc : option Popen;
  _sock : option socket
}.

Inductive event : Type :=
| Spawned (p : nat)        (* [subprocess.Popen([...])] started process [p] *)
| Terminate (p : nat)      (* [terminate()] *)
| Kill (p : nat)           (* [kill()] *)
| Slept                    (* [time.sleep(0.1)] *)
| Sent (data : bytes)      (* [sendall(data)] went through *)
| SockClosed               (* [close()] on the control socket *)
| Unlinked.                (* [os.unlink(self._socket_path)] went through *)

(** The operating system's side. *)
Record os : Type := {
  trace : list event;
  sock_file : bool;               (* does [self._socket_path] exist now? *)
  pending : option nat;           (* [Some k]: the running engine creates
                                     its socket after [k] more sleeps *)
  boot_time : option nat;         (* sleeps a new engine needs before its
                                     socket exists; [None]: never *)
  spawn : outcome Popen;          (* what [subprocess.Popen] does *)
  unlink_error : option exn;      (* raised by [os.unlink] *)
  connect_result : outcome socket (* [socket()], [connect()], [settimeout()] *)
}.

Definition player : Type := (MpvPlayer * os)%type.

Definition self : M player MpvPlayer := gets fst.
Definition set_proc (p : option Popen) : M player unit :=
  modify (fun s => ({| _proc := p; _sock := _sock (fst s) |}, snd s)).
Definition set_sock (k : option socket) : M player unit :=
  modify (fun s => ({| _proc := _proc (fst s); _sock := k |}, snd s)).

Definition with_os (f : os -> os) : M player unit :=
  modify (fun s => (fst s, f (snd s))).

Definition log (e : event) (w : os) : os :=
  {| trace := trace w ++ [e]; sock_file := sock_file w; pending := pending w;
     boot_time := boot_time w; spawn := spawn w;
     unlink_error := unlink_error w; connect_result := connect_result w |}.

(** The engine creates its socket once its countdown reaches zero. *)
Definition settle (w : os) : os :=
  match pending w with
  | Some O =>
      {| trace := trace w; sock_file := true; pending := None;
         boot_time := boot_time w; spawn := spawn w;
         unlink_error := unlink_error w; connect_result := connect_result w |}
  | _ => w
  end.

Definition set_pending (k : option nat) (w : os) : os :=
  {| trace := trace w; sock_file := sock_file w; pending := k;
     boot_time := boot_time w; spawn := spawn w;
     unlink_error := unlink_error w; connect_result := connect_result w |}.

Definition set_sock_file (b : bool) (w : os) : os :=
  {| trace := trace w; sock_file := b; pending := pending w;
     boot_time := boot_time w; spawn := spawn w;
     unlink_error := unlink_error w; connect_result := connect_result w |}.

(** [time.sleep(0.1)] *)
Definition sleep : M player unit :=
  with_os (fun w => settle (set_pending (option_map Nat.pred (pending w))
                                        (log Slept w))).

(** [os.path.exists(self._socket_path)] *)
Definition path_exists : M player bool := gets (fun s => sock_file (snd s)).

(** [os.unlink(self._socket_path)] *)
Definition unlink : M player unit :=
  fun s => match unlink_error (snd s) with
           | Some e => (Raise e, s)
           | None => with_os (fun w => log Unlinked (set_sock_file false w)) s
           end.

(** [subprocess.Popen(["mpv", ...])] *)
Definition popen : M player Popen :=
  fun s => match spawn (snd s) with
           | Raise e => (Raise e, s)
           | Return p =>
               (Return p,
                (fst s, settle (set_pending (boot_time (snd s))
                                            (log (Spawned (pid p)) (snd s)))))
           end.

(** [self._proc.terminate()] and [self._proc.kill()]: an engine that was
    told to go creates no socket any more. *)
Definition terminate (p : Popen) : M player unit :=
  with_os (fun w => set_pending None (log (Terminate (pid p)) w)).
Definition kill (p : Popen) : M player unit :=
  with_os (fun w => set_pending None (log (Kill (pid p)) w)).

(** [self._proc.wait(timeout=3)] after [terminate()] *)
Definition wait (p : Popen) : M player unit :=
  if heeds_sigterm p then ret tt else raise TimeoutExpired.

(** [self._sock.close()] *)
Definition sock_close (k : socket) : M player unit :=
  match sock_close_error k with
  | Some e => raise e
  | None => with_os (log SockClosed)
  end.


(** [MpvPlayer.stop] *)
Definition stop : M player unit :=
  (o <- self ;;
   match _proc o with
   | Some p =>
       when (running p)
         (terminate p ;;;
          try_except (wait p) [TimeoutExpired] (kill p))
   | None => ret tt
   end ;;;
   set_proc None ;;;
   match _sock o with
   | Some k =>
       try_except (sock_close k) [OSError] (ret tt) ;;;
       set_sock None
   | None => ret tt
   end ;;;
   try_except
     (present <- path_exists ;;
      when present unlink)
     [OSError]
     (ret tt))%py.

(** [MpvPlayer._connect] *)
Definition _connect : M player bool :=
  try_except
    (k <- (fun s => (connect_result (snd s), s)) ;;
     set_sock (Some k) ;;;
     ret true)%py
    [ConnectionRefusedError; FileNotFoundError; OSError]
    (set_sock None ;;; ret false)%py.

(** The [for _ in range(30)] of [play] with [attempts] rounds to go:
    [true] when the loop left through [break], [false] when it ran out
    (the [else] branch). *)
Fixpoint poll_socket (attempts : nat) : M player bool :=
  match attempts with
  | O => ret false
  | S n =>
      (present <- path_exists ;;
       if present : bool then ret true
       else sleep ;;; poll_socket n)%py
  end.

(** [MpvPlayer.play]; the stream URL and the title only reach the
    engine's command line. *)
Definition play : M player bool :=
  (stop ;;;
   spawned <- try_except (p <- popen ;; set_proc (Some p) ;;; ret true)
                         [FileNotFoundError]
                         (ret false) ;;
   if spawned : bool then
     found <- poll_socket 30 ;;
     if found : bool then _connect else ret false
   else ret false)%py.

Definition is_newline (b : byte) : bool := Byte.eqb b x0a.

(** The [while b"\n" in buf] of [_command]: [line] holds, last byte
    first, the bytes of [buf] read since the last newline.  The result is
    the first response without an ["event"] key, if a whole line holds
    one, and the bytes that stay in [buf]. *)
Fixpoint scan_lines (line : bytes) (buf : bytes)
  : outcome (option value * bytes) :=
  match buf with
  | [] => Return (None, List.rev line)
  | b :: rest =>
      if is_newline b then
        obind (obind (Net.bytes_decode (List.rev line)) Net.json_loads) (fun data =>
        obind (py_in (u "event") data) (fun is_event =>
        if is_event : bool then scan_lines [] rest
        else Return (Some data, rest)))
      else scan_lines (b :: line) rest
  end.

(** The [while True] of [_command]: [chunks] is what the socket still
    delivers, [buf] the bytes received and not yet split into lines.  The
    result comes with what the socket delivers afterwards. *)
Fixpoint recv_loop (chunks : list (outcome bytes)) (buf : bytes)
  : outcome value * list (outcome bytes) :=
  match chunks with
  | [] => (Return VNone, [])                 (* [socket.timeout] *)
  | Raise e :: rest =>
      if caught e [TimeoutError] then (Return VNone, rest)
      else (Raise e, rest)
  | Return [] :: rest => (Return VNone, rest)  (* [if not chunk] *)
  | Return chunk :: rest =>
      match scan_lines [] (buf ++ chunk) with
      | Raise e =>
          if caught e [TimeoutError] then (Return VNone, rest)
          else (Raise e, rest)
      | Return (Some data, _) => (Return data, rest)
      | Return (None, buf') => recv_loop rest buf'
      end
  end.

Definition set_incoming (chunks : list (outcome bytes)) (k : socket) : socket :=
  {| incoming := chunks; send_error := send_error k;
     sock_close_error := sock_close_error k |}.

(** [self._sock.sendall(data)] *)
Definition sendall (k : socket) (data : bytes) : M player unit :=
  match send_error k with
  | Some e => raise e
  | None => with_os (log (Sent data))
  end.

(** [MpvPlayer._command]; the lock is held from the first line to the
    return. *)
Definition _command (args : list value) : M player value :=
  (o <- self ;;
   match _sock o with
   | None => ret VNone
   | Some k =>
       try_except
         (data <- lift (Net.str_encode
                    (dumps (u ", ") (u ": ")
                           (VDict [(u "command", VList args)])
                     ++ u (String "010" EmptyString))) ;;
          sendall k data ;;;
          let (result, rest) := recv_loop (incoming k) [] in
          set_sock (Some (set_incoming rest k)) ;;;
          lift result)
         [BrokenPipeError; ConnectionResetError; OSError]
         (set_sock None ;;; ret VNone)
   end)%py.

(** [MpvPlayer.get_property] *)
Definition get_property (name : str) : M player value :=
  (result <- _command [VStr (u "get_property"); VStr name] ;;
   if truthy result then
     err <- lift (py_get result (u "error")) ;;
     if is_str (u "success") err
     then lift (py_get result (u "data"))
     else ret VNone
   else ret VNone)%py.

(** [x or default] *)
Definition py_or (x default : value) : value :=
  if truthy x then x else default.

Definition zero : value := VFloat (FDec false 0 0).        (* [0.0] *)
Definition hundred : value := VFloat (FDec false 1 2).     (* [100.0] *)

(** [MpvPlayer.position] *)
Definition position : M player value :=
  (x <- get_property (u "playback-time") ;; ret (py_or x zero))%py.

(** [MpvPlayer.duration] *)
Definition duration : M player value :=
  (x <- get_property (u "duration") ;; ret (py_or x zero))%py.

(** [MpvPlayer.paused] *)
Definition paused : M player value :=
  (x <- get_property (u "pause") ;; ret (py_or x (VBool false)))%py.

(** [MpvPlayer.volume] *)
Definition volume : M player value :=
  (x <- get_property (u "volume") ;; ret (py_or x hundred))%py.

(** The value of a finite float, as a multiple of [10^base]. *)
Definition scaled (neg : bool) (mant : N) (exp base : Z) : Z :=
  ((if neg then - Z.of_N mant else Z.of_N mant) * 10 ^ (exp - base))%Z.

(** [a < b] on floats; [nan] is not below anything, and nothing is below
    it. *)
Definition float_ltb (a b : float) : bool :=
  match a, b with
  | FNaN, _ | _, FNaN => false
  | FInf na, FInf nb => na && negb nb
  | FInf na, FDec _ _ _ => na
  | FDec _ _ _, FInf nb => negb nb
  | FDec na ma ea, FDec nb mb eb =>
      (scaled na ma ea (Z.min ea eb) <? scaled nb mb eb (Z.min ea eb))%Z
  end.

(** [min(a, b)] and [max(a, b)]: the first argument, unless the second
    is smaller (larger). *)
Definition float_min (a b : float) : float := if float_ltb b a then b else a.
Definition float_max (a b : float) : float := if float_ltb a b then b else a.

(** [MpvPlayer.toggle_pause] *)
Definition toggle_pause : M player unit :=
  (_command [VStr (u "cycle"); VStr (u "pause")] ;;; ret tt)%py.

(** [MpvPlayer.seek] *)
Definition seek (seconds : value) : M player unit :=
  (_command [VStr (u "seek"); seconds; VStr (u "relative")] ;;; ret tt)%py.

(** [MpvPlayer.set_volume] *)
Definition set_volume (vol : float) : M player unit :=
  (_command [VStr (u "set_property"); VStr (u "volume");
             VFloat (float_max (FDec false 0 0)
                               (float_min (FDec false 15 1) vol))] ;;;
   ret tt)%py.


(** ** Notions used in the statements about [player.py] *)

(** [os.unlink] and [socket.close] fail with [OSError] or a subclass of
    it, if they fail. *)
Definition os_faults_are_OSError (s : player) : Prop :=
  (forall e, unlink_error (snd s) = Some e -> caught e [OSError] = true) /\
  (forall k e, _sock (fst s) = Some k -> sock_close_error k = Some e ->
               caught e [OSError] = true).

(** What [stop] does to the outside world. *)
Definition stop_events (s : player) : list event :=
  match _proc (fst s) with
  | Some p =>
      if running p
      then Terminate (pid p) :: (if heeds_sigterm p then [] else [Kill (pid p)])
      else []
  | None => []
  end ++
  match _sock (fst s) with
  | Some k => match sock_close_error k with
              | None => [SockClosed]
              | Some _ => []
              end
  | None => []
  end ++
  (if sock_file (snd s)
   then match unlink_error (snd s) with
        | None => [Unlinked]
        | Some _ => []
        end
   else []).

(** The state [stop] leaves behind ([stop_spec]). *)
Definition stopped (s : player) : player :=
  ({| _proc := None; _sock := None |},
   {| trace := trace (snd s) ++ stop_events s;
      sock_file := match unlink_error (snd s) with
                   | None => false
                   | Some _ => sock_file (snd s)
                   end;
      pending := match _proc (fst s) with
                 | Some p => if running p then None else pending (snd s)
                 | None => pending (snd s)
                 end;
      boot_time := boot_time (snd s);
      spawn := spawn (snd s);
      unlink_error := unlink_error (snd s);
      connect_result := connect_result (snd s) |}).

(** One [time.sleep(0.1)], seen from the operating system. *)
Definition tick (w : os) : os :=
  settle (set_pending (option_map Nat.pred (pending w)) (log Slept w)).

(** A control socket on which the engine sends [chunks] and nothing
    else. *)
Definition answers (chunks : list bytes) : socket :=
  {| incoming := map Return chunks; send_error := None;
     sock_close_error := None |}.

(** A machine where mpv starts, creates its socket after two sleeps and
    accepts the connection; a socket file of an earlier run is around. *)
Definition calm : os :=
  {| trace := []; sock_file := true; pending := None; boot_time := Some 2;
     spawn := Return {| pid := 1; running := true; heeds_sigterm := true |};
     unlink_error := None;
     connect_result := Return (answers []) |}.




(** [MpvPlayer()] *)
Definition idle : MpvPlayer := {| _proc := None; _sock := None |}.


(** A connected session whose engine reports a volume of zero. *)
Definition muted : player :=
  ({| _proc := Some {| pid := 1; running := true; heeds_sigterm := true |};
      _sock := Some (answers [Net.frame (VDict [(u "data", zero);
                                                (u "error", VStr (u "success"))])]) |},
   calm).

(** ** Notions used in the further statements about [player.py] *)

(** [json.loads(line.decode())] *)
Definition parse_line (l : bytes) : outcome value :=
  obind (Net.bytes_decode l) Net.json_loads.

(** Bytes without a newline among them. *)
Definition one_line (l : bytes) : Prop := Forall (fun b => is_newline b = false) l.

(** A line the engine sends on its own: it parses to something that
    holds ["event"]. *)
Definition event_line (l : bytes) : Prop :=
  one_line l /\
  exists data, parse_line l = Return data /\ py_in (u "event") data = Return true.

(** The bytes of [lines], each closed by a newline. *)
Definition stream_of (lines : list bytes) : bytes :=
  flat_map (fun l => l ++ [x0a]) lines.

(** The bytes [_command] sends for [args]: the JSON text of
    [{"command": args}] with the default separators, and a newline. *)
Definition command_line (args : list value) : bytes :=
  map Utf8.byte_of
      (dumps [44; 32]%N [58; 32]%N (VDict [(u "command", VList args)]) ++ [10%N]).

(** The state in which [play] starts to poll: the old session stopped,
    the new engine spawned. *)
Definition spawned (s : player) (p : Popen) : player :=
  ({| _proc := Some p; _sock := None |},
   settle (set_pending (boot_time (snd s))
                       (log (Spawned (pid p)) (snd (stopped s))))).

(** [max(0.0, min(150.0, vol))] *)
Definition clamp (vol : float) : float :=
  float_max (FDec false 0 0) (float_min (FDec false 15 1) vol).

(** The first line the engine sends is the object [d], which is not an
    event. *)
Definition replies (k : socket) (d : list (str * value)) : Prop :=
  exists reply tail more,
    incoming k = Return (reply ++ x0a :: tail) :: more /\
    one_line reply /\
    parse_line reply = Return (VDict d) /\
    dict_get str_eqb (u "event") d = None.

(** The engine gives no usable answer: nothing arrives before the
    timeout, or the reply does not say ["success"]. *)
Definition unanswered (k : socket) : Prop :=
  incoming k = [] \/
  exists d, replies k d /\
            forall e, dict_get str_eqb (u "error") d = Some e ->
                      is_str (u "success") e = false.

(** What the engine answers to [get_property] when playback stands at
    12.5 seconds. *)
Definition at_12_5 : value :=
  VDict [(u "data", VFloat (FDec false 125 (-1))); (u "error", VStr (u "success"))].

(** An event the engine reports on its own. *)
Definition pause_event : value := VDict [(u "event", VStr (u "pause"))].

(** A player connected through socket [k]. *)
Definition connected_by (k : socket) : MpvPlayer :=
  {| _proc := Some {| pid := 1; running := true; heeds_sigterm := true |};
     _sock := Some k |}.

(** A control socket whose peer has gone away. *)
Definition hung_up : socket :=
  {| incoming := []; send_error := Some BrokenPipeError; sock_close_error := None |}.

(** The engine reports an event and then answers; the bytes arrive in
    two pieces, cut in the middle of the first line. *)
Definition chatty : socket :=
  answers [firstn 20 (Net.frame pause_event ++ Net.frame at_12_5);
           skipn 20 (Net.frame pause_event ++ Net.frame at_12_5)].

(** The engine answers and, in the same piece, starts to report an
    event; the rest of the event comes in the next piece. *)
Definition cut_event : socket :=
  answers [Net.frame at_12_5 ++ firstn 9 (Net.frame pause_event);
           skipn 9 (Net.frame pause_event) ++ Net.frame at_12_5].

(** A machine on which the socket file of an earlier run cannot be
    removed. *)
Definition sticky : os :=
  {| trace := []; sock_file := true; pending := None; boot_time := Some 2;
     spawn := Return {| pid := 1; running := true; heeds_sigterm := true |};
     unlink_error := Some PermissionError;
     connect_result := Return (answers []) |}.

(** A session in full swing on a machine where mpv starts again. *)
Definition playing : player :=
  ({| _proc := Some {| pid := 7; running := true; heeds_sigterm := true |};
      _sock := Some (answers []) |},
   calm).

End Player.

(* ================================================================== *)
(** * Proof tools                                                      *)
(* ================================================================== *)

(** Case analysis on every comparison of two [N] in the goal. *)
Ltac ntest :=
  repeat match goal with
  | |- context [N.eqb ?a ?b] => destruct (N.eqb_spec a b)
  | |- context [N.ltb ?a ?b] => destruct (N.ltb_spec a b)
  | |- context [N.leb ?a ?b] => destruct (N.leb_spec a b)
  end.

(** A literal text is ASCII. *)
Ltac ascii_lit :=
  repeat first [ apply Forall_nil | apply Forall_cons; [reflexivity|] ].

(** A literal text is printable. *)
Ltac printable_lit :=
  repeat first [ apply Forall_nil | apply Forall_cons; [lia|] ].

(* ================================================================== *)
(** * [json]: what is written can be read back                         *)
(* ================================================================== *)

Import Json.
Unset Implicit Arguments.

(** ** Strings *)

Lemma hexval_hex_digit n : (n < 16)%N -> hexval (hex_digit n) = Some n.
Proof.
  intros H. unfold hexval, hex_digit.
  destruct (N.ltb_spec n 10); ntest; cbn [andb]; try lia; f_equal; lia.
Qed.

Lemma hex4_u_escape c r :
  (c < 65536)%N ->
  exists h1 h2 h3 h4,
    u_escape c ++ r = 92%N :: 117%N :: h1 :: h2 :: h3 :: h4 :: r /\
    hex4 h1 h2 h3 h4 = Some c.
Proof.
  intros H. unfold u_escape. do 4 eexists. split; [reflexivity|].
  unfold hex4.
  rewrite !hexval_hex_digit.
  - f_equal. zify. Z.to_euclidean_division_equations. lia.
  - apply N.mod_lt. lia.
  - apply N.mod_lt. lia.
  - apply N.mod_lt. lia.
  - apply N.Div0.div_lt_upper_bound. lia.
Qed.

Lemma scanstring_u h1 h2 h3 h4 r uni :
  hex4 h1 h2 h3 h4 = Some uni ->
  is_high_surrogate uni = false ->
  scanstring (92 :: 117 :: h1 :: h2 :: h3 :: h4 :: r)%N = push uni (scanstring r).
Proof.
  intros Hx Hs. cbn [scanstring N.eqb Pos.eqb]. rewrite Hx.
  destruct r as [|x [|y r3]]; try reflexivity.
  rewrite Hs. reflexivity.
Qed.

Lemma scanstring_pair h1 h2 h3 h4 l1 l2 l3 l4 r hi lo :
  hex4 h1 h2 h3 h4 = Some hi ->
  hex4 l1 l2 l3 l4 = Some lo ->
  is_high_surrogate hi = true ->
  is_low_surrogate lo = true ->
  scanstring (92 :: 117 :: h1 :: h2 :: h3 :: h4 ::
              92 :: 117 :: l1 :: l2 :: l3 :: l4 :: r)%N
  = push (65536 + (hi - 55296) * 1024 + (lo - 56320))%N (scanstring r).
Proof.
  intros Hh Hl Hhi Hlo. cbn [scanstring N.eqb Pos.eqb]. rewrite Hh, Hhi.
  cbn [andb]. rewrite Hl, Hlo. reflexivity.
Qed.

Lemma scanstring_plain c r :
  (32 <= c)%N -> c <> 34%N -> c <> 92%N ->
  scanstring (c :: r) = push c (scanstring r).
Proof.
  intros H1 H2 H3. cbn [scanstring].
  destruct (N.eqb_spec c 34); [contradiction|].
  destruct (N.eqb_spec c 92); [contradiction|].
  destruct (N.ltb_spec c 32); [lia|]. reflexivity.
Qed.

Lemma scalar_value_spec c :
  scalar_value c = true ->
  (c < 1114112)%N /\ ((c < 55296)%N \/ (57343 < c)%N).
Proof.
  unfold scalar_value, Utf8.is_surrogate. intros H.
  apply andb_true_iff in H as [H1 H2]. apply N.ltb_lt in H1.
  apply negb_true_iff, andb_false_iff in H2.
  split; [assumption|].
  destruct H2 as [H2|H2]; apply N.leb_gt in H2; lia.
Qed.

Lemma scanstring_escape c r :
  scalar_value c = true ->
  scanstring (escape_char c ++ r) = push c (scanstring r).
Proof.
  intros Hc. apply scalar_value_spec in Hc as [Hmax Hsur].
  unfold escape_char.
  destruct (N.eqb_spec c 34) as [->|N1]; [reflexivity|].
  destruct (N.eqb_spec c 92) as [->|N2]; [reflexivity|].
  destruct (N.eqb_spec c 10) as [->|N3]; [reflexivity|].
  destruct (N.eqb_spec c 13) as [->|N4]; [reflexivity|].
  destruct (N.eqb_spec c 9) as [->|N5]; [reflexivity|].
  destruct (N.eqb_spec c 12) as [->|N6]; [reflexivity|].
  destruct (N.eqb_spec c 8) as [->|N7]; [reflexivity|].
  destruct (N.leb_spec 32 c) as [H|H]; cbn [andb].
  - destruct (N.leb_spec c 126) as [H0|H0].
    + apply scanstring_plain; assumption.
    + destruct (N.ltb_spec c 65536) as [H1|H1].
      * destruct (hex4_u_escape c r H1) as (h1 & h2 & h3 & h4 & E & Hx).
        rewrite E. apply scanstring_u; [assumption|].
        unfold is_high_surrogate. ntest; cbn [andb]; try reflexivity; exfalso; lia.
      * cbv zeta. rewrite <- app_assoc.
        set (n := (c - 65536)%N).
        assert (Hn : (n < 1048576)%N) by (unfold n; lia).
        assert (Hcn : c = (n + 65536)%N) by (unfold n; lia).
        clearbody n.
        assert (Hq : ((n / 1024) mod 1024 = n / 1024)%N).
        { apply N.mod_small. apply N.Div0.div_lt_upper_bound. lia. }
        destruct (hex4_u_escape (55296 + (n / 1024) mod 1024)%N
                    (u_escape (56320 + n mod 1024) ++ r)) as (h1 & h2 & h3 & h4 & E & Hx).
        { rewrite Hq. assert (n / 1024 < 1024)%N by (apply N.Div0.div_lt_upper_bound; lia). lia. }
        destruct (hex4_u_escape (56320 + n mod 1024)%N r) as (l1 & l2 & l3 & l4 & E' & Hx').
        { assert (n mod 1024 < 1024)%N by (apply N.mod_lt; lia). lia. }
        rewrite E, E'.
        assert (Hlt : (n / 1024 < 1024)%N) by (apply N.Div0.div_lt_upper_bound; lia).
        assert (Hm : (n mod 1024 < 1024)%N) by (apply N.mod_lt; lia).
        rewrite (scanstring_pair h1 h2 h3 h4 l1 l2 l3 l4 r _ _ Hx Hx').
        -- f_equal. rewrite Hq. pose proof (N.Div0.div_mod n 1024) as Hd.
           clear E E' Hx Hx' Hq.
           set (q := (n / 1024)%N) in *. set (m := (n mod 1024)%N) in *.
           clearbody q m. lia.
        -- unfold is_high_surrogate. rewrite Hq.
           clear E E' Hx Hx' Hq. set (q := (n / 1024)%N) in *. clearbody q.
           ntest; cbn [andb]; try reflexivity; exfalso; lia.
        -- unfold is_low_surrogate.
           clear E E' Hx Hx' Hq. set (m := (n mod 1024)%N) in *. clearbody m.
           ntest; cbn [andb]; try reflexivity; exfalso; lia.
  - destruct (N.ltb_spec c 65536) as [H0|H0]; [|lia].
    destruct (hex4_u_escape c r H0) as (h1 & h2 & h3 & h4 & E & Hx).
    rewrite E. apply scanstring_u; [assumption|].
    unfold is_high_surrogate. ntest; cbn [andb]; try reflexivity; exfalso; lia.
Qed.

Lemma scanstring_encode s rest :
  text s = true ->
  scanstring (flat_map escape_char s ++ 34%N :: rest) = Some (s, rest).
Proof.
  induction s as [|c s IH]; intros H.
  - reflexivity.
  - cbn [text forallb] in H. apply andb_true_iff in H as [Hc Hs].
    cbn [flat_map]. rewrite <- app_assoc, scanstring_escape by assumption.
    fold (text s) in Hs. rewrite (IH Hs). reflexivity.
Qed.

(** *** Integers *)

Lemma closes_cases rest :
  closes rest = true ->
  rest = [] \/ exists c r, rest = c :: r /\ (c = 44 \/ c = 93 \/ c = 125 \/ c = 10)%N.
Proof.
  destruct rest as [|c r]; [now left|]. cbn [closes]. intros H. right.
  exists c, r. split; [reflexivity|].
  repeat (apply orb_true_iff in H as [H|H]); apply N.eqb_eq in H; auto.
Qed.

Lemma closes_no_digit rest : closes rest = true -> no_digit_ahead rest = true.
Proof.
  intros H. destruct (closes_cases rest H) as [->|(c & r & -> & Hc)]; [reflexivity|].
  destruct Hc as [->|[->|[->| ->]]]; reflexivity.
Qed.

Lemma scan_digits_run s rest :
  digits_only s -> no_digit_ahead rest = true ->
  scan_digits (s ++ rest) = (s, rest).
Proof.
  intros Hs Hr. induction Hs as [|c s Hc _ IH]; cbn [List.app scan_digits].
  - destruct rest as [|c r]; [reflexivity|]. cbn [no_digit_ahead] in Hr.
    apply negb_true_iff in Hr. cbn [scan_digits]. rewrite Hr. reflexivity.
  - rewrite Hc, IH. reflexivity.
Qed.

Lemma uint_chars_digits d : digits_only (uint_chars d).
Proof.
  induction d; cbn [uint_chars]; constructor; (reflexivity || assumption).
Qed.

Lemma fold_digits_acc s acc :
  fold_left (fun a c => (a * 10 + (c - 48))%N) s acc
  = (acc * 10 ^ N.of_nat (List.length s) + digits_value s)%N.
Proof.
  unfold digits_value. revert acc.
  induction s as [|c s IH]; intros acc; cbn [fold_left List.length].
  - cbn. lia.
  - rewrite IH, (IH (0 * 10 + (c - 48))%N), Nat2N.inj_succ, N.pow_succ_r'. lia.
Qed.

Lemma digits_value_cons c s :
  digits_value (c :: s)
  = ((c - 48) * 10 ^ N.of_nat (List.length s) + digits_value s)%N.
Proof.
  unfold digits_value at 1. cbn [fold_left]. rewrite fold_digits_acc. lia.
Qed.

Lemma digits_value_app a b :
  digits_value (a ++ b)
  = (digits_value a * 10 ^ N.of_nat (List.length b) + digits_value b)%N.
Proof.
  unfold digits_value at 1. rewrite fold_left_app.
  fold (digits_value a). apply fold_digits_acc.
Qed.

Lemma of_uint_acc_digits d acc :
  N.pos (Pos.of_uint_acc d acc)
  = fold_left (fun a c => (a * 10 + (c - 48))%N) (uint_chars d) (N.pos acc).
Proof.
  revert acc. induction d; intros acc; cbn [Pos.of_uint_acc uint_chars fold_left];
    [reflexivity | rewrite IHd; f_equal; lia ..].
Qed.

(** [digits_value] reads a decimal numeral as the Standard Library does. *)
Lemma digits_value_uint d : digits_value (uint_chars d) = N.of_uint d.
Proof.
  unfold N.of_uint, digits_value.
  induction d; cbn [Pos.of_uint uint_chars fold_left];
    [reflexivity | exact IHd | rewrite of_uint_acc_digits; reflexivity ..].
Qed.

Lemma digits_value_pos p : digits_value (uint_chars (Pos.to_uint p)) = N.pos p.
Proof.
  rewrite digits_value_uint. unfold N.of_uint.
  apply DecimalPos.Unsigned.of_to.
Qed.

Lemma to_uint_normal p : unorm (Pos.to_uint p) = Pos.to_uint p.
Proof.
  rewrite <- (DecimalPos.Unsigned.to_of (Pos.to_uint p)).
  rewrite DecimalPos.Unsigned.of_to. reflexivity.
Qed.

Lemma to_uint_head p : forall d, Pos.to_uint p <> D0 d.
Proof.
  intros d E. pose proof (to_uint_normal p) as Hn. rewrite E in Hn.
  rewrite DecimalFacts.unorm_D0 in Hn. unfold unorm in Hn.
  destruct (nzhead d) eqn:Hz; try discriminate Hn.
  - injection Hn as <-. exact (DecimalPos.Unsigned.to_uint_nonzero p E).
  - exact (DecimalFacts.nzhead_nonzero _ _ Hz).
Qed.

(** The digits of a positive number: at least one, the first not [0]. *)
Lemma to_uint_chars p :
  exists c t,
    uint_chars (Pos.to_uint p) = c :: t /\
    (49 <= c <= 57)%N /\ digits_only t.
Proof.
  pose proof (to_uint_head p) as Hh.
  pose proof (DecimalPos.Unsigned.to_uint_nonnil p) as Hnil.
  pose proof (uint_chars_digits (Pos.to_uint p)) as Hd.
  destruct (Pos.to_uint p) as [|d|d|d|d|d|d|d|d|d|d];
    [contradiction | exfalso; exact (Hh d eq_refl) | ..];
    cbn [uint_chars] in *; inversion Hd; subst;
    do 2 eexists; (split; [reflexivity|split; [lia|assumption]]).
Qed.

Lemma scan_integer_run c t rest :
  (49 <= c <= 57)%N -> digits_only t -> no_digit_ahead rest = true ->
  scan_integer ((c :: t) ++ rest) = Some (c :: t, rest).
Proof.
  intros Hc Ht Hr. cbn [List.app scan_integer].
  destruct (N.eqb_spec c 48); [lia|].
  assert (Hd : is_digit c = true).
  { unfold is_digit. apply andb_true_iff. split; apply N.leb_le; lia. }
  rewrite Hd, scan_digits_run by assumption. reflexivity.
Qed.

Lemma scan_integer_pos p rest :
  no_digit_ahead rest = true ->
  scan_integer (uint_chars (Pos.to_uint p) ++ rest)
  = Some (uint_chars (Pos.to_uint p), rest).
Proof.
  intros H. destruct (to_uint_chars p) as (c & t & -> & Hc & Ht).
  apply scan_integer_run; assumption.
Qed.

Lemma scan_frac_stop rest : closes rest = true -> scan_frac rest = (None, rest).
Proof.
  intros H. destruct (closes_cases rest H) as [->|(c & r & -> & Hc)]; [reflexivity|].
  destruct Hc as [->|[->|[->| ->]]]; reflexivity.
Qed.

Lemma scan_exp_stop rest : closes rest = true -> scan_exp rest = (None, rest).
Proof.
  intros H. destruct (closes_cases rest H) as [->|(c & r & -> & Hc)]; [reflexivity|].
  destruct Hc as [->|[->|[->| ->]]]; reflexivity.
Qed.

Lemma sign_digits d rest :
  d <> Nil ->
  match uint_chars d ++ rest with
  | c :: r => if (c =? 45)%N then (true, r) else (false, uint_chars d ++ rest)
  | [] => (false, uint_chars d ++ rest)
  end = (false, uint_chars d ++ rest).
Proof. intros H. destruct d; [contradiction|..]; reflexivity. Qed.

Lemma match_number_int z rest :
  closes rest = true ->
  match_number (int_repr z ++ rest) = Some (VInt z, rest).
Proof.
  intros H. pose proof (closes_no_digit rest H) as Hn.
  unfold match_number. destruct z as [|p|p]; cbn [int_repr List.app].
  - cbn [N.eqb Pos.eqb scan_integer].
    rewrite scan_frac_stop, scan_exp_stop by assumption. reflexivity.
  - rewrite sign_digits by apply DecimalPos.Unsigned.to_uint_nonnil.
    rewrite scan_integer_pos by assumption.
    rewrite scan_frac_stop, scan_exp_stop by assumption.
    rewrite digits_value_pos. reflexivity.
  - cbn [N.eqb Pos.eqb].
    rewrite scan_integer_pos by assumption.
    rewrite scan_frac_stop, scan_exp_stop by assumption.
    rewrite digits_value_pos. reflexivity.
Qed.

Lemma uint_chars_digit d :
  d <> Nil -> exists c t, uint_chars d = c :: t /\ (48 <= c <= 57)%N.
Proof.
  intros H. destruct d; [contradiction|..]; cbn [uint_chars];
    do 2 eexists; (split; [reflexivity|lia]).
Qed.

(** The first character of an integer is a digit or a minus sign. *)
Lemma int_repr_head z :
  exists c t, int_repr z = c :: t /\ (c = 45 \/ 48 <= c <= 57)%N.
Proof.
  destruct z as [|p|p]; cbn [int_repr].
  - exists 48%N, []. split; [reflexivity|lia].
  - destruct (uint_chars_digit (Pos.to_uint p)) as (c & t & E & Hc).
    { apply DecimalPos.Unsigned.to_uint_nonnil. }
    exists c, t. split; [assumption|lia].
  - do 2 eexists. split; [reflexivity|lia].
Qed.

Lemma after_prefix_head x p c s :
  x <> c -> after_prefix (x :: p) (c :: s) = None.
Proof.
  intros H. cbn [after_prefix]. destruct (N.eqb_spec x c); [contradiction|reflexivity].
Qed.

Lemma scan_once_number fuel c t :
  (c = 45 \/ 48 <= c <= 57)%N ->
  forall r, match_number (c :: t) = Some r ->
  scan_once (S fuel) (c :: t) = Some r.
Proof.
  intros Hc r Hm. cbn [scan_once].
  destruct (N.eqb_spec c 34); [lia|].
  destruct (N.eqb_spec c 123); [lia|].
  destruct (N.eqb_spec c 91); [lia|].
  unfold keyword.
  change (u "null") with [110; 117; 108; 108]%N.
  change (u "true") with [116; 114; 117; 101]%N.
  change (u "false") with [102; 97; 108; 115; 101]%N.
  rewrite !after_prefix_head by lia. rewrite Hm. reflexivity.
Qed.

Lemma scan_once_int fuel z rest :
  closes rest = true ->
  scan_once (S fuel) (int_repr z ++ rest) = Some (VInt z, rest).
Proof.
  intros H. destruct (int_repr_head z) as (c & t & E & Hc).
  pose proof (match_number_int z rest H) as Hm. rewrite E in *.
  apply scan_once_number; assumption.
Qed.

Lemma scan_once_str fuel s rest :
  text s = true ->
  scan_once (S fuel) (encode_basestring_ascii s ++ rest) = Some (VStr s, rest).
Proof.
  intros H. unfold encode_basestring_ascii.
  rewrite <- app_assoc. cbn [List.app scan_once N.eqb Pos.eqb].
  rewrite scanstring_encode by assumption. reflexivity.
Qed.

(** *** Floats *)

Lemma digits_value_zeros k : digits_value (repeat 48%N k) = 0%N.
Proof.
  induction k as [|k IH]; [reflexivity|].
  cbn [repeat]. rewrite digits_value_cons, IH. lia.
Qed.

Lemma digits_value_lead k s : digits_value (repeat 48%N k ++ s) = digits_value s.
Proof. rewrite digits_value_app, digits_value_zeros. lia. Qed.

Lemma digits_split j t :
  digits_only t -> digits_only (firstn j t) /\ digits_only (skipn j t).
Proof.
  intros H. apply Forall_app. rewrite firstn_skipn. exact H.
Qed.

Lemma zeros_digits k : digits_only (repeat 48%N k).
Proof. induction k; cbn [repeat]; constructor; (reflexivity || assumption). Qed.

Lemma drop_zeros_lead k s :
  drop_zeros (repeat 48%N k ++ s)
  = (fst (drop_zeros s), (k + snd (drop_zeros s))%nat).
Proof.
  induction k as [|k IH]; cbn [repeat List.app drop_zeros N.eqb Pos.eqb].
  - destruct (drop_zeros s). reflexivity.
  - rewrite IH. reflexivity.
Qed.

(** Digits whose number does not end in [0] have no zero to drop from
    their end. *)
Lemma drop_zeros_rev ds tail :
  (digits_value ds mod 10 <> 0)%N ->
  drop_zeros (List.rev ds ++ tail) = (List.rev ds ++ tail, O).
Proof.
  intros H. destruct (List.rev ds) as [|x r] eqn:E.
  - apply (f_equal (@List.rev N)) in E. rewrite rev_involutive in E. subst ds.
    exfalso. apply H. reflexivity.
  - apply (f_equal (@List.rev N)) in E. rewrite rev_involutive in E.
    cbn [List.rev] in E. subst ds. cbn [List.app drop_zeros].
    destruct (N.eqb_spec x 48) as [->|]; [|reflexivity].
    exfalso. apply H. rewrite digits_value_app.
    cbn [List.length]. change (digits_value [48%N]) with 0%N.
    change (10 ^ N.of_nat 1)%N with 10%N. rewrite N.add_0_r.
    apply N.Div0.mod_mul.
Qed.

(** [make_float] on a numeral whose digits are [ds], between [a] leading
    and [k] trailing zeros. *)
Lemma make_float_digits neg int frac exp a ds k :
  (digits_value ds mod 10 <> 0)%N ->
  int ++ match frac with Some d => d | None => [] end
    = repeat 48%N a ++ ds ++ repeat 48%N k ->
  make_float neg int frac exp
  = FDec neg (digits_value ds)
      (match exp with Some z => z | None => 0 end
       - Z.of_nat (List.length match frac with Some d => d | None => [] end)
       + Z.of_nat k)%Z.
Proof.
  intros Hd E. unfold make_float. cbv zeta.
  destruct frac as [fr|]; rewrite E;
    rewrite !rev_app_distr, !rev_repeat, <- List.app_assoc;
    rewrite drop_zeros_lead, drop_zeros_rev by assumption;
    cbn [fst snd]; rewrite rev_app_distr, rev_repeat, rev_involutive;
    rewrite digits_value_lead, Nat.add_0_r;
    (destruct (N.eqb_spec (digits_value ds) 0) as [Hz|]; [|reflexivity]);
    exfalso; apply Hd; rewrite Hz; reflexivity.
Qed.

Lemma digit_not_minus c : is_digit c = true -> (c =? 45)%N = false.
Proof.
  unfold is_digit. intros H. apply andb_true_iff in H as [H1 _].
  apply N.leb_le in H1. apply N.eqb_neq. lia.
Qed.

Lemma nonzero_digit c : (49 <= c <= 57)%N -> is_digit c = true.
Proof.
  intros H. unfold is_digit. apply andb_true_iff. split; apply N.leb_le; lia.
Qed.

Lemma scan_frac_run d rest :
  d <> [] -> digits_only d -> no_digit_ahead rest = true ->
  scan_frac (46%N :: d ++ rest) = (Some d, rest).
Proof.
  intros Hd Hs Hr. cbn [scan_frac N.eqb Pos.eqb].
  rewrite scan_digits_run by assumption.
  destruct d; [contradiction|reflexivity].
Qed.

Lemma scan_frac_none c s :
  c <> 46%N -> scan_frac (c :: s) = (None, c :: s).
Proof.
  intros H. cbn [scan_frac]. destruct (N.eqb_spec c 46); [contradiction|reflexivity].
Qed.

Lemma scan_exp_run (neg : bool) d rest :
  d <> [] -> digits_only d -> no_digit_ahead rest = true ->
  scan_exp (101%N :: (if neg then 45%N else 43%N) :: d ++ rest)
  = (Some (if neg then (- Z.of_N (digits_value d))%Z
           else Z.of_N (digits_value d)), rest).
Proof.
  intros Hd Hs Hr. cbn [scan_exp N.eqb Pos.eqb orb].
  destruct neg; cbn [N.eqb Pos.eqb]; rewrite scan_digits_run by assumption;
    (destruct d; [contradiction|reflexivity]).
Qed.

(** The groups of a number, put together as [match_number] does. *)
Lemma match_number_groups (neg : bool) c t int frac exp s2 s3 rest :
  is_digit c = true ->
  scan_integer (c :: t) = Some (int, s2) ->
  scan_frac s2 = (frac, s3) ->
  scan_exp s3 = (exp, rest) ->
  frac <> None \/ exp <> None ->
  match_number ((if neg then [45%N] else [] : str) ++ c :: t)
  = Some (VFloat (make_float neg int frac exp), rest).
Proof.
  intros Hc Hi Hf He Hfe. unfold match_number.
  destruct neg; cbn [List.app N.eqb Pos.eqb];
    [|rewrite (digit_not_minus c Hc)];
    rewrite Hi, Hf, He;
    (destruct frac, exp; try reflexivity; destruct Hfe; congruence).
Qed.

(** The exponent digits of [float.__repr__]: at least two. *)
Lemma exp_digits q :
  let es := uint_chars (Pos.to_uint q) in
  let padded := match es with [_] => 48%N :: es | _ => es end in
  padded <> [] /\ digits_only padded /\ digits_value padded = N.pos q.
Proof.
  cbv zeta. pose proof (digits_value_pos q) as Hv.
  destruct (to_uint_chars q) as (c & t & E & Hc & Ht). rewrite E in *.
  destruct t as [|x t].
  - split; [discriminate|]. split.
    + constructor; [reflexivity|]. constructor; [apply nonzero_digit; exact Hc|constructor].
    + rewrite <- Hv. change (48%N :: [c]) with (repeat 48%N 1 ++ [c]).
      apply digits_value_lead.
  - split; [discriminate|]. split; [|exact Hv].
    constructor; [apply nonzero_digit; exact Hc|exact Ht].
Qed.

Section FloatTexts.

Variables (neg : bool) (c : N) (t rest : str).
Hypothesis Hc : (49 <= c <= 57)%N.
Hypothesis Ht : digits_only t.
Hypothesis Hlast : (digits_value (c :: t) mod 10 <> 0)%N.
Hypothesis Hrest : closes rest = true.

(** [0.000ddd] *)
Lemma match_number_small k :
  match_number ((if neg then [45%N] else [] : str) ++ (48%N :: 46%N :: repeat 48%N k ++ c :: t) ++ rest)
  = Some (VFloat (FDec neg (digits_value (c :: t))
                    (- Z.of_nat (k + List.length (c :: t)))), rest).
Proof.
  pose proof (closes_no_digit rest Hrest) as Hn.
  cbn [List.app].
  rewrite (match_number_groups neg 48%N _ [48%N]
             (Some (repeat 48%N k ++ c :: t)) None
             (46%N :: (repeat 48%N k ++ c :: t) ++ rest) rest rest).
  - rewrite (make_float_digits neg _ _ _ (S k) (c :: t) O) by
      (try assumption; cbn [repeat List.app]; rewrite List.app_nil_r; reflexivity).
    rewrite length_app, repeat_length. do 4 f_equal; cbn [List.length]; lia.
  - reflexivity.
  - reflexivity.
  - apply scan_frac_run; try assumption.
    + destruct k; discriminate.
    + apply Forall_app. split; [apply zeros_digits|].
      constructor; [apply nonzero_digit; exact Hc|exact Ht].
  - apply scan_exp_stop. exact Hrest.
  - left. discriminate.
Qed.

(** [dd.ddd] *)
Lemma match_number_split j :
  j < List.length t ->
  match_number ((if neg then [45%N] else [] : str) ++ ((c :: firstn j t) ++ [46%N] ++ skipn j t) ++ rest)
  = Some (VFloat (FDec neg (digits_value (c :: t))
                    (- Z.of_nat (List.length t - j))), rest).
Proof.
  intros Hj. pose proof (closes_no_digit rest Hrest) as Hn.
  assert (Hs : skipn j t <> []).
  { intros E. apply (f_equal (@List.length N)) in E.
    rewrite length_skipn in E. cbn in E. lia. }
  rewrite <- !List.app_assoc. cbn [List.app].
  rewrite (match_number_groups neg c _ (c :: firstn j t)
             (Some (skipn j t)) None (46%N :: skipn j t ++ rest) rest rest).
  - rewrite (make_float_digits neg _ _ _ O (c :: t) O) by
      (try assumption; cbn [repeat List.app];
       rewrite List.app_nil_r, firstn_skipn; reflexivity).
    rewrite length_skipn. do 4 f_equal; cbn [List.length]; lia.
  - apply nonzero_digit. exact Hc.
  - apply (scan_integer_run c (firstn j t) (46%N :: skipn j t ++ rest));
      [exact Hc|apply (digits_split j t Ht)|reflexivity].
  - apply scan_frac_run; [exact Hs|apply (digits_split j t Ht)|exact Hn].
  - apply scan_exp_stop. exact Hrest.
  - left. discriminate.
Qed.

(** [ddd000.0] *)
Lemma match_number_whole k :
  match_number ((if neg then [45%N] else [] : str) ++ ((c :: t) ++ repeat 48%N k ++ [46%N; 48%N]) ++ rest)
  = Some (VFloat (FDec neg (digits_value (c :: t)) (Z.of_nat k)), rest).
Proof.
  pose proof (closes_no_digit rest Hrest) as Hn.
  rewrite <- !List.app_assoc. cbn [List.app].
  rewrite (match_number_groups neg c _ (c :: t ++ repeat 48%N k)
             (Some [48%N]) None (46%N :: [48%N] ++ rest) rest rest).
  - rewrite (make_float_digits neg _ _ _ O (c :: t) (S k)).
    + do 4 f_equal; cbn [List.length]; lia.
    + assumption.
    + cbn [repeat List.app]. rewrite <- List.app_assoc.
      cbn [List.app]. do 2 f_equal. symmetry. apply (repeat_cons k 48%N).
  - apply nonzero_digit. exact Hc.
  - rewrite List.app_assoc.
    apply (scan_integer_run c (t ++ repeat 48%N k) (46%N :: 48%N :: rest));
      [exact Hc|apply Forall_app; split; [exact Ht|apply zeros_digits]|reflexivity].
  - apply scan_frac_run; [discriminate|constructor; [reflexivity|constructor]|exact Hn].
  - apply scan_exp_stop. exact Hrest.
  - left. discriminate.
Qed.

(** [d.ddde+XX] *)
Lemma match_number_exponent (down : bool) q :
  match_number
    ((if neg then [45%N] else [] : str) ++
     ([c] ++ match t with [] => [] | x :: l => 46%N :: x :: l end ++ [101%N] ++
      (if down then [45%N] else [43%N]) ++
      match uint_chars (Pos.to_uint q) with
      | [_] => 48%N :: uint_chars (Pos.to_uint q)
      | _ => uint_chars (Pos.to_uint q)
      end) ++ rest)
  = Some (VFloat (FDec neg (digits_value (c :: t))
                    ((if down then Z.neg q else Z.pos q)
                     - Z.of_nat (List.length t))), rest).
Proof.
  pose proof (closes_no_digit rest Hrest) as Hn.
  destruct (exp_digits q) as (He1 & He2 & He3). cbv zeta in He1, He2, He3.
  set (es := match uint_chars (Pos.to_uint q) with
             | [_] => 48%N :: uint_chars (Pos.to_uint q)
             | _ => uint_chars (Pos.to_uint q)
             end) in *.
  pose proof (scan_exp_run down es rest He1 He2 Hn) as Hexp.
  rewrite He3 in Hexp.
  rewrite <- !List.app_assoc. cbn [List.app].
  destruct t as [|x t'].
  - cbn [List.app].
    rewrite (match_number_groups neg c _ [c] None
               (Some (if down then Z.neg q else Z.pos q))
               (101%N :: (if down then [45%N] else [43%N]) ++ es ++ rest)
               (101%N :: (if down then [45%N] else [43%N]) ++ es ++ rest) rest).
    + rewrite (make_float_digits neg _ _ _ O [c] O) by
        (try assumption; reflexivity).
      do 4 f_equal; cbn [List.length]; lia.
    + apply nonzero_digit. exact Hc.
    + apply (scan_integer_run c [] _ Hc); [constructor|].
      destruct down; reflexivity.
    + apply scan_frac_none. discriminate.
    + destruct down; exact Hexp.
    + right. discriminate.
  - cbn [List.app].
    rewrite (match_number_groups neg c _ [c] (Some (x :: t'))
               (Some (if down then Z.neg q else Z.pos q))
               (46%N :: (x :: t') ++ 101%N :: (if down then [45%N] else [43%N]) ++ es ++ rest)
               (101%N :: (if down then [45%N] else [43%N]) ++ es ++ rest) rest).
    + rewrite (make_float_digits neg _ _ _ O (c :: x :: t') O) by
        (try assumption; cbn [repeat List.app]; rewrite List.app_nil_r; reflexivity).
      do 4 f_equal; cbn [List.length]; lia.
    + apply nonzero_digit. exact Hc.
    + apply (scan_integer_run c [] _ Hc); [constructor|reflexivity].
    + apply scan_frac_run; [discriminate|exact Ht|].
      destruct down; reflexivity.
    + destruct down; exact Hexp.
    + left. discriminate.
Qed.

End FloatTexts.

(** [float.__repr__] and the number pattern agree on every decimal that
    has no trailing zero. *)
Lemma match_number_float neg mant exp rest :
  normal_float (FDec neg mant exp) = true -> closes rest = true ->
  match_number (float_repr (FDec neg mant exp) ++ rest)
  = Some (VFloat (FDec neg mant exp), rest).
Proof.
  intros Hf Hrest. pose proof (closes_no_digit rest Hrest) as Hn.
  destruct mant as [|p]; cbn [normal_float N.eqb] in Hf.
  - apply Z.eqb_eq in Hf. subst exp. cbn [float_repr N.eqb].
    change (u "0.0") with [48; 46; 48]%N.
    rewrite <- List.app_assoc. cbn [List.app].
    rewrite (match_number_groups neg 48%N _ [48%N] (Some [48%N]) None
               (46%N :: [48%N] ++ rest) rest rest);
      [destruct neg; reflexivity | reflexivity | reflexivity | |
       apply scan_exp_stop; exact Hrest | left; discriminate].
    apply scan_frac_run; [discriminate|constructor; [reflexivity|constructor]|exact Hn].
  - apply negb_true_iff, N.eqb_neq in Hf.
    destruct (to_uint_chars p) as (c & t & E & Hc & Ht).
    pose proof (digits_value_pos p) as Hv. rewrite E in Hv.
    rewrite <- Hv in Hf.
    cbn [float_repr N.eqb]. cbv zeta.
    change (N.to_uint (N.pos p)) with (Pos.to_uint p). rewrite E.
    set (n := Z.of_nat (List.length (c :: t))).
    assert (Hlen : n = (Z.of_nat (List.length t) + 1)%Z)
      by (unfold n; cbn [List.length]; lia).
    rewrite <- Hv, <- List.app_assoc.
    destruct (Z.ltb_spec (-4) (n + exp)) as [Hlo|Hlo]; cbn [andb];
      [destruct (Z.leb_spec (n + exp) 16) as [Hhi|Hhi]|].
    + destruct (Z.leb_spec (n + exp) 0) as [Hz|Hz];
        [|destruct (Z.leb_spec n (n + exp)) as [Hw|Hw]].
      * change (u "0.") with [48; 46]%N.
        pose proof (match_number_small neg c t rest Hc Ht Hf Hrest
                      (Z.to_nat (- (n + exp)))) as H.
        cbn [List.app] in H |- *. refine (eq_trans H _).
        do 4 f_equal. fold n. lia.
      * change (u ".0") with [46; 48]%N.
        pose proof (match_number_whole neg c t rest Hc Ht Hf Hrest
                      (Z.to_nat (n + exp - n))) as H.
        cbn [List.app] in H |- *. refine (eq_trans H _).
        do 4 f_equal. lia.
      * replace (Z.to_nat (n + exp)) with (S (Z.to_nat (n + exp - 1))) by lia.
        cbn [firstn skipn].
        pose proof (match_number_split neg c t rest Hc Ht Hf Hrest
                      (Z.to_nat (n + exp - 1))) as H.
        cbn [List.app] in H |- *. refine (eq_trans (H ltac:(lia)) _).
        do 4 f_equal. lia.
    + cbn [hd tl].
      destruct (n + exp - 1)%Z as [|q|q] eqn:Eq; [lia| |lia].
      change (Z.pos q <? 0)%Z with false.
      change (N.to_uint (Z.abs_N (Z.pos q))) with (Pos.to_uint q).
      pose proof (match_number_exponent neg c t rest Hc Ht Hf Hrest false q) as H.
      cbn [List.app] in H |- *. refine (eq_trans H _).
      do 4 f_equal. lia.
    + cbn [hd tl].
      destruct (n + exp - 1)%Z as [|q|q] eqn:Eq; [lia|lia|].
      change (Z.neg q <? 0)%Z with true.
      change (N.to_uint (Z.abs_N (Z.neg q))) with (Pos.to_uint q).
      pose proof (match_number_exponent neg c t rest Hc Ht Hf Hrest true q) as H.
      cbn [List.app] in H |- *. refine (eq_trans H _).
      do 4 f_equal. lia.
Qed.

(** How the text of a finite float begins. *)
Lemma decimal_repr_head neg mant exp :
  exists c t,
    float_repr (FDec neg mant exp) = c :: t /\ (c = 45 \/ 48 <= c <= 57)%N.
Proof.
  destruct neg.
  - eexists 45%N, _. split; [reflexivity|]. left. reflexivity.
  - destruct mant as [|p].
    + exists 48%N, [46; 48]%N. split; [reflexivity|]. right. lia.
    + destruct (to_uint_chars p) as (c & t & E & Hc & Ht).
      cbn [float_repr N.eqb List.app]. cbv zeta.
      change (N.to_uint (N.pos p)) with (Pos.to_uint p). rewrite E.
      set (n := Z.of_nat (List.length (c :: t))).
      assert (Hlen : (1 <= n)%Z) by (unfold n; cbn [List.length]; lia).
      destruct ((-4 <? n + exp)%Z && (n + exp <=? 16)%Z);
        [destruct (Z.leb_spec (n + exp) 0) as [Hz|Hz];
         [|destruct (Z.leb_spec n (n + exp)) as [Hw|Hw]]|].
      * eexists 48%N, _. split; [reflexivity|]. right. lia.
      * eexists c, _. split; [reflexivity|]. right. lia.
      * replace (Z.to_nat (n + exp)) with (S (Z.to_nat (n + exp - 1))) by lia.
        eexists c, _. split; [reflexivity|]. right. lia.
      * eexists c, _. split; [reflexivity|]. right. lia.
Qed.

Lemma float_repr_head f :
  normal_float f = true ->
  exists c t, float_repr f = c :: t /\ (c = 45 \/ 48 <= c <= 57 \/ c = 73)%N.
Proof.
  destruct f as [|[|]|neg mant exp]; intros Hf.
  - discriminate Hf.
  - exists 45%N, (u "Infinity"). split; [reflexivity|]. left. reflexivity.
  - exists 73%N, (u "nfinity"). split; [reflexivity|]. right. right. reflexivity.
  - destruct (decimal_repr_head neg mant exp) as (c & t & E & Hc).
    exists c, t. split; [exact E|]. tauto.
Qed.

Lemma scan_once_float fuel f rest :
  normal_float f = true -> closes rest = true ->
  scan_once (S fuel) (float_repr f ++ rest) = Some (VFloat f, rest).
Proof.
  intros Hf Hr. destruct f as [|[|]|neg mant exp].
  - discriminate Hf.
  - reflexivity.
  - reflexivity.
  - pose proof (match_number_float neg mant exp rest Hf Hr) as Hm.
    destruct (decimal_repr_head neg mant exp) as (c & t & E & Hc).
    rewrite E in *. apply scan_once_number; assumption.
Qed.

(** *** Lists and dicts *)

Lemma dumps_list i k l :
  dumps i k (VList l) = 91%N :: join i (map (dumps i k) l) ++ [93%N].
Proof.
  cbn [dumps]. do 2 f_equal.
  induction l as [|x [|y ys] IH]; try reflexivity.
  cbn [map join] in *. rewrite <- IH. reflexivity.
Qed.

Lemma dumps_dict i k d :
  dumps i k (VDict d) = 123%N :: join i (map (pair_text i k) d) ++ [125%N].
Proof.
  cbn [dumps]. do 2 f_equal.
  induction d as [|[a x] [|[b y] ys] IH]; try reflexivity.
  cbn [map join] in *. rewrite <- IH. unfold pair_text. cbn [fst snd].
  rewrite <- !app_assoc. reflexivity.
Qed.

Lemma plain_list l : plain (VList l) = forallb plain l.
Proof. reflexivity. Qed.

Lemma plain_dict d :
  plain (VDict d) =
  distinct (map fst d) && forallb (fun kv => text (fst kv) && plain (snd kv)) d.
Proof.
  cbn [plain]. f_equal.
  induction d as [|[a x] d IH]; [reflexivity|].
  cbn [forallb fst snd]. rewrite <- IH. reflexivity.
Qed.

Lemma cost_list l : cost (VList l) = S (cost_items l).
Proof.
  reflexivity.
Qed.

Lemma cost_dict d : cost (VDict d) = S (cost_items (map snd d)).
Proof.
  cbn [cost]. f_equal. induction d as [|[a x] d IH]; [reflexivity|].
  cbn [cost_items map snd]. rewrite <- IH. reflexivity.
Qed.

Lemma cost_pos v : 1 <= cost v.
Proof. destruct v; cbn [cost]; lia. Qed.

(** How the text of a value begins. *)
Lemma dumps_head i k v :
  plain v = true -> exists c t, dumps i k v = c :: t /\ opens c.
Proof.
  unfold opens. destruct v as [| [|] | z | f | s | l | d]; intros Hp.
  - do 2 eexists. split; [reflexivity|]. repeat split; try reflexivity; try discriminate.
  - do 2 eexists. split; [reflexivity|]. repeat split; try reflexivity; try discriminate.
  - do 2 eexists. split; [reflexivity|]. repeat split; try reflexivity; try discriminate.
  - cbn [dumps]. destruct (int_repr_head z) as (c & t & -> & Hc).
    exists c, t. split; [reflexivity|].
    unfold is_ws. repeat split; try lia.
    ntest; cbn [orb]; try reflexivity; exfalso; lia.
  - cbn [dumps]. destruct (float_repr_head f Hp) as (c & t & -> & Hc).
    exists c, t. split; [reflexivity|].
    unfold is_ws. repeat split; try lia.
    ntest; cbn [orb]; try reflexivity; exfalso; lia.
  - do 2 eexists. split; [reflexivity|]. repeat split; try reflexivity; try discriminate.
  - rewrite dumps_list. do 2 eexists. split; [reflexivity|].
    repeat split; try reflexivity; try discriminate.
  - rewrite dumps_dict. do 2 eexists. split; [reflexivity|].
    repeat split; try reflexivity; try discriminate.
Qed.

Lemma skip_ws_opens c t : opens c -> skip_ws (c :: t) = c :: t.
Proof. intros (H & _). cbn [skip_ws]. rewrite H. reflexivity. Qed.

Lemma skip_ws_dumps i k v rest :
  plain v = true -> skip_ws (dumps i k v ++ rest) = dumps i k v ++ rest.
Proof.
  intros H. destruct (dumps_head i k v H) as (c & t & -> & Hc).
  apply skip_ws_opens. assumption.
Qed.

Lemma str_eqb_eq a b : str_eqb a b = true <-> a = b.
Proof.
  revert b. induction a as [|x a IH]; destruct b as [|y b]; cbn [str_eqb];
    try (split; [discriminate|discriminate]); [tauto|].
  rewrite andb_true_iff, N.eqb_eq, IH. split.
  - intros [-> ->]. reflexivity.
  - intros E. injection E as -> ->. auto.
Qed.

Lemma dict_set_fresh (k : str) (x : value) d :
  existsb (str_eqb k) (map fst d) = false ->
  dict_set str_eqb k x d = d ++ [(k, x)].
Proof.
  induction d as [|[k' x'] d IH]; cbn [map fst existsb dict_set List.app]; intros H.
  - reflexivity.
  - apply orb_false_iff in H as [H1 H2]. rewrite H1, IH by assumption. reflexivity.
Qed.

Lemma existsb_app_str k a b :
  existsb (str_eqb k) (a ++ b) = existsb (str_eqb k) a || existsb (str_eqb k) b.
Proof. apply existsb_app. Qed.

Lemma dict_of_pairs_distinct (d : list (str * value)) :
  distinct (map fst d) = true -> dict_of_pairs str_eqb d = d.
Proof.
  unfold dict_of_pairs.
  assert (G : forall acc,
             distinct (map fst d) = true ->
             (forall k, In k (map fst d) -> existsb (str_eqb k) (map fst acc) = false) ->
             fold_left (fun d kv => dict_set str_eqb (fst kv) (snd kv) d) d acc = acc ++ d).
  { induction d as [|[k x] d IH]; intros acc Hd Hacc; cbn [fold_left].
    - rewrite app_nil_r. reflexivity.
    - cbn [map fst distinct] in Hd. apply andb_true_iff in Hd as [Hk Hd].
      apply negb_true_iff in Hk. cbn [fst snd].
      rewrite dict_set_fresh by (apply Hacc; left; reflexivity).
      rewrite IH; [rewrite <- app_assoc; reflexivity | assumption |].
      intros k' Hin. rewrite map_app, existsb_app_str. cbn [map fst existsb].
      rewrite Hacc by (right; assumption). cbn [orb]. rewrite orb_false_r.
      destruct (str_eqb k' k) eqn:E; [|reflexivity].
      apply str_eqb_eq in E. subst k'.
      exfalso. apply in_map_iff in Hin as ([k2 x2] & E2 & Hin). cbn [fst] in E2. subst k2.
      assert (existsb (str_eqb k) (map fst d) = true).
      { apply existsb_exists. exists k. split.
        - apply in_map_iff. exists (k, x2). auto.
        - apply str_eqb_eq. reflexivity. }
      congruence. }
  intros H. apply (G [] H). reflexivity.
Qed.

Lemma join_one sep x : join sep [x] = x.
Proof. reflexivity. Qed.

Lemma join_more sep x y ys :
  join sep (x :: y :: ys) = x ++ sep ++ join sep (y :: ys).
Proof. reflexivity. Qed.

Lemma join_dumps_head l rest :
  forallb plain l = true -> l <> [] ->
  exists c t, join [44%N] (map (dumps [44%N] [58%N]) l) ++ rest = c :: t /\ opens c.
Proof.
  destruct l as [|y ys]; [contradiction|]. intros Hp _.
  cbn [forallb] in Hp. apply andb_true_iff in Hp as [Hy _].
  destruct (dumps_head [44%N] [58%N] y Hy) as (c & t & E & Hc).
  cbn [map]. destruct ys as [|z zs].
  - rewrite join_one, E. cbn [List.app]. eauto.
  - cbn [map]. rewrite join_more, E. cbn [List.app]. eauto.
Qed.

Lemma array_loop_reads x xs :
  Forall reads_back (x :: xs) ->
  forallb plain (x :: xs) = true ->
  forall fuel rest, cost_items (x :: xs) <= fuel ->
  array_loop fuel (join [44%N] (map (dumps [44%N] [58%N]) (x :: xs)) ++ 93%N :: rest)
  = Some (x :: xs, rest).
Proof.
  revert x. induction xs as [|y ys IH]; intros x HP Hp fuel rest Hf.
  - cbn [map]. rewrite join_one. cbn [cost_items] in Hf.
    destruct fuel as [|fuel]; [lia|]. cbn [array_loop].
    inversion HP as [|? ? Hx _]; subst.
    cbn [forallb] in Hp. apply andb_true_iff in Hp as [Hpx _].
    rewrite (Hx Hpx) by (reflexivity || lia). reflexivity.
  - cbn [map]. rewrite join_more. cbn [cost_items] in Hf.
    destruct fuel as [|fuel]; [lia|]. cbn [array_loop].
    inversion HP as [|? ? Hx HP']; subst.
    cbn [forallb] in Hp. apply andb_true_iff in Hp as [Hpx Hp'].
    rewrite <- List.app_assoc. cbn [List.app].
    rewrite (Hx Hpx) by (reflexivity || lia).
    cbn [skip_ws is_ws N.eqb Pos.eqb orb].
    destruct (join_dumps_head (y :: ys) (93%N :: rest) Hp') as (c & t & E & Hc);
      [discriminate|].
    cbn [map] in E, IH. rewrite E, (skip_ws_opens c t Hc), <- E.
    rewrite (IH y HP' Hp') by (cbn [cost_items]; lia). reflexivity.
Qed.

Lemma pair_join k x d rest :
  join [44%N] (map pt ((k, x) :: d)) ++ 125%N :: rest
  = 34%N :: flat_map escape_char k ++ 34%N :: 58%N ::
      dumps [44%N] [58%N] x ++ more d rest.
Proof.
  destruct d as [|kv d]; cbn [map more].
  - rewrite join_one. unfold pt, pair_text, encode_basestring_ascii.
    cbn [fst snd List.app]. rewrite <- !List.app_assoc. reflexivity.
  - rewrite join_more. unfold pt at 1. unfold pair_text, encode_basestring_ascii.
    cbn [fst snd List.app]. rewrite <- !List.app_assoc. cbn [List.app].
    repeat rewrite <- List.app_assoc. reflexivity.
Qed.

Lemma closes_more d rest : closes (more d rest) = true.
Proof. destruct d; reflexivity. Qed.

Lemma object_loop_reads d :
  forall k x,
  Forall (fun kv => reads_back (snd kv)) ((k, x) :: d) ->
  forallb (fun kv => text (fst kv) && plain (snd kv)) ((k, x) :: d) = true ->
  forall fuel rest, cost_items (map snd ((k, x) :: d)) <= fuel ->
  object_loop fuel (flat_map escape_char k ++ 34%N :: 58%N ::
                    dumps [44%N] [58%N] x ++ more d rest)
  = Some ((k, x) :: d, rest).
Proof.
  induction d as [|[k' x'] d IH]; intros k x HP Hp fuel rest Hf;
    cbn [map snd cost_items] in Hf;
    (destruct fuel as [|fuel]; [lia|]);
    cbn [forallb fst snd] in Hp;
    apply andb_true_iff in Hp as [Hkx Hp];
    apply andb_true_iff in Hkx as [Hk Hpx];
    inversion HP as [|? ? Hx HP']; subst; cbn [snd] in Hx;
    cbn [object_loop];
    rewrite scanstring_encode by assumption;
    cbn [skip_ws is_ws N.eqb Pos.eqb orb];
    rewrite skip_ws_dumps by assumption;
    rewrite (Hx Hpx) by (apply closes_more || lia).
  - reflexivity.
  - cbn [more skip_ws is_ws N.eqb Pos.eqb orb].
    rewrite pair_join. cbn [skip_ws is_ws N.eqb Pos.eqb orb].
    rewrite (IH k' x' HP') by (assumption || (cbn [map snd cost_items]; lia)).
    reflexivity.
Qed.

Theorem scan_once_dumps v : reads_back v.
Proof.
  induction v using value_induction; unfold reads_back; intros Hp fuel rest Hf Hr;
    (destruct fuel as [|fuel]; [pose proof (cost_pos VNone); cbn [cost] in Hf; lia|]).
  - reflexivity.
  - destruct b; reflexivity.
  - cbn [dumps]. apply scan_once_int. assumption.
  - cbn [dumps]. apply scan_once_float; assumption.
  - cbn [dumps]. apply scan_once_str. exact Hp.
  - rewrite dumps_list. rewrite cost_list in Hf. rewrite plain_list in Hp.
    destruct l as [|x xs].
    + reflexivity.
    + cbn [List.app]. rewrite <- List.app_assoc. cbn [List.app scan_once N.eqb Pos.eqb].
      destruct (join_dumps_head (x :: xs) (93%N :: rest) Hp) as (c & t & E & Hc);
        [discriminate|].
      rewrite E, (skip_ws_opens c t Hc).
      destruct Hc as (_ & Hc & _).
      destruct (N.eqb_spec c 93); [contradiction|]. rewrite <- E.
      rewrite (array_loop_reads x xs H Hp) by lia. reflexivity.
  - rewrite dumps_dict. rewrite cost_dict in Hf. rewrite plain_dict in Hp.
    apply andb_true_iff in Hp as [Hd Hp].
    destruct d as [|[k x] d].
    + reflexivity.
    + cbn [List.app]. rewrite <- List.app_assoc. cbn [List.app].
      fold pt. rewrite pair_join.
      cbn [scan_once N.eqb Pos.eqb skip_ws is_ws orb].
      rewrite (object_loop_reads d k x H Hp) by lia.
      rewrite dict_of_pairs_distinct by assumption. reflexivity.
Qed.

(** *** Fuel: twice the length of the text is enough for its own value *)

Lemma cost_items_fit l :
  Forall fits l -> forallb plain l = true ->
  cost_items l <= 2 * List.length (join [44%N] (map (dumps [44%N] [58%N]) l)).
Proof.
  induction l as [|x [|y ys] IH]; intros HF Hp.
  - cbn. lia.
  - inversion HF as [|? ? Hx _]; subst. cbn [forallb] in Hp.
    apply andb_true_iff in Hp as [Hpx _]. specialize (Hx Hpx).
    cbn [map]. rewrite join_one. cbn [cost_items]. lia.
  - inversion HF as [|? ? Hx HF']; subst. cbn [forallb] in Hp.
    apply andb_true_iff in Hp as [Hpx Hp']. specialize (Hx Hpx).
    specialize (IH HF' Hp').
    cbn [map] in *. rewrite join_more. rewrite !length_app.
    cbn [cost_items] in *. cbn [List.length]. lia.
Qed.

Lemma cost_pairs_fit d :
  Forall (fun kv => fits (snd kv)) d ->
  forallb (fun kv => text (fst kv) && plain (snd kv)) d = true ->
  cost_items (map snd d) <= 2 * List.length (join [44%N] (map pt d)).
Proof.
  induction d as [|[k x] [|[k' y] ys] IH]; intros HF Hp.
  - cbn. lia.
  - inversion HF as [|? ? Hx _]; subst. cbn [forallb fst snd] in Hp.
    apply andb_true_iff in Hp as [Hpx _]. apply andb_true_iff in Hpx as [_ Hpx].
    specialize (Hx Hpx).
    cbn [map]. rewrite join_one. unfold pt, pair_text. cbn [fst snd] in *.
    rewrite !length_app. cbn [cost_items]. lia.
  - inversion HF as [|? ? Hx HF']; subst. cbn [forallb fst snd] in Hp.
    apply andb_true_iff in Hp as [Hpx Hp']. apply andb_true_iff in Hpx as [_ Hpx].
    specialize (Hx Hpx). specialize (IH HF' Hp').
    cbn [map] in *. rewrite join_more. unfold pt at 1. unfold pair_text.
    cbn [fst snd] in *. rewrite !length_app.
    cbn [cost_items] in *. cbn [List.length]. lia.
Qed.

Lemma cost_fits v : fits v.
Proof.
  induction v using value_induction; unfold fits; intros Hp.
  - cbn. lia.
  - destruct b; cbn; lia.
  - cbn [cost dumps]. destruct (int_repr_head z) as (c & t & -> & _).
    cbn [List.length]. lia.
  - cbn [cost dumps]. destruct (float_repr_head f Hp) as (c & t & -> & _).
    cbn [List.length]. lia.
  - cbn [cost dumps]. unfold encode_basestring_ascii. cbn [List.app List.length].
    rewrite length_app. cbn [List.length]. lia.
  - rewrite dumps_list, cost_list. rewrite plain_list in Hp.
    pose proof (cost_items_fit l H Hp). cbn [List.length]. rewrite length_app.
    cbn [List.length]. lia.
  - rewrite dumps_dict, cost_dict. rewrite plain_dict in Hp.
    apply andb_true_iff in Hp as [_ Hp].
    pose proof (cost_pairs_fit d H Hp). fold pt. cbn [List.length].
    rewrite length_app. cbn [List.length]. lia.
Qed.

(** [json.loads] reads back the compact text of a plain value, with or
    without the newline of a frame behind it. *)
Theorem loads_dumps v :
  plain v = true ->
  loads (dumps [44%N] [58%N] v ++ [10%N]) = Some v.
Proof.
  intros Hp. unfold loads.
  destruct (dumps_head [44%N] [58%N] v Hp) as (c & t & E & Hc).
  assert (Hb : has_bom (dumps [44%N] [58%N] v ++ [10%N]) = false).
  { rewrite E. cbn [List.app has_bom]. destruct Hc as (_ & _ & _ & Hc).
    destruct (N.eqb_spec c 65279); [contradiction|reflexivity]. }
  rewrite Hb. rewrite skip_ws_dumps by assumption.
  rewrite (scan_once_dumps v Hp).
  - reflexivity.
  - pose proof (cost_fits v Hp). rewrite length_app. lia.
  - reflexivity.
Qed.

(** *** The text [json.dumps] writes is ASCII *)

Lemma ascii_app a b : ascii_only a -> ascii_only b -> ascii_only (a ++ b).
Proof. intros Ha Hb. apply Forall_app. split; assumption. Qed.

Lemma ascii_cons c s : (c < 128)%N -> ascii_only s -> ascii_only (c :: s).
Proof. intros. constructor; assumption. Qed.

Lemma ascii_nil : ascii_only [].
Proof. constructor. Qed.

Lemma hex_digit_ascii n : (n < 16)%N -> (hex_digit n < 128)%N.
Proof. intros H. unfold hex_digit. destruct (N.ltb_spec n 10); lia. Qed.

Lemma u_escape_ascii c : (c < 65536)%N -> ascii_only (u_escape c).
Proof.
  intros H. unfold u_escape.
  repeat (apply ascii_cons; [try reflexivity|]); try apply ascii_nil;
    apply hex_digit_ascii.
  - apply N.Div0.div_lt_upper_bound. lia.
  - apply N.mod_lt. lia.
  - apply N.mod_lt. lia.
  - apply N.mod_lt. lia.
Qed.

Lemma escape_char_ascii c : ascii_only (escape_char c).
Proof.
  unfold escape_char.
  repeat match goal with
         | |- context [N.eqb c ?k] => destruct (N.eqb_spec c k); [ascii_lit|]
         end.
  destruct (N.leb_spec 32 c); cbn [andb].
  - destruct (N.leb_spec c 126).
    + apply ascii_cons; [lia|apply ascii_nil].
    + destruct (N.ltb_spec c 65536).
      * apply u_escape_ascii. assumption.
      * cbv zeta. apply ascii_app; apply u_escape_ascii.
        -- assert ((c - 65536) / 1024 mod 1024 < 1024)%N by (apply N.mod_lt; lia). lia.
        -- assert ((c - 65536) mod 1024 < 1024)%N by (apply N.mod_lt; lia). lia.
  - destruct (N.ltb_spec c 65536); [|lia]. apply u_escape_ascii. assumption.
Qed.

Lemma encode_basestring_ascii_ascii s : ascii_only (encode_basestring_ascii s).
Proof.
  unfold encode_basestring_ascii. cbn [List.app]. apply ascii_cons; [reflexivity|].
  apply ascii_app; [|ascii_lit].
  induction s as [|c s IH]; [apply ascii_nil|].
  cbn [flat_map]. apply ascii_app; [apply escape_char_ascii|assumption].
Qed.

Lemma uint_chars_ascii d : ascii_only (uint_chars d).
Proof.
  induction d; cbn [uint_chars]; try apply ascii_nil;
    (apply ascii_cons; [reflexivity|assumption]).
Qed.

Lemma int_repr_ascii z : ascii_only (int_repr z).
Proof.
  destruct z; cbn [int_repr]; [ascii_lit | apply uint_chars_ascii |].
  apply ascii_cons; [reflexivity|apply uint_chars_ascii].
Qed.

Lemma ascii_repeat n : ascii_only (repeat 48%N n).
Proof. induction n; cbn [repeat]; [apply ascii_nil|]. apply ascii_cons; [reflexivity|assumption]. Qed.

Lemma ascii_firstn n s : ascii_only s -> ascii_only (firstn n s).
Proof.
  revert s. induction n; intros s H; [apply ascii_nil|].
  destruct s; [apply ascii_nil|]. inversion H; subst. cbn [firstn].
  apply ascii_cons; auto.
Qed.

Lemma ascii_skipn n s : ascii_only s -> ascii_only (skipn n s).
Proof.
  revert s. induction n; intros s H; [exact H|].
  destruct s; [apply ascii_nil|]. inversion H; subst. cbn [skipn]. auto.
Qed.

Lemma float_repr_ascii f : ascii_only (float_repr f).
Proof.
  destruct f as [|[|]|neg mant exp]; cbn [float_repr]; try (ascii_lit; fail).
  cbv zeta.
  pose proof (uint_chars_ascii (N.to_uint mant)) as Hd.
  set (ds := uint_chars (N.to_uint mant)) in *. clearbody ds.
  apply ascii_app; [destruct neg; ascii_lit|].
  destruct (mant =? 0)%N; [ascii_lit|].
  destruct ((-4 <? Z.of_nat (Datatypes.length ds) + exp)%Z &&
            (Z.of_nat (Datatypes.length ds) + exp <=? 16)%Z).
  - destruct (Z.of_nat (Datatypes.length ds) + exp <=? 0)%Z.
    + apply ascii_app; [ascii_lit|]. apply ascii_app; [apply ascii_repeat|assumption].
    + destruct (Z.of_nat (Datatypes.length ds) <=? Z.of_nat (Datatypes.length ds) + exp)%Z.
      * apply ascii_app; [assumption|]. apply ascii_app; [apply ascii_repeat|ascii_lit].
      * apply ascii_app; [apply ascii_firstn; assumption|].
        apply ascii_app; [ascii_lit|apply ascii_skipn; assumption].
  - apply ascii_app.
    { apply ascii_cons; [|apply ascii_nil]. destruct ds; [reflexivity|].
      inversion Hd; assumption. }
    apply ascii_app.
    { destruct ds as [|c [|c' t]]; cbn [tl]; try apply ascii_nil.
      inversion Hd; subst. apply ascii_cons; [reflexivity|assumption]. }
    apply ascii_app; [ascii_lit|].
    apply ascii_app; [destruct (_ <? 0)%Z; ascii_lit|].
    pose proof (uint_chars_ascii (N.to_uint (Z.abs_N (Z.of_nat (Datatypes.length ds) + exp - 1)))) as He.
    destruct (uint_chars _) as [|a [|b t]]; try assumption.
    apply ascii_cons; [reflexivity|assumption].
Qed.

Lemma join_ascii sep texts :
  ascii_only sep -> Forall ascii_only texts -> ascii_only (join sep texts).
Proof.
  intros Hs. induction texts as [|x [|y ys] IH]; intros H.
  - apply ascii_nil.
  - rewrite join_one. inversion H; assumption.
  - rewrite join_more. inversion H; subst.
    apply ascii_app; [assumption|]. apply ascii_app; [assumption|]. auto.
Qed.

Theorem dumps_ascii i k v :
  ascii_only i -> ascii_only k -> ascii_only (dumps i k v).
Proof.
  intros Hi Hk. induction v using value_induction.
  - ascii_lit.
  - destruct b; ascii_lit.
  - apply int_repr_ascii.
  - apply float_repr_ascii.
  - apply encode_basestring_ascii_ascii.
  - rewrite dumps_list. apply ascii_cons; [reflexivity|].
    apply ascii_app; [|ascii_lit]. apply join_ascii; [assumption|].
    apply Forall_map. exact H.
  - rewrite dumps_dict. apply ascii_cons; [reflexivity|].
    apply ascii_app; [|ascii_lit]. apply join_ascii; [assumption|].
    apply Forall_map. eapply Forall_impl; [|exact H].
    intros [a x] Hx. unfold pair_text. cbn [fst snd] in *.
    apply ascii_app; [apply encode_basestring_ascii_ascii|].
    apply ascii_app; assumption.
Qed.

(** *** UTF-8 on ASCII text *)

Lemma to_N_byte_of c : (c < 256)%N -> Byte.to_N (Utf8.byte_of c) = c.
Proof.
  intros H. unfold Utf8.byte_of. destruct (Byte.of_N c) as [b|] eqn:E.
  - apply Byte.to_of_N. assumption.
  - apply Byte.of_N_None_iff in E. lia.
Qed.

Lemma utf8_encode_ascii s :
  ascii_only s -> Utf8.encode s = Some (map Utf8.byte_of s).
Proof.
  induction 1 as [|c s Hc _ IH]; [reflexivity|].
  cbn [Utf8.encode map]. rewrite IH.
  destruct (N.ltb_spec c 128); [reflexivity|lia].
Qed.

Lemma utf8_decode_ascii s :
  ascii_only s -> Utf8.decode (map Utf8.byte_of s) = Some s.
Proof.
  induction 1 as [|c s Hc _ IH]; [reflexivity|].
  cbn [Utf8.decode map]. cbv zeta. rewrite to_N_byte_of by lia.
  destruct (N.ltb_spec c 128); [|lia]. rewrite IH. reflexivity.
Qed.

(** *** Every scanner consumes input *)

Lemma skip_ws_length s : List.length (skip_ws s) <= List.length s.
Proof.
  induction s as [|c s IH]; cbn [skip_ws List.length]; [lia|].
  destruct (is_ws c); cbn [List.length]; lia.
Qed.

Lemma push_some c r x rest :
  push c r = Some (x, rest) -> exists x', r = Some (x', rest).
Proof.
  destruct r as [[x' rest']|]; cbn [push]; [|discriminate].
  intros [= _ ->]. eauto.
Qed.

Lemma scanstring_shorter_upto n :
  forall s x rest,
    List.length s <= n ->
    scanstring s = Some (x, rest) -> List.length rest < List.length s.
Proof.
  induction n as [|n IH]; intros s x rest Hn H.
  - destruct s; [discriminate H|cbn [List.length] in Hn; lia].
  - destruct s as [|c r]; [discriminate H|].
    cbn [List.length] in Hn. cbn [scanstring] in H.
    assert (Hpush : forall ch r' , List.length r' <= n -> List.length r' <= List.length r ->
               push ch (scanstring r') = Some (x, rest) ->
               List.length rest < List.length (c :: r)).
    { intros ch r' Hr' Hle Hp. apply push_some in Hp as (x' & Hp).
      apply IH in Hp; [|assumption]. cbn [List.length]. lia. }
    destruct (c =? 34)%N.
    { injection H as _ <-. cbn [List.length]. lia. }
    destruct (c =? 92)%N.
    + destruct r as [|esc r1]; [discriminate H|].
      cbn [List.length] in *.
      destruct (esc =? 117)%N.
      * destruct r1 as [|h1 [|h2 [|h3 [|h4 r2]]]]; try discriminate H.
        cbn [List.length] in *.
        destruct (hex4 h1 h2 h3 h4) as [uni|]; [|discriminate H].
        destruct r2 as [|x0 [|y0 r3]].
        -- apply Hpush in H; cbn [List.length] in *; lia.
        -- apply Hpush in H; cbn [List.length] in *; lia.
        -- destruct (is_high_surrogate uni && (x0 =? 92)%N && (y0 =? 117)%N).
           ++ destruct r3 as [|l1 [|l2 [|l3 [|l4 r4]]]]; try discriminate H.
              destruct (hex4 l1 l2 l3 l4) as [uni2|]; [|discriminate H].
              destruct (is_low_surrogate uni2);
                apply Hpush in H; cbn [List.length] in *; lia.
           ++ apply Hpush in H; cbn [List.length] in *; lia.
      * destruct (unescape esc); [|discriminate H].
        apply Hpush in H; cbn [List.length] in *; lia.
    + destruct (c <? 32)%N; [discriminate H|].
      apply Hpush in H; cbn [List.length] in *; lia.
Qed.

Lemma scanstring_shorter s x rest :
  scanstring s = Some (x, rest) -> List.length rest < List.length s.
Proof. apply (scanstring_shorter_upto (List.length s)). lia. Qed.

Lemma scan_digits_length s :
  List.length (snd (scan_digits s)) <= List.length s.
Proof.
  induction s as [|c s IH]; cbn [scan_digits]; [cbn; lia|].
  destruct (is_digit c); [|cbn; lia].
  destruct (scan_digits s) as [d rest]. cbn [snd List.length] in *. lia.
Qed.

Lemma scan_integer_shorter s d rest :
  scan_integer s = Some (d, rest) -> List.length rest < List.length s.
Proof.
  destruct s as [|c r]; cbn [scan_integer]; [discriminate|].
  destruct (c =? 48)%N.
  - intros [= _ <-]. cbn [List.length]. lia.
  - destruct (is_digit c); [|discriminate].
    pose proof (scan_digits_length r) as Hl.
    destruct (scan_digits r) as [d' rest']. intros [= _ <-].
    cbn [snd List.length] in *. lia.
Qed.

Lemma scan_frac_length s : List.length (snd (scan_frac s)) <= List.length s.
Proof.
  destruct s as [|c r]; cbn [scan_frac]; [cbn; lia|].
  destruct (c =? 46)%N; [|cbn; lia].
  pose proof (scan_digits_length r) as Hl.
  destruct (scan_digits r) as [[] rest]; cbn [snd List.length] in *; lia.
Qed.

Lemma scan_exp_length s : List.length (snd (scan_exp s)) <= List.length s.
Proof.
  destruct s as [|c r]; cbn [scan_exp]; [cbn; lia|].
  destruct ((c =? 101) || (c =? 69))%N; [|cbn; lia].
  assert (Hs : forall neg r',
             List.length r' <= List.length r ->
             List.length (snd (match scan_digits r' with
                               | ([], _) => (@None Z, c :: r)
                               | (d, rest) =>
                                   (Some (if neg : bool
                                          then (- Z.of_N (digits_value d))%Z
                                          else Z.of_N (digits_value d)), rest)
                               end)) <= List.length (c :: r)).
  { intros neg r' Hr. pose proof (scan_digits_length r') as Hl.
    destruct (scan_digits r') as [[] rest]; cbn [snd List.length] in *; lia. }
  destruct r as [|sg r1].
  - apply (Hs false). lia.
  - destruct (sg =? 45)%N; [apply (Hs true); cbn [List.length]; lia|].
    destruct (sg =? 43)%N; apply (Hs false); cbn [List.length]; lia.
Qed.

Lemma match_number_shorter s v rest :
  match_number s = Some (v, rest) -> List.length rest < List.length s.
Proof.
  unfold match_number.
  assert (Hgen : forall neg s1,
             List.length s1 <= List.length s ->
             match scan_integer s1 with
             | Some (int, s2) =>
                 let (frac, s3) := scan_frac s2 in
                 let (exp, s4) := scan_exp s3 in
                 match frac, exp with
                 | None, None =>
                     Some (VInt (if neg : bool
                                 then (- Z.of_N (digits_value int))%Z
                                 else Z.of_N (digits_value int)), s4)
                 | _, _ => Some (VFloat (make_float neg int frac exp), s4)
                 end
             | None => None
             end = Some (v, rest) ->
             List.length rest < List.length s).
  { intros neg s1 Hle H.
    destruct (scan_integer s1) as [[int s2]|] eqn:Hi; [|discriminate H].
    apply scan_integer_shorter in Hi.
    pose proof (scan_frac_length s2) as Hf.
    destruct (scan_frac s2) as [frac s3]. cbn [snd] in Hf.
    pose proof (scan_exp_length s3) as He.
    destruct (scan_exp s3) as [exp s4]. cbn [snd] in He.
    destruct frac, exp; injection H as _ <-; lia. }
  destruct s as [|c r].
  - apply (Hgen false). lia.
  - destruct (c =? 45)%N.
    + apply (Hgen true). cbn [List.length]. lia.
    + apply (Hgen false). lia.
Qed.

Lemma after_prefix_length p s rest :
  after_prefix p s = Some rest -> List.length rest + List.length p = List.length s.
Proof.
  revert s. induction p as [|x p IH]; intros s; cbn [after_prefix].
  - intros [= <-]. cbn. lia.
  - destruct s as [|y s]; [discriminate|].
    destruct (x =? y)%N; [|discriminate].
    intros H. apply IH in H. cbn [List.length]. lia.
Qed.

Lemma keyword_shorter p v s otherwise v' rest :
  p <> EmptyString ->
  (otherwise = Some (v', rest) -> List.length rest < List.length s) ->
  keyword p v s otherwise = Some (v', rest) -> List.length rest < List.length s.
Proof.
  intros Hp Ho. unfold keyword.
  destruct (after_prefix (u p) s) as [r|] eqn:E; [|exact Ho].
  intros [= _ <-]. apply after_prefix_length in E.
  destruct p; [contradiction|]. cbn [u list_ascii_of_string map List.length] in E. lia.
Qed.

Lemma scanners_consume fuel : consumes fuel.
Proof.
  induction fuel as [|fuel (IHs & IHa & IHo)]; [repeat split; discriminate|].
  repeat split.
  - intros s v rest H. destruct s as [|c r]; [discriminate H|].
    cbn [scan_once] in H. cbn [List.length].
    destruct (c =? 34)%N.
    { destruct (scanstring r) as [[x rest']|] eqn:E; [|discriminate H].
      injection H as _ <-. apply scanstring_shorter in E. lia. }
    destruct (c =? 123)%N.
    { pose proof (skip_ws_length r) as Hw.
      destruct (skip_ws r) as [|c1 r1]; [discriminate H|]. cbn [List.length] in Hw.
      destruct (c1 =? 125)%N; [injection H as _ <-; lia|].
      destruct (c1 =? 34)%N; [|discriminate H].
      destruct (object_loop fuel r1) as [[ps rest']|] eqn:E; [|discriminate H].
      injection H as _ <-. apply IHo in E. lia. }
    destruct (c =? 91)%N.
    { pose proof (skip_ws_length r) as Hw.
      destruct (skip_ws r) as [|c1 r1]; [discriminate H|]. cbn [List.length] in Hw.
      destruct (c1 =? 93)%N; [injection H as _ <-; lia|].
      destruct (array_loop fuel (c1 :: r1)) as [[vs rest']|] eqn:E; [|discriminate H].
      injection H as _ <-. apply IHa in E. cbn [List.length] in E. lia. }
    change (List.length rest < List.length (c :: r)).
    revert H. repeat (apply keyword_shorter; [discriminate|]).
    destruct (match_number (c :: r)) as [[v0 r0]|] eqn:E.
    + intros [= _ <-]. apply match_number_shorter in E. assumption.
    + repeat (apply keyword_shorter; [discriminate|]). discriminate.
  - intros s vs rest H. cbn [array_loop] in H.
    destruct (scan_once fuel s) as [[v r]|] eqn:E; [|discriminate H].
    apply IHs in E. pose proof (skip_ws_length r) as Hw.
    destruct (skip_ws r) as [|c r1]; [discriminate H|]. cbn [List.length] in Hw.
    destruct (c =? 93)%N; [injection H as _ <-; lia|].
    destruct (c =? 44)%N; [|discriminate H].
    destruct (array_loop fuel (skip_ws r1)) as [[vs' rest']|] eqn:E2; [|discriminate H].
    injection H as _ <-. apply IHa in E2. pose proof (skip_ws_length r1). lia.
  - intros s ps rest H. cbn [object_loop] in H.
    destruct (scanstring s) as [[key r]|] eqn:E; [|discriminate H].
    apply scanstring_shorter in E. pose proof (skip_ws_length r) as Hw.
    destruct (skip_ws r) as [|c r1]; [discriminate H|]. cbn [List.length] in Hw.
    destruct (c =? 58)%N; [|discriminate H].
    destruct (scan_once fuel (skip_ws r1)) as [[v r2]|] eqn:E2; [|discriminate H].
    apply IHs in E2. pose proof (skip_ws_length r1) as Hw1.
    pose proof (skip_ws_length r2) as Hw2.
    destruct (skip_ws r2) as [|c2 r3]; [discriminate H|]. cbn [List.length] in Hw2.
    destruct (c2 =? 125)%N; [injection H as _ <-; lia|].
    destruct (c2 =? 44)%N; [|discriminate H].
    pose proof (skip_ws_length r3) as Hw3.
    destruct (skip_ws r3) as [|c3 r4]; [discriminate H|]. cbn [List.length] in Hw3.
    destruct (c3 =? 34)%N; [|discriminate H].
    destruct (object_loop fuel r4) as [[ps' rest']|] eqn:E3; [|discriminate H].
    injection H as _ <-. apply IHo in E3. lia.
Qed.

(** *** Fuel beyond twice the length of the text changes nothing *)

Lemma fuel_settles f1 : settled f1.
Proof.
  induction f1 as [|f1 IH]; intros f2 s.
  - repeat split; intros H1 H2; try lia.
    destruct s; [|cbn [List.length] in H1; lia]. destruct f2; reflexivity.
  - repeat split; intros H1 H2.
    + destruct s as [|c r]; [destruct f2; reflexivity|].
      cbn [List.length] in H1, H2. destruct f2 as [|f2]; [lia|].
      cbn [scan_once].
      destruct (c =? 34)%N; [reflexivity|].
      destruct (c =? 123)%N.
      { pose proof (skip_ws_length r) as Hw.
        destruct (skip_ws r) as [|c1 r1]; [reflexivity|]. cbn [List.length] in Hw.
        destruct (c1 =? 125)%N; [reflexivity|].
        destruct (c1 =? 34)%N; [|reflexivity].
        destruct (IH f2 r1) as (_ & _ & Ho). rewrite Ho by lia. reflexivity. }
      destruct (c =? 91)%N; [|reflexivity].
      pose proof (skip_ws_length r) as Hw.
      destruct (skip_ws r) as [|c1 r1]; [reflexivity|]. cbn [List.length] in Hw.
      destruct (c1 =? 93)%N; [reflexivity|].
      destruct (IH f2 (c1 :: r1)) as (_ & Ha & _).
      rewrite Ha by (cbn [List.length]; lia). reflexivity.
    + destruct f2 as [|f2]; [lia|]. cbn [array_loop].
      destruct (IH f2 s) as (Hs & _ & _). rewrite Hs by lia.
      destruct (scan_once f2 s) as [[v r]|] eqn:E; [|reflexivity].
      apply (proj1 (scanners_consume f2)) in E.
      pose proof (skip_ws_length r) as Hw.
      destruct (skip_ws r) as [|c r1]; [reflexivity|]. cbn [List.length] in Hw.
      destruct (c =? 93)%N; [reflexivity|].
      destruct (c =? 44)%N; [|reflexivity].
      pose proof (skip_ws_length r1) as Hw1.
      destruct (IH f2 (skip_ws r1)) as (_ & Ha & _). rewrite Ha by lia. reflexivity.
    + destruct f2 as [|f2]; [lia|]. cbn [object_loop].
      destruct (scanstring s) as [[key r]|] eqn:E; [|reflexivity].
      apply scanstring_shorter in E. pose proof (skip_ws_length r) as Hw.
      destruct (skip_ws r) as [|c r1]; [reflexivity|]. cbn [List.length] in Hw.
      destruct (c =? 58)%N; [|reflexivity].
      pose proof (skip_ws_length r1) as Hw1.
      destruct (IH f2 (skip_ws r1)) as (Hs & _ & _). rewrite Hs by lia.
      destruct (scan_once f2 (skip_ws r1)) as [[v r2]|] eqn:E2; [|reflexivity].
      apply (proj1 (scanners_consume f2)) in E2.
      pose proof (skip_ws_length r2) as Hw2.
      destruct (skip_ws r2) as [|c2 r3]; [reflexivity|]. cbn [List.length] in Hw2.
      destruct (c2 =? 125)%N; [reflexivity|].
      destruct (c2 =? 44)%N; [|reflexivity].
      pose proof (skip_ws_length r3) as Hw3.
      destruct (skip_ws r3) as [|c3 r4]; [reflexivity|]. cbn [List.length] in Hw3.
      destruct (c3 =? 34)%N; [|reflexivity].
      destruct (IH f2 r4) as (_ & _ & Ho). rewrite Ho by lia. reflexivity.
Qed.

(** The fuel [loads] gives [scan_once] never runs out: any larger amount
    reads the same value, or fails the same way. *)
Theorem scan_once_fuel s fuel :
  2 * List.length s <= fuel ->
  scan_once fuel (skip_ws s) = scan_once (2 * List.length s) (skip_ws s).
Proof.
  intros H. pose proof (skip_ws_length s) as Hw.
  apply (proj1 (fuel_settles fuel (2 * List.length s) (skip_ws s))); lia.
Qed.


(** ** [json.loads] under the limits of an interpreter *)

(** Split on what a scanner under limits did, given that it agrees with
    the scanner without limits unless a limit was reached. *)
Ltac limit_cases H :=
  destruct H as [[H | H] | H]; rewrite H;
  [left; left; reflexivity | left; right; reflexivity | ].

Lemma match_number_agrees py s :
  unless_limit_hit (match_number_in py s) (match_number s).
Proof.
  unfold match_number_in, match_number.
  destruct (match s with
            | c :: r => if (c =? 45)%N then (true, r) else (false, s)
            | [] => (false, s)
            end) as [neg s1].
  destruct (scan_integer s1) as [[int s2]|]; [|right; reflexivity].
  destruct (scan_frac s2) as [frac s3]. destruct (scan_exp s3) as [exp s4].
  destruct frac, exp; try (right; reflexivity).
  destruct (too_many_digits py int); [left; left|right]; reflexivity.
Qed.

Lemma scanners_agree py fuel :
  (forall room s,
      unless_limit_hit (scan_once_in py fuel room s) (scan_once fuel s)) /\
  (forall room s,
      unless_limit_hit (array_loop_in py fuel room s) (array_loop fuel s)) /\
  (forall room s,
      unless_limit_hit (object_loop_in py fuel room s) (object_loop fuel s)).
Proof.
  induction fuel as [|fuel (IHs & IHa & IHo)].
  - repeat split; intros; right; reflexivity.
  - split; [|split]; intros room s.
    + cbn [scan_once_in scan_once]. destruct s as [|c r]; [right; reflexivity|].
      destruct (c =? 34)%N.
      { destruct (scanstring r) as [[x rest]|]; right; reflexivity. }
      destruct (c =? 123)%N.
      { destruct room as [|room]; [left; right; reflexivity|].
        destruct (skip_ws r) as [|c1 r1]; [right; reflexivity|].
        destruct (c1 =? 125)%N; [right; reflexivity|].
        destruct (c1 =? 34)%N; [|right; reflexivity].
        pose proof (IHo room r1) as H. limit_cases H.
        destruct (object_loop fuel r1) as [[ps rest]|]; right; reflexivity. }
      destruct (c =? 91)%N.
      { destruct room as [|room]; [left; right; reflexivity|].
        destruct (skip_ws r) as [|c1 r1]; [right; reflexivity|].
        destruct (c1 =? 93)%N; [right; reflexivity|].
        pose proof (IHa room (c1 :: r1)) as H. limit_cases H.
        destruct (array_loop fuel (c1 :: r1)) as [[vs rest]|]; right; reflexivity. }
      unfold keyword_in, keyword.
      destruct (after_prefix (u "null") (c :: r)); [right; reflexivity|].
      destruct (after_prefix (u "true") (c :: r)); [right; reflexivity|].
      destruct (after_prefix (u "false") (c :: r)); [right; reflexivity|].
      pose proof (match_number_agrees py (c :: r)) as H. limit_cases H.
      destruct (match_number (c :: r)) as [[v rest]|]; cbn [decoded];
        [right; reflexivity|].
      destruct (after_prefix (u "NaN") (c :: r)); [right; reflexivity|].
      destruct (after_prefix (u "Infinity") (c :: r)); [right; reflexivity|].
      destruct (after_prefix (u "-Infinity") (c :: r)); right; reflexivity.
    + cbn [array_loop_in array_loop].
      pose proof (IHs room s) as H. limit_cases H.
      destruct (scan_once fuel s) as [[v r]|]; cbn [decoded]; [|right; reflexivity].
      destruct (skip_ws r) as [|c r1]; [right; reflexivity|].
      destruct (c =? 93)%N; [right; reflexivity|].
      destruct (c =? 44)%N; [|right; reflexivity].
      pose proof (IHa room (skip_ws r1)) as H'. limit_cases H'.
      destruct (array_loop fuel (skip_ws r1)) as [[vs rest]|]; right; reflexivity.
    + cbn [object_loop_in object_loop].
      destruct (scanstring s) as [[key r]|]; [|right; reflexivity].
      destruct (skip_ws r) as [|c r1]; [right; reflexivity|].
      destruct (c =? 58)%N; [|right; reflexivity].
      pose proof (IHs room (skip_ws r1)) as H. limit_cases H.
      destruct (scan_once fuel (skip_ws r1)) as [[v r2]|]; cbn [decoded];
        [|right; reflexivity].
      destruct (skip_ws r2) as [|c2 r3]; [right; reflexivity|].
      destruct (c2 =? 125)%N; [right; reflexivity|].
      destruct (c2 =? 44)%N; [|right; reflexivity].
      destruct (skip_ws r3) as [|c3 r4]; [right; reflexivity|].
      destruct (c3 =? 34)%N; [|right; reflexivity].
      pose proof (IHo room r4) as H'. limit_cases H'.
      destruct (object_loop fuel r4) as [[ps rest]|]; right; reflexivity.
Qed.

(** Under any interpreter [json.loads] does what it does without
    limits, unless a limit is reached. *)
Lemma loads_in_agrees py s : unless_limit_hit (loads_in py s) (loads s).
Proof.
  unfold loads_in, loads. destruct (has_bom s); [right; reflexivity|].
  pose proof (proj1 (scanners_agree py (2 * List.length s))
                (recursion_room py) (skip_ws s)) as H.
  limit_cases H.
  destruct (scan_once (2 * List.length s) (skip_ws s)) as [[v rest]|];
    cbn [decoded]; [|right; reflexivity].
  destruct (skip_ws rest); right; reflexivity.
Qed.

(** An integer of too many digits. *)
Lemma ones_digits n : digits_only (repeat 49%N n).
Proof.
  apply Forall_forall. intros c Hc. apply repeat_spec in Hc. subst c. reflexivity.
Qed.

Lemma match_number_in_too_long py n :
  0 < int_max_str_digits py < S n -> 640 < S n ->
  match_number_in py (repeat 49%N (S n) ++ [10%N]) = Raise ValueError.
Proof.
  intros Hd Hn. unfold match_number_in.
  change (repeat 49%N (S n) ++ [10%N]) with ((49%N :: repeat 49%N n) ++ [10%N]).
  cbn [List.app N.eqb Pos.eqb].
  change (49%N :: repeat 49%N n ++ [10%N]) with ((49%N :: repeat 49%N n) ++ [10%N]).
  rewrite scan_integer_run by (try lia; auto using ones_digits).
  rewrite scan_frac_stop, scan_exp_stop by reflexivity.
  unfold too_many_digits. cbn [List.length]. rewrite repeat_length.
  destruct (Nat.ltb_spec 640 (S n)); [|lia].
  destruct (Nat.ltb_spec 0 (int_max_str_digits py)); [|lia].
  destruct (Nat.ltb_spec (int_max_str_digits py) (S n)); [|lia].
  reflexivity.
Qed.

(** One list more than the interpreter has room for. *)
Lemma scan_once_in_too_deep py room : forall fuel rest,
  2 * room < fuel ->
  scan_once_in py fuel room (repeat 91%N (S room) ++ rest) = Raise RecursionError.
Proof.
  induction room as [|room IH]; intros fuel rest Hf.
  - destruct fuel as [|fuel]; [lia|]. reflexivity.
  - destruct fuel as [|[|fuel]]; [lia|lia|].
    change (repeat 91%N (S (S room)) ++ rest)
      with (91%N :: 91%N :: (repeat 91%N room ++ rest)).
    cbn [scan_once_in N.eqb Pos.eqb skip_ws is_ws orb array_loop_in].
    change (91%N :: repeat 91%N room ++ rest)
      with (repeat 91%N (S room) ++ rest).
    rewrite IH by lia. reflexivity.
Qed.


(* ================================================================== *)
(** * Framing                                                          *)
(* ================================================================== *)

Import Net.

Lemma frame_ascii msg : ascii_only (dumps [44%N] [58%N] msg ++ [10%N]).
Proof.
  apply ascii_app; [apply dumps_ascii; ascii_lit | ascii_lit].
Qed.

(** [encode_msg] never raises. *)
Lemma encode_msg_frame msg : encode_msg msg = Return (frame msg).
Proof.
  unfold encode_msg, str_encode.
  change (u ",") with [44%N]. change (u ":") with [58%N].
  change (u (String "010" EmptyString)) with [10%N].
  rewrite utf8_encode_ascii by apply frame_ascii. reflexivity.
Qed.

Lemma frame_not_empty msg : frame msg <> [].
Proof.
  unfold frame. intros E. apply map_eq_nil in E.
  apply app_eq_nil in E as [_ E]. discriminate E.
Qed.

Lemma read_frame msg :
  plain msg = true -> read_msg_of (Return (frame msg)) = Return msg.
Proof.
  intros Hp. unfold read_msg_of.
  destruct (frame msg) as [|b bs] eqn:E; [exfalso; exact (frame_not_empty msg E)|].
  rewrite <- E. unfold bytes_decode, frame.
  rewrite utf8_decode_ascii by apply frame_ascii.
  cbn [obind]. unfold json_loads. rewrite loads_dumps by assumption.
  reflexivity.
Qed.

Lemma plain_round_trip m : plain m = true -> round_trip m.
Proof.
  intros Hp. exists (frame m). split; [apply encode_msg_frame|].
  cbn [read_msg]. rewrite read_frame by assumption. reflexivity.
Qed.

(** C3.  Decoding the encoding of a message gives the message back:
    for every plain value [m] (floats other than [nan] included),
    [encode_msg m] returns bytes from which [read_msg] returns [m]
    itself.  In particular for each message the program sends: [hello],
    [add] with a plain entry, [ack] with a text title, and [sync] with
    plain fields, also when its track is [None]. *)
Theorem decode_encode_round_trip :
  (forall m, plain m = true -> round_trip m) /\
  round_trip hello /\
  (forall entry, plain entry = true -> round_trip (add entry)) /\
  (forall title, text title = true -> round_trip (ack (VStr title))) /\
  (forall queue track position duration paused,
      plain queue = true -> plain track = true -> plain position = true ->
      plain duration = true -> plain paused = true ->
      round_trip (sync queue track position duration paused)) /\
  (forall queue position duration paused,
      plain queue = true -> plain position = true ->
      plain duration = true -> plain paused = true ->
      round_trip (sync queue VNone position duration paused)).
Proof.
  assert (Hadd : forall entry, plain entry = true -> plain (add entry) = true).
  { intros entry H. unfold add. rewrite plain_dict. cbn. rewrite H. reflexivity. }
  assert (Hack : forall title, text title = true -> plain (ack (VStr title)) = true).
  { intros title H. unfold ack. rewrite plain_dict. cbn. rewrite H. reflexivity. }
  assert (Hsync : forall q t p d z,
             plain q = true -> plain t = true -> plain p = true ->
             plain d = true -> plain z = true -> plain (sync q t p d z) = true).
  { intros q t p d z Hq Ht Hp Hd Hz. unfold sync. rewrite plain_dict. cbn.
    rewrite Hq, Ht, Hp, Hd, Hz. reflexivity. }
  repeat split.
  - exact plain_round_trip.
  - apply plain_round_trip. reflexivity.
  - intros. apply plain_round_trip. auto.
  - intros. apply plain_round_trip. auto.
  - intros. apply plain_round_trip. auto.
  - intros. apply plain_round_trip. apply Hsync; auto.
Qed.

(** At the snapshot of a host 12.5 seconds into a track of 200.4. *)
Lemma round_trip_witness :
  round_trip (sync (VList []) VNone (VFloat (FDec false 125 (-1)))
                (VFloat (FDec false 2004 (-1))) (VBool false)).
Proof.
  exact (proj1 decode_encode_round_trip
               (sync (VList []) VNone (VFloat (FDec false 125 (-1)))
                  (VFloat (FDec false 2004 (-1))) (VBool false))
               eq_refl).
Defined.

(** ** [read_msg] *)

Lemma read_msg_of_line l :
  exists v, read_msg_of (Return l) = Return v.
Proof.
  unfold read_msg_of. destruct l as [|b bs]; [eauto|].
  unfold bytes_decode. destruct (Utf8.decode (b :: bs)) as [s|]; cbn [obind].
  - unfold json_loads. destruct (loads s); [eexists|exists VNone]; reflexivity.
  - exists VNone. reflexivity.
Qed.

(** With [json.loads] run without the limits of an interpreter,
    [read_msg] returns whatever line the stream delivers; it returns
    [None] on an empty line, on bytes that are not UTF-8, on text that is
    not JSON, when the read times out or the connection fails, and at the
    end of the stream.  The last three lines are a frame cut off after
    eleven bytes, a line of plain garbage and a line with a byte that no
    UTF-8 text contains. *)
Lemma read_msg_without_limits :
  (forall l, exists v, read_msg_of (Return l) = Return v) /\
  read_msg_of (Return []) = Return VNone /\
  (forall l, Utf8.decode l = None -> read_msg_of (Return l) = Return VNone) /\
  (forall l s, Utf8.decode l = Some s -> loads s = None ->
               read_msg_of (Return l) = Return VNone) /\
  (forall e, caught e [AsyncTimeoutError; ConnectionError; OSError] = true ->
             read_msg_of (Raise e) = Return VNone) /\
  read_msg [] = (Return VNone, []) /\
  read_msg_of (Return (firstn 11 (frame (add (VDict []))))) = Return VNone /\
  read_msg_of (Return (line "garbage")) = Return VNone /\
  read_msg_of (Return [xff; x0a]) = Return VNone.
Proof.
  split; [exact read_msg_of_line|].
  split; [reflexivity|].
  split.
  { intros l H. unfold read_msg_of, bytes_decode. rewrite H.
    destruct l; reflexivity. }
  split.
  { intros l s H1 H2. unfold read_msg_of, bytes_decode, json_loads. rewrite H1.
    cbn [obind]. rewrite H2. destruct l; reflexivity. }
  split.
  { intros e H. unfold read_msg_of. rewrite H. reflexivity. }
  repeat split; vm_compute; reflexivity.
Qed.

(** ** [read_msg] as an interpreter runs it *)

Lemma nested_text n :
  bytes_decode (nested n) = Return (repeat 91%N n ++ [10%N]).
Proof.
  unfold bytes_decode, nested.
  replace (repeat x5b n ++ [x0a])
    with (map Utf8.byte_of (repeat 91%N n ++ [10%N]))
    by (rewrite map_app, map_repeat; reflexivity).
  rewrite utf8_decode_ascii; [reflexivity|].
  apply ascii_app; [|repeat constructor].
  apply Forall_forall. intros c Hc. apply repeat_spec in Hc. subst c. reflexivity.
Qed.

Lemma number_in_a_list_text n :
  bytes_decode (number_in_a_list n)
  = Return (91%N :: repeat 49%N n ++ [10%N]).
Proof.
  unfold bytes_decode, number_in_a_list.
  replace (x5b :: repeat x31 n ++ [x0a])
    with (map Utf8.byte_of (91%N :: repeat 49%N n ++ [10%N]))
    by (cbn [map]; rewrite map_app, map_repeat; reflexivity).
  rewrite utf8_decode_ascii; [reflexivity|].
  apply ascii_cons; [reflexivity|].
  apply ascii_app; [|repeat constructor].
  apply Forall_forall. intros c Hc. apply repeat_spec in Hc. subst c. reflexivity.
Qed.

(** A line nested one list deeper than the interpreter has room for. *)
Lemma read_msg_of_in_too_deep py :
  read_msg_of_in py (Return (nested (S (recursion_room py))))
  = Raise RecursionError.
Proof.
  unfold read_msg_of_in.
  change (nested (S (recursion_room py)))
    with (x5b :: (repeat x5b (recursion_room py) ++ [x0a])) at 1.
  cbv iota.
  change (x5b :: (repeat x5b (recursion_room py) ++ [x0a]))
    with (nested (S (recursion_room py))).
  rewrite nested_text. cbn [obind]. unfold json_loads_in, loads_in.
  change (has_bom (repeat 91%N (S (recursion_room py)) ++ [10%N])) with false.
  cbv iota.
  change (skip_ws (repeat 91%N (S (recursion_room py)) ++ [10%N]))
    with (repeat 91%N (S (recursion_room py)) ++ [10%N]).
  rewrite scan_once_in_too_deep; [reflexivity|].
  rewrite length_app, repeat_length. cbn [List.length]. lia.
Qed.

(** A list that starts with more digits than [int] converts. *)
Lemma read_msg_of_in_too_long py n :
  0 < recursion_room py -> 0 < int_max_str_digits py < n -> 640 < n ->
  read_msg_of_in py (Return (number_in_a_list n)) = Raise ValueError.
Proof.
  intros Hr Hd Hn. destruct n as [|n]; [lia|].
  unfold read_msg_of_in.
  change (number_in_a_list (S n))
    with (x5b :: (repeat x31 (S n) ++ [x0a])) at 1.
  cbv iota.
  change (x5b :: (repeat x31 (S n) ++ [x0a])) with (number_in_a_list (S n)).
  rewrite number_in_a_list_text. cbn [obind]. unfold json_loads_in, loads_in.
  change (has_bom (91%N :: repeat 49%N (S n) ++ [10%N])) with false.
  cbv iota.
  change (skip_ws (91%N :: repeat 49%N (S n) ++ [10%N]))
    with (91%N :: repeat 49%N (S n) ++ [10%N]).
  destruct (recursion_room py) as [|room]; [lia|].
  cbn [List.length]. rewrite length_app, repeat_length. cbn [List.length].
  replace (2 * S (S n + 1)) with (S (S (S (2 * n + 3)))) by lia.
  cbn [scan_once_in N.eqb Pos.eqb].
  change (repeat 49%N (S n) ++ [10%N]) with (49%N :: (repeat 49%N n ++ [10%N])).
  cbn [skip_ws is_ws orb N.eqb Pos.eqb array_loop_in scan_once_in].
  unfold keyword_in at 1 2 3.
  cbn [after_prefix u list_ascii_of_string map N_of_ascii N.eqb Pos.eqb].
  change (49%N :: (repeat 49%N n ++ [10%N])) with (repeat 49%N (S n) ++ [10%N]).
  rewrite match_number_in_too_long by lia. reflexivity.
Qed.

(** [read_msg] does what it does without limits, unless [json.loads]
    reaches one. *)
Lemma read_msg_of_in_agrees py got :
  read_msg_of_in py got = read_msg_of got \/ limit_hit (read_msg_of_in py got).
Proof.
  destruct got as [[|b line]|e]; try (left; reflexivity).
  unfold read_msg_of_in, read_msg_of.
  destruct (bytes_decode (b :: line)) as [s|e]; [|left; reflexivity].
  cbn [obind]. unfold json_loads_in, json_loads.
  destruct (loads_in_agrees py s) as [[H|H]|H]; rewrite H.
  - right. left. reflexivity.
  - right. right. reflexivity.
  - left. destruct (loads s); reflexivity.
Qed.

(** C8, the failing inputs.  [read_msg] raises on some garbage lines:
    [json.loads] raises [RecursionError] at a line of opening brackets
    nested one deeper than the interpreter has room for, and
    [ValueError] at an unclosed list that starts with more digits than
    [int] converts (more than the limit and more than 640); the handler
    of [read_msg] names [json.JSONDecodeError] and [UnicodeDecodeError]
    only, so neither is caught.  With the defaults of CPython (4300
    digits, a recursion limit of 1000) a line of 2000 brackets and a
    list that starts with 4301 digits do it.  Neither line is JSON:
    without the limits [read_msg] returns [None] on both.  Under every
    interpreter and on every input [read_msg] does what it does without
    limits or raises one of these two exceptions. *)
Theorem read_msg_raises_at_the_limits_of_the_interpreter :
  (forall py,
      read_msg_of_in py (Return (nested (S (recursion_room py))))
      = Raise RecursionError) /\
  (forall py n,
      0 < recursion_room py -> 0 < int_max_str_digits py < n -> 640 < n ->
      read_msg_of_in py (Return (number_in_a_list n)) = Raise ValueError) /\
  read_msg_of_in cpython (Return (nested 2000)) = Raise RecursionError /\
  read_msg_of_in cpython (Return (number_in_a_list 4301)) = Raise ValueError /\
  read_msg_of (Return (nested 2000)) = Return VNone /\
  read_msg_of (Return (number_in_a_list 4301)) = Return VNone /\
  (forall py got,
      read_msg_of_in py got = read_msg_of got \/
      read_msg_of_in py got = Raise ValueError \/
      read_msg_of_in py got = Raise RecursionError).
Proof.
  split; [exact read_msg_of_in_too_deep|].
  split; [exact read_msg_of_in_too_long|].
  split; [vm_compute; reflexivity|].
  split; [vm_compute; reflexivity|].
  split; [vm_compute; reflexivity|].
  split; [vm_compute; reflexivity|].
  intros py got. destruct (read_msg_of_in_agrees py got) as [H|[H|H]]; tauto.
Qed.

(** At CPython's defaults and a list that starts with 4301 digits. *)
Lemma read_msg_limits_witness :
  read_msg_of_in cpython (Return (number_in_a_list 4301)) = Raise ValueError.
Proof.
  apply (proj1 (proj2 read_msg_raises_at_the_limits_of_the_interpreter));
    [|split|]; apply Nat.ltb_lt; vm_compute; reflexivity.
Defined.

(** ** Frames that are not objects *)

Lemma handle_loop_step l msg rest w :
  read_msg_of (Return l) = Return msg -> is_none msg = false ->
  handle_loop (Return l :: rest) w = (_process msg w ;;; handle_loop rest w)%py.
Proof.
  intros H Hn. cbn [handle_loop read_msg fst]. rewrite H, Hn. reflexivity.
Qed.

(** C10.  A line that is JSON but not an object is not turned into
    [None]: [read_msg] returns the number [5] for the line [5] and a list
    for the line [[1,2]].  The handler loop of the server hands whatever
    [read_msg] returned, if it is not [None], to [_process]; for the
    number [5] the call [msg.get] inside it raises [AttributeError], which
    ends the handler.  The client's [listen] calls [msg.get] on it too. *)
Theorem non_object_frame_is_passed_on :
  read_msg_of (Return (line "5")) = Return (VInt 5) /\
  read_msg_of (Return (line "[1,2]")) = Return (VList [VInt 1; VInt 2]) /\
  (forall l msg rest w,
      read_msg_of (Return l) = Return msg -> is_none msg = false ->
      handle_loop (Return l :: rest) w
      = (_process msg w ;;; handle_loop rest w)%py) /\
  (forall w s, _process (VInt 5) w s = (Raise AttributeError, s)) /\
  (forall task rest w s,
      close_error (snd s) w = None ->
      fst (_handle_client task (Return (line "5") :: rest) w s)
      = Raise AttributeError) /\
  (forall rest s,
      _connected (fst s) = true ->
      _reader (fst s) = Some (Return (line "5") :: rest) ->
      fst (listen s) = Raise AttributeError).
Proof.
  assert (H5 : read_msg_of (Return (line "5")) = Return (VInt 5))
    by (vm_compute; reflexivity).
  split; [exact H5|].
  split; [vm_compute; reflexivity|].
  split; [exact handle_loop_step|].
  split; [reflexivity|].
  split.
  - intros task rest w [[cl oa] [tr we de ce oc]] Hc. cbn [snd close_error] in Hc.
    unfold _handle_client, bind, set_clients, set_self, modify, try_finally, try_except.
    rewrite (handle_loop_step _ _ rest w H5 eq_refl).
    unfold bind at 1. cbn [_process lift py_get bind fst snd caught existsb].
    unfold close_writer. simpl. rewrite Hc. reflexivity.
  - intros rest [[r wr c os] env] Hc Hr. cbn [fst _connected _reader] in Hc, Hr.
    subst c r.
    unfold listen, bind, self, gets. cbn [fst _reader].
    cbn [listen_loop]. unfold bind, self, gets. cbn [fst _connected].
    unfold set_reader, set_self, modify. cbn [read_msg fst]. rewrite H5.
    reflexivity.
Qed.

(** At the line [5]: the loop calls [_process] with the number. *)
Lemma non_object_frame_witness :
  handle_loop [Return (line "5")] 7
  = (_process (VInt 5) 7 ;;; handle_loop [] 7)%py.
Proof.
  exact (proj1 (proj2 (proj2 non_object_frame_is_passed_on))
               (line "5") (VInt 5) [] 7
               (proj1 non_object_frame_is_passed_on) eq_refl).
Defined.

(** ** [_process] *)

Lemma add_type entry : py_get (add entry) (u "type") = Return (VStr (u "add")).
Proof. reflexivity. Qed.

Lemma add_entry entry : py_get (add entry) (u "entry") = Return entry.
Proof. reflexivity. Qed.

Lemma add_item entry : py_getitem (add entry) (u "entry") = Return entry.
Proof. reflexivity. Qed.

Lemma is_str_add : is_str (u "add") (VStr (u "add")) = true.
Proof. reflexivity. Qed.

(** C1, as amended.  For an [add] message processed by [_process] on a
    transport that accepts the write: if the entry is a dict that holds
    the keys [id] and [title], whatever their values, then [on_add(entry)]
    is called (when a callback is installed) and after it an [ack] with
    the entry's title is written back; otherwise nothing is called and
    nothing is written. *)
Theorem process_add_checks_key_presence :
  forall entry w s,
    write_error (snd s) w = None ->
    if has_required_keys entry then
      exists title data,
        py_get entry (u "title") = Return title /\
        encode_msg (ack title) = Return data /\
        _process (add entry) w s
        = (Return tt,
           (fst s,
            log (Wrote w data)
                (if on_add (fst s) then log (OnAdd entry) (snd s) else snd s)))
    else _process (add entry) w s = (Return tt, s).
Proof.
  intros entry w [o env] Hw. cbn [fst snd] in *.
  unfold _process. rewrite add_type. cbn [bind lift]. rewrite is_str_add.
  rewrite add_entry. cbn [bind lift ret].
  destruct entry as [| b | z | f | t | l | d]; try reflexivity.
  cbn [has_required_keys is_dict]. rewrite add_item. cbn [bind lift ret py_in].
  destruct (dict_contains str_eqb (u "id") d) eqn:Hid; cbn [andb ret bind lift];
    [|reflexivity].
  destruct (dict_contains str_eqb (u "title") d) eqn:Htitle; cbn [ret bind];
    [|reflexivity].
  unfold dict_contains in Htitle.
  destruct (dict_get str_eqb (u "title") d) as [title|] eqn:Hget; [|discriminate].
  exists title, (frame (ack title)).
  split; [cbn [py_get]; rewrite Hget; reflexivity|].
  split; [apply encode_msg_frame|].
  unfold self, gets, when, try_except. cbn [fst snd bind].
  destruct (on_add o); unfold emit, modify, ret, bind, lift, py_get_default;
    cbn [fst snd]; rewrite Hget, encode_msg_frame; unfold write;
    cbn [fst snd log write_error]; rewrite Hw; reflexivity.
Qed.

(** C1 as stated fails: an entry whose [id] and [title] are both the empty
    string passes the check, [on_add] is called with it and the [ack] is
    written. *)
Lemma empty_fields_are_accepted :
  let entry := VDict [(u "id", VStr []); (u "title", VStr [])] in
  let s := ({| _clients := []; on_add := true |}, quiet) in
  has_required_keys entry = true /\
  trace (snd (snd (_process (add entry) 7 s)))
  = [OnAdd entry; Wrote 7 (frame (ack (VStr [])))].
Proof. split; vm_compute; reflexivity. Qed.

(** At a well-formed entry, with the callback installed. *)
Lemma process_add_witness :
  let entry := VDict [(u "id", VStr (u "x")); (u "title", VStr (u "Song"))] in
  let s := ({| _clients := [(1, 7)]; on_add := true |}, quiet) in
  exists title data,
    py_get entry (u "title") = Return title /\
    encode_msg (ack title) = Return data /\
    _process (add entry) 7 s
    = (Return tt, (fst s, log (Wrote 7 data) (log (OnAdd entry) (snd s)))).
Proof.
  exact (process_add_checks_key_presence
           (VDict [(u "id", VStr (u "x")); (u "title", VStr (u "Song"))]) 7
           ({| _clients := [(1, 7)]; on_add := true |}, quiet) eq_refl).
Defined.

(** ** [broadcast] *)

Lemma logs_trace es env : trace (logs es env) = trace env ++ es.
Proof.
  revert env. induction es as [|e es IH]; intros env; cbn [logs fold_left].
  - rewrite List.app_nil_r. reflexivity.
  - fold (logs es (log e env)). rewrite IH. cbn [log trace].
    rewrite <- List.app_assoc. reflexivity.
Qed.

Lemma broadcast_pass_spec data items :
  forall dead o env,
    (forall c e, In c items -> write_error env (snd c) = Some e ->
                 caught e [ConnectionError; OSError] = true) ->
    broadcast_pass data items dead (o, env)
    = (Return (dead ++ map fst (filter (fun c => negb (alive env c)) items)),
       (o, logs (map (fun c => Wrote (snd c) data) (filter (alive env) items)) env)).
Proof.
  induction items as [|[t w] items IH]; intros dead o env Herr.
  - cbn. rewrite List.app_nil_r. reflexivity.
  - cbn [broadcast_pass filter]. unfold bind at 1. unfold try_except.
    unfold bind at 1. unfold write. cbn [fst snd].
    destruct (write_error env w) as [e|] eqn:Hw.
    + assert (Ha : alive env (t, w) = false) by (unfold alive; cbn [snd]; rewrite Hw; reflexivity).
      rewrite Ha. cbn [negb map fst].
      rewrite (Herr (t, w) e (or_introl eq_refl) Hw). cbn [ret].
      rewrite IH by (intros c e' Hin; apply Herr; right; assumption).
      rewrite <- List.app_assoc. reflexivity.
    + assert (Ha : alive env (t, w) = true) by (unfold alive; cbn [snd]; rewrite Hw; reflexivity).
      rewrite Ha. cbn [emit modify fst snd ret negb map logs fold_left].
      rewrite (IH dead o (log (Wrote w data) env)).
      * reflexivity.
      * intros c e' Hin. apply Herr. right. assumption.
Qed.

Lemma prune_spec dead :
  forall o env,
    prune dead (o, env)
    = (Return tt,
       (with_clients (fold_left (fun cl t => dict_pop Nat.eqb t cl) dead (_clients o)) o,
        env)).
Proof.
  induction dead as [|t dead IH]; intros [cl oa] env.
  - reflexivity.
  - cbn [prune]. unfold bind, set_clients, set_self, modify. cbn [fst snd].
    rewrite IH. reflexivity.
Qed.

Lemma dict_pop_middle (pre : list (Task * StreamWriter)) t w rest :
  ~ In t (map fst pre) ->
  dict_pop Nat.eqb t (pre ++ (t, w) :: rest) = pre ++ rest.
Proof.
  induction pre as [|[t' w'] pre IH]; intros Hn; cbn [List.app dict_pop].
  - rewrite Nat.eqb_refl. reflexivity.
  - destruct (Nat.eqb_spec t t') as [->|_].
    + exfalso. apply Hn. left. reflexivity.
    + rewrite IH; [reflexivity|]. intros Hin. apply Hn. right. assumption.
Qed.

Lemma pops_are_filter (bad : Task * StreamWriter -> bool) cl :
  forall pre,
    NoDup (map fst (pre ++ cl)) ->
    fold_left (fun cl t => dict_pop Nat.eqb t cl) (map fst (filter bad cl)) (pre ++ cl)
    = pre ++ filter (fun c => negb (bad c)) cl.
Proof.
  induction cl as [|[t w] cl IH]; intros pre Hnd.
  - reflexivity.
  - cbn [filter]. destruct (bad (t, w)) eqn:Hb; cbn [negb map fst fold_left].
    + rewrite dict_pop_middle.
      * apply IH. rewrite map_app in *. cbn [map fst] in Hnd.
        apply NoDup_remove_1 in Hnd. assumption.
      * rewrite map_app in Hnd. cbn [map fst] in Hnd.
        apply NoDup_remove_2 in Hnd. intros Hin. apply Hnd.
        apply in_or_app. left. assumption.
    + change (pre ++ (t, w) :: cl) with (pre ++ [(t, w)] ++ cl).
      rewrite List.app_assoc. rewrite IH.
      * rewrite <- List.app_assoc. reflexivity.
      * rewrite <- List.app_assoc. assumption.
Qed.

Lemma filter_length_split {A} (f : A -> bool) l :
  List.length (filter f l) + List.length (filter (fun x => negb (f x)) l)
  = List.length l.
Proof.
  induction l as [|x l IH]; [reflexivity|].
  cbn [filter]. destruct (f x); cbn [negb List.length]; lia.
Qed.

(** C5.  With a registry of distinct tasks whose failing writes fail
    with [ConnectionError] or [OSError]: [broadcast] encodes the message
    once, into [data]; the pass over the registry leaves the registry as
    it is; afterwards the registry holds exactly the connections whose
    write went through, each of which was handed [data]; and when exactly
    one write failed, [client_count] has gone down by one. *)
Theorem broadcast_prunes_after_the_pass :
  forall msg s,
    NoDup (map fst (_clients (fst s))) ->
    (forall c e, In c (_clients (fst s)) -> write_error (snd s) (snd c) = Some e ->
                 caught e [ConnectionError; OSError] = true) ->
    let kept := filter (alive (snd s)) (_clients (fst s)) in
    exists data,
      encode_msg msg = Return data /\
      (forall dead,
          fst (snd (broadcast_pass data (_clients (fst s)) dead s)) = fst s) /\
      broadcast msg s
      = (Return tt,
         (with_clients kept (fst s),
          logs (map (fun c => Wrote (snd c) data) kept) (snd s))) /\
      (forall c, In c kept ->
                 In (Wrote (snd c) data) (trace (snd (snd (broadcast msg s))))) /\
      (List.length (filter (fun c => negb (alive (snd s) c)) (_clients (fst s))) = 1 ->
       client_count (snd (broadcast msg s)) = client_count s - 1).
Proof.
  intros msg [[cl oa] env] Hnd Herr kept. cbn [fst snd _clients] in *.
  exists (frame msg). split; [apply encode_msg_frame|].
  split.
  { intros dead. rewrite broadcast_pass_spec by assumption. reflexivity. }
  assert (Hb : broadcast msg ({| _clients := cl; on_add := oa |}, env)
               = (Return tt,
                  (with_clients kept {| _clients := cl; on_add := oa |},
                   logs (map (fun c => Wrote (snd c) (frame msg)) kept) env))).
  { unfold broadcast, bind at 1, self, gets. cbn [fst _clients]. subst kept.
    destruct cl as [|c cl]; [reflexivity|].
    unfold bind at 1, lift. rewrite encode_msg_frame.
    unfold bind. rewrite broadcast_pass_spec by assumption.
    rewrite prune_spec. cbn [List.app _clients].
    pose proof (pops_are_filter (fun c => negb (alive env c)) (c :: cl) [] Hnd) as Hp.
    cbn [List.app] in Hp. rewrite Hp.
    replace (filter (fun c => negb (negb (alive env c))) (c :: cl))
      with (filter (alive env) (c :: cl)); [reflexivity|].
    apply filter_ext. intros a. symmetry. apply negb_involutive. }
  split; [exact Hb|].
  split.
  { intros c Hc. rewrite Hb. cbn [snd]. rewrite logs_trace.
    apply in_or_app. right.
    apply (in_map (fun c => Wrote (snd c) (frame msg))). exact Hc. }
  intros Hone. rewrite Hb. unfold client_count. cbn [fst snd with_clients _clients].
  pose proof (filter_length_split (alive env) cl). subst kept. lia.
Qed.

Lemma three_peers_distinct : NoDup (map fst (_clients (fst three_peers))).
Proof.
  repeat constructor; cbn; intuition discriminate.
Defined.

Lemma three_peers_faults :
  forall c e,
    In c (_clients (fst three_peers)) ->
    write_error (snd three_peers) (snd c) = Some e ->
    caught e [ConnectionError; OSError] = true.
Proof.
  intros c e [<-|[<-|[<-|[]]]] H; cbn in H; try discriminate H.
  injection H as <-. reflexivity.
Defined.

(** At three peers of which the second has a broken transport: the two
    others are left, with the same bytes. *)
Lemma broadcast_witness :
  exists data,
    encode_msg hello = Return data /\
    fst (broadcast hello three_peers) = Return tt /\
    _clients (fst (snd (broadcast hello three_peers))) = [(1, 10); (3, 30)] /\
    trace (snd (snd (broadcast hello three_peers)))
    = [Wrote 10 data; Wrote 30 data] /\
    client_count (snd (broadcast hello three_peers)) = 2.
Proof.
  destruct (broadcast_prunes_after_the_pass
              hello three_peers three_peers_distinct three_peers_faults)
    as (data & He & _ & Hb & _ & Hc).
  exists data. rewrite Hb. repeat split; assumption || reflexivity.
Defined.

(** ** [connect] *)

Lemma connect_unreachable s e :
  open_connection (snd s) = Raise e ->
  caught e [OSError; AsyncTimeoutError] = true ->
  connect s = (Return false, s).
Proof.
  intros Ho Hc. unfold connect, try_except, bind at 1. rewrite Ho, Hc. reflexivity.
Qed.

(** C4, the failing input.  The host accepts the connection and resets
    it before the [hello] frame is flushed: [drain] raises
    [ConnectionResetError], [connect] returns [False], and [connected] is
    [True], because the flag was set before the write and the handler
    does not clear it. *)
Theorem connect_false_but_connected :
  fst (connect (fresh_client, resets_on_drain)) = Return false /\
  connected (snd (connect (fresh_client, resets_on_drain))) = true.
Proof. split; vm_compute; reflexivity. Qed.

(* ================================================================== *)
(** * [net.py]: further properties                                    *)
(* ================================================================== *)

Lemma printable_app a b : printable a -> printable b -> printable (a ++ b).
Proof. intros Ha Hb. apply Forall_app. split; assumption. Qed.

Lemma hex_digit_printable n : (n < 16)%N -> (32 <= hex_digit n <= 126)%N.
Proof. intros H. unfold hex_digit. destruct (N.ltb_spec n 10); lia. Qed.

Lemma u_escape_printable c : (c < 65536)%N -> printable (u_escape c).
Proof.
  intros H. unfold u_escape.
  repeat (apply Forall_cons; [try lia|]); try apply Forall_nil;
    apply hex_digit_printable.
  - apply N.Div0.div_lt_upper_bound. lia.
  - apply N.mod_lt. lia.
  - apply N.mod_lt. lia.
  - apply N.mod_lt. lia.
Qed.

Lemma escape_char_printable c : printable (escape_char c).
Proof.
  unfold escape_char.
  repeat match goal with
         | |- context [N.eqb c ?k] => destruct (N.eqb_spec c k); [printable_lit|]
         end.
  destruct (N.leb_spec 32 c); cbn [andb].
  - destruct (N.leb_spec c 126).
    + apply Forall_cons; [lia|apply Forall_nil].
    + destruct (N.ltb_spec c 65536).
      * apply u_escape_printable. assumption.
      * cbv zeta. apply printable_app; apply u_escape_printable.
        -- assert ((c - 65536) / 1024 mod 1024 < 1024)%N by (apply N.mod_lt; lia). lia.
        -- assert ((c - 65536) mod 1024 < 1024)%N by (apply N.mod_lt; lia). lia.
  - destruct (N.ltb_spec c 65536); [|lia]. apply u_escape_printable. assumption.
Qed.

Lemma encode_basestring_printable s : printable (encode_basestring_ascii s).
Proof.
  unfold encode_basestring_ascii. cbn [List.app]. apply Forall_cons; [lia|].
  apply printable_app; [|printable_lit].
  induction s as [|c s IH]; [apply Forall_nil|].
  cbn [flat_map]. apply printable_app; [apply escape_char_printable|assumption].
Qed.

Lemma digits_printable s : digits_only s -> printable s.
Proof.
  intros H. eapply Forall_impl; [|exact H].
  intros c Hc. unfold is_digit in Hc. apply andb_true_iff in Hc as [H1 H2].
  apply N.leb_le in H1, H2. lia.
Qed.

Lemma int_repr_printable z : printable (int_repr z).
Proof.
  destruct z; cbn [int_repr]; [printable_lit | |].
  - apply digits_printable, uint_chars_digits.
  - apply Forall_cons; [lia|]. apply digits_printable, uint_chars_digits.
Qed.

Lemma float_repr_printable f : printable (float_repr f).
Proof.
  destruct f as [|[|]|neg mant exp]; cbn [float_repr];
    try (unfold u; cbn; printable_lit; fail).
  cbv zeta.
  pose proof (digits_printable _ (uint_chars_digits (N.to_uint mant))) as Hd.
  set (ds := uint_chars (N.to_uint mant)) in *. clearbody ds.
  apply printable_app; [destruct neg; printable_lit|].
  destruct (mant =? 0)%N; [unfold u; cbn; printable_lit|].
  destruct ((-4 <? Z.of_nat (Datatypes.length ds) + exp)%Z &&
            (Z.of_nat (Datatypes.length ds) + exp <=? 16)%Z).
  - destruct (Z.of_nat (Datatypes.length ds) + exp <=? 0)%Z.
    + apply printable_app; [unfold u; cbn; printable_lit|].
      apply printable_app; [apply digits_printable, zeros_digits|assumption].
    + destruct (Z.of_nat (Datatypes.length ds) <=? Z.of_nat (Datatypes.length ds) + exp)%Z.
      * apply printable_app; [assumption|].
        apply printable_app; [apply digits_printable, zeros_digits|unfold u; cbn; printable_lit].
      * rewrite <- (firstn_skipn (Z.to_nat (Z.of_nat (Datatypes.length ds) + exp)) ds) in Hd.
        apply Forall_app in Hd as [H1 H2].
        apply printable_app; [exact H1|].
        apply printable_app; [printable_lit|exact H2].
  - apply printable_app.
    { apply Forall_cons; [|apply Forall_nil]. destruct ds; [cbn; lia|].
      inversion Hd; assumption. }
    apply printable_app.
    { destruct ds as [|c [|c' t]]; cbn [tl]; try apply Forall_nil.
      inversion Hd; subst. apply Forall_cons; [lia|assumption]. }
    apply printable_app; [printable_lit|].
    apply printable_app; [destruct (_ <? 0)%Z; printable_lit|].
    pose proof (digits_printable _ (uint_chars_digits
      (N.to_uint (Z.abs_N (Z.of_nat (Datatypes.length ds) + exp - 1))))) as He.
    destruct (uint_chars _) as [|a [|b t]]; try assumption.
    apply Forall_cons; [lia|assumption].
Qed.

Lemma join_printable sep texts :
  printable sep -> Forall printable texts -> printable (join sep texts).
Proof.
  intros Hs. induction texts as [|x [|y ys] IH]; intros H.
  - apply Forall_nil.
  - rewrite join_one. inversion H; assumption.
  - rewrite join_more. inversion H; subst.
    apply printable_app; [assumption|]. apply printable_app; [assumption|]. auto.
Qed.

(** With printable separators [json.dumps] writes printable ASCII: no
    control character, and no newline in particular, whatever the strings
    of the value hold. *)
Lemma dumps_printable i k v :
  printable i -> printable k -> printable (dumps i k v).
Proof.
  intros Hi Hk. induction v using value_induction.
  - unfold dumps, u; cbn; printable_lit.
  - destruct b; unfold dumps, u; cbn; printable_lit.
  - apply int_repr_printable.
  - apply float_repr_printable.
  - apply encode_basestring_printable.
  - rewrite dumps_list. apply Forall_cons; [lia|].
    apply printable_app; [|printable_lit]. apply join_printable; [assumption|].
    apply Forall_map. exact H.
  - rewrite dumps_dict. apply Forall_cons; [lia|].
    apply printable_app; [|printable_lit]. apply join_printable; [assumption|].
    apply Forall_map. eapply Forall_impl; [|exact H].
    intros [a x] Hx. unfold pair_text. cbn [fst snd] in *.
    apply printable_app; [apply encode_basestring_printable|].
    apply printable_app; assumption.
Qed.


Lemma logs_app a b env : logs (a ++ b) env = logs b (logs a env).
Proof. unfold logs. apply fold_left_app. Qed.

Lemma steady_ret {A} (a : A) : steady (ret a).
Proof. intros [o env]. exists []. reflexivity. Qed.

Lemma steady_raise {A} e : steady (@raise server A e).
Proof. intros [o env]. exists []. reflexivity. Qed.

Lemma steady_lift {A} (r : outcome A) : steady (lift r).
Proof. intros [o env]. exists []. reflexivity. Qed.

Lemma steady_self : steady (@self JukeboxServer).
Proof. intros [o env]. exists []. reflexivity. Qed.

Lemma steady_emit e : steady (@emit JukeboxServer e).
Proof. intros [o env]. exists [e]. reflexivity. Qed.

Lemma steady_write w data : steady (@write JukeboxServer w data).
Proof.
  intros [o env]. unfold write. cbn [snd].
  destruct (write_error env w); [exists []|exists [Wrote w data]]; reflexivity.
Qed.

Lemma steady_bind {A B} (c : M server A) (k : A -> M server B) :
  steady c -> (forall a, steady (k a)) -> steady (bind c k).
Proof.
  intros Hc Hk s. unfold bind. destruct (Hc s) as [es Hes].
  destruct (c s) as [[a|e] s']; cbn [snd] in Hes; subst s'.
  - destruct (Hk a (fst s, logs es (snd s))) as [es' Hes'].
    exists (es ++ es'). rewrite Hes'. cbn [fst snd]. rewrite logs_app. reflexivity.
  - exists es. reflexivity.
Qed.

Lemma steady_try_except {A} (c h : M server A) classes :
  steady c -> steady h -> steady (try_except c classes h).
Proof.
  intros Hc Hh s. unfold try_except. destruct (Hc s) as [es Hes].
  destruct (c s) as [[a|e] s']; cbn [snd] in Hes; subst s'.
  - exists es. reflexivity.
  - destruct (caught e classes); [|exists es; reflexivity].
    destruct (Hh (fst s, logs es (snd s))) as [es' Hes'].
    exists (es ++ es'). rewrite Hes'. cbn [fst snd]. rewrite logs_app. reflexivity.
Qed.

Lemma steady_when b (c : M server unit) : steady c -> steady (when b c).
Proof. intros H. destruct b; [exact H|apply steady_ret]. Qed.

Lemma steady_process msg w : steady (_process msg w).
Proof.
  unfold _process.
  apply steady_bind; [apply steady_lift|intros mtype].
  apply steady_bind.
  { destruct (is_str (u "add") mtype); [|apply steady_ret].
    apply steady_bind; [apply steady_lift|intros; apply steady_ret]. }
  intros [|]; [|apply steady_ret].
  apply steady_bind; [apply steady_lift|intros entry].
  apply steady_bind; [apply steady_lift|intros has_id].
  apply steady_bind.
  { destruct has_id; [apply steady_lift|apply steady_ret]. }
  intros [|]; [|apply steady_ret].
  apply steady_bind; [apply steady_self|intros cb].
  apply steady_bind; [apply steady_when, steady_emit|intros _].
  apply steady_try_except; [|apply steady_ret].
  apply steady_bind; [apply steady_lift|intros title].
  apply steady_bind; [apply steady_lift|intros data].
  apply steady_write.
Qed.

Lemma steady_handle_loop reader w : steady (handle_loop reader w).
Proof.
  induction reader as [|got rest IH]; cbn [handle_loop].
  - destruct (fst (read_msg [])); [apply steady_ret|apply steady_raise].
  - destruct (fst (read_msg (got :: rest))) as [msg|e]; [|apply steady_raise].
    destruct (is_none msg); [apply steady_ret|].
    apply steady_bind; [apply steady_process|intros _; exact IH].
Qed.

Lemma dict_pop_set (task : Task) (w : StreamWriter) (cl : list (Task * StreamWriter)) :
  dict_pop Nat.eqb task (dict_set Nat.eqb task w cl) = dict_pop Nat.eqb task cl.
Proof.
  induction cl as [|[t x] cl IH]; cbn [dict_set dict_pop].
  - rewrite Nat.eqb_refl. reflexivity.
  - destruct (Nat.eqb task t) eqn:E; cbn [dict_pop]; rewrite E; [reflexivity|].
    rewrite IH. reflexivity.
Qed.

Lemma logs_close_error es env : close_error (logs es env) = close_error env.
Proof.
  revert env. induction es as [|e es IH]; intros env; [reflexivity|].
  cbn [logs fold_left]. fold (logs es (log e env)). rewrite IH. reflexivity.
Qed.

(** X2.  However [_handle_client] ends (end of stream, an error it
    swallows, an exception it lets through), its own entry is gone from
    the registry, the entries of the other tasks and the callback are as
    before, and closing the writer was the last thing it did (nothing,
    when [close] raised). *)
Theorem handle_client_always_unregisters task reader writer s :
  let out := _handle_client task reader writer s in
  _clients (fst (snd out)) = dict_pop Nat.eqb task (_clients (fst s)) /\
  on_add (fst (snd out)) = on_add (fst s) /\
  exists es,
    trace (snd (snd out))
    = trace (snd s) ++ es ++ match close_error (snd s) writer with
                             | None => [Closed writer]
                             | Some _ => []
                             end.
Proof.
  destruct s as [o env]. cbv zeta.
  set (body := try_except (handle_loop reader writer)
                 [ConnectionError; CancelledError] (ret tt)).
  set (s1 := ({| _clients := dict_set Nat.eqb task writer (_clients o);
                 on_add := on_add o |}, env)).
  assert (E : _handle_client task reader writer (o, env)
              = try_finally body
                  (set_clients (dict_pop Nat.eqb task) ;;;
                   try_except (close_writer writer) [OSError] (ret tt))%py s1)
    by reflexivity.
  rewrite E. clear E. unfold try_finally.
  assert (Hb : steady body)
    by (apply steady_try_except; [apply steady_handle_loop|apply steady_ret]).
  destruct (Hb s1) as [es Hes].
  destruct (body s1) as [r s2]. cbn [snd] in Hes. subst s2. unfold s1.
  cbn [fst snd].
  unfold bind, set_clients, set_self, modify, try_except, close_writer.
  cbn [fst snd _clients on_add]. rewrite logs_close_error, dict_pop_set.
  destruct (close_error env writer) as [e|] eqn:Hc.
  - destruct (caught e [OSError]); cbn [fst snd ret _clients on_add];
      (split; [reflexivity|split; [reflexivity|]]);
      exists es; rewrite List.app_nil_r; apply logs_trace.
  - unfold emit, modify. cbn [fst snd _clients on_add].
    split; [reflexivity|split; [reflexivity|]]. exists es.
    cbn [log trace]. rewrite logs_trace, <- List.app_assoc. reflexivity.
Qed.

(** ** [_process] on an accepted entry *)

Lemma process_accepted d w o env :
  has_required_keys (VDict d) = true ->
  _process (add (VDict d)) w (o, env)
  = let env1 := if on_add o then log (OnAdd (VDict d)) env else env in
    match write_error env w with
    | None => (Return tt, (o, log (Wrote w (frame (ack (title_of (VDict d))))) env1))
    | Some e => if caught e [ConnectionError; OSError]
                then (Return tt, (o, env1)) else (Raise e, (o, env1))
    end.
Proof.
  intros H. cbn [has_required_keys] in H. apply andb_true_iff in H as [Hid Htitle].
  unfold _process. rewrite add_type. cbn [bind lift]. rewrite is_str_add.
  rewrite add_entry. cbn [bind lift ret is_dict]. rewrite add_item.
  cbn [bind lift ret py_in]. rewrite Hid, Htitle. cbn [ret bind].
  unfold dict_contains in Htitle. cbn [title_of].
  destruct (dict_get str_eqb (u "title") d) as [title|] eqn:Hget; [|discriminate].
  unfold self, gets, when, try_except, emit, modify, ret, bind, lift,
    py_get_default, write.
  cbn [fst snd]. rewrite Hget, encode_msg_frame.
  destruct (on_add o); cbn [fst snd log write_error];
    (destruct (write_error env w) as [e|]; [|reflexivity]);
    destruct (caught e [ConnectionError; OSError]); reflexivity.
Qed.

(** X3.  When the write of the [ack] fails with a [ConnectionError] or
    an [OSError], [_process] still returns normally and [on_add] has been
    called with the entry: the track is queued although its sender is
    not told. *)
Theorem add_is_queued_even_if_the_ack_fails d w s e :
  has_required_keys (VDict d) = true ->
  write_error (snd s) w = Some e ->
  caught e [ConnectionError; OSError] = true ->
  _process (add (VDict d)) w s
  = (Return tt,
     (fst s, if on_add (fst s) then log (OnAdd (VDict d)) (snd s) else snd s)).
Proof.
  destruct s as [o env]. cbn [fst snd]. intros H Hw Hc.
  rewrite process_accepted by assumption. cbv zeta. rewrite Hw, Hc. reflexivity.
Qed.

Lemma received_app w a b : received w (a ++ b) = received w a ++ received w b.
Proof.
  induction a as [|ev a IH]; [reflexivity|].
  cbn [List.app received]. destruct ev; try exact IH.
  destruct (Nat.eqb w w0); [cbn [List.app]; f_equal|]; exact IH.
Qed.

Lemma send_add_healthy entry o env w :
  _writer o = Some w -> _connected o = true ->
  write_error env w = None -> drain_error env w = None ->
  send_add entry (o, env) = (Return tt, (o, log (Wrote w (frame (add entry))) env)).
Proof.
  intros Hw Hc Hwe Hde. unfold send_add, bind, self, gets. cbn [fst snd].
  rewrite Hw, Hc. unfold try_except, bind, lift. rewrite encode_msg_frame.
  unfold write, drain, emit, modify. cbn [fst snd].
  rewrite Hwe. cbn [fst snd log drain_error]. rewrite Hde. reflexivity.
Qed.

Lemma send_adds_healthy entries o env w :
  _writer o = Some w -> _connected o = true ->
  write_error env w = None -> drain_error env w = None ->
  send_adds entries (o, env)
  = (Return tt, (o, logs (map (fun e => Wrote w (frame (add e))) entries) env)).
Proof.
  intros Hw Hc. revert env.
  induction entries as [|e rest IH]; intros env Hwe Hde; [reflexivity|].
  cbn [send_adds]. unfold bind. rewrite (send_add_healthy e o env w) by assumption.
  rewrite IH by assumption. reflexivity.
Qed.

Lemma received_writes w (f : value -> bytes) entries :
  received w (map (fun e => Wrote w (f e)) entries) = map f entries.
Proof.
  induction entries as [|e rest IH]; [reflexivity|].
  cbn [map received]. rewrite Nat.eqb_refl, IH. reflexivity.
Qed.

Lemma logs_write_error es env : write_error (logs es env) = write_error env.
Proof.
  revert env. induction es as [|e es IH]; intros env; [reflexivity|].
  cbn [logs fold_left]. fold (logs es (log e env)). rewrite IH. reflexivity.
Qed.

Lemma plain_add entry : plain entry = true -> plain (add entry) = true.
Proof. intros H. unfold add. rewrite plain_dict. cbn. rewrite H. reflexivity. Qed.

Lemma handle_loop_adds entries w o env :
  Forall (fun e => plain e = true /\ has_required_keys e = true) entries ->
  write_error env w = None -> on_add o = true ->
  handle_loop (map (fun e => Return (frame (add e))) entries) w (o, env)
  = (Return tt, (o, logs (flat_map (accepted w) entries) env)).
Proof.
  intros H Hw Hon. revert env Hw.
  induction H as [|e rest [Hp Hk] _ IH]; intros env Hw; [reflexivity|].
  cbn [map]. rewrite (handle_loop_step (frame (add e)) (add e));
    [|apply read_frame, plain_add, Hp|reflexivity].
  unfold bind. destruct e as [| b | z | f | t | l | d]; try discriminate Hk.
  rewrite process_accepted by assumption. cbv zeta. rewrite Hw, Hon.
  rewrite IH by exact Hw.
  cbn [flat_map accepted List.app logs fold_left]. reflexivity.
Qed.

(** X4.  What a connected client adds reaches the host unchanged and in
    order: [send_add] writes one frame per entry and stays connected, and
    the host's handler loop, reading these frames, calls [on_add] with
    each entry and answers each with an [ack] that carries its title. *)
Theorem adds_reach_the_host_in_order entries cw c hw h :
  _writer (fst c) = Some cw -> _connected (fst c) = true ->
  write_error (snd c) cw = None -> drain_error (snd c) cw = None ->
  Forall (fun e => plain e = true /\ has_required_keys e = true) entries ->
  write_error (snd h) hw = None -> on_add (fst h) = true ->
  let c' := snd (send_adds entries c) in
  let sent := map (fun e => frame (add e)) entries in
  received cw (trace (snd c')) = received cw (trace (snd c)) ++ sent /\
  connected c' = true /\
  handle_loop (map Return sent) hw h
  = (Return tt, (fst h, logs (flat_map (accepted hw) entries) (snd h))).
Proof.
  destruct c as [co cenv], h as [ho henv]. cbn [fst snd].
  intros Hw Hc Hwe Hde Hes Hhw Hon. cbv zeta.
  rewrite (send_adds_healthy entries co cenv cw) by assumption. cbn [fst snd].
  split; [|split].
  - rewrite logs_trace, received_app, received_writes. reflexivity.
  - exact Hc.
  - rewrite map_map. apply handle_loop_adds; assumption.
Qed.

(** ** [listen] *)

Lemma listen_loop_step m rest o env :
  _connected o = true -> plain m = true -> is_dict m = true ->
  listen_loop (Return (frame m) :: rest) (o, env)
  = listen_loop rest
      (listening rest o,
       if is_sync m && on_sync o then log (OnSync m) env else env).
Proof.
  intros Hc Hp Hd. cbn [listen_loop]. unfold bind at 1, self, gets. cbn [fst].
  rewrite Hc. unfold bind at 1, set_reader, set_self, modify. cbn [fst snd read_msg].
  rewrite read_frame by assumption.
  destruct m as [| | | | | |d]; try discriminate Hd. cbn [is_none].
  unfold bind at 1, lift. unfold is_sync. cbn [py_get].
  destruct (dict_get str_eqb (u "type") d) as [t|];
    unfold bind, when, emit, modify, ret; cbn [fst snd];
    [destruct (is_str (u "sync") t && on_sync o)|]; reflexivity.
Qed.

Lemma listen_loop_syncs msgs :
  Forall (fun m => plain m = true /\ is_dict m = true) msgs ->
  forall o env,
  _connected o = true ->
  listen_loop (map (fun m => Return (frame m)) msgs) (o, env)
  = (Return tt,
     (disconnected match msgs with [] => o | _ :: _ => listening [] o end,
      logs (map OnSync (filter (fun m => is_sync m && on_sync o) msgs)) env)).
Proof.
  induction 1 as [|m rest [Hp Hd] _ IH]; intros o env Hc.
  - cbn [map listen_loop]. unfold bind, self, gets. cbn [fst].
    rewrite Hc. reflexivity.
  - cbn [map]. rewrite listen_loop_step by assumption.
    rewrite IH by exact Hc. cbn [listening on_sync filter].
    f_equal. f_equal.
    + destruct rest; reflexivity.
    + destruct (is_sync m && on_sync o); reflexivity.
Qed.

(** X5.  [listen] hands every [sync] message of the stream to
    [on_sync], in order, and skips the other messages; when the stream
    ends it returns with the client marked as not connected. *)
Theorem listen_hands_over_every_sync msgs o env :
  _reader o = Some (map (fun m => Return (frame m)) msgs) ->
  _connected o = true -> on_sync o = true ->
  Forall (fun m => plain m = true /\ is_dict m = true) msgs ->
  listen (o, env)
  = (Return tt,
     (disconnected (listening [] o),
      logs (map OnSync (filter is_sync msgs)) env)).
Proof.
  intros Hr Hc Hon H. unfold listen, bind, self, gets. cbn [fst]. rewrite Hr.
  rewrite listen_loop_syncs by assumption. rewrite Hon.
  f_equal. f_equal.
  - destruct msgs; [|reflexivity]. destruct o. cbn in *. subst. reflexivity.
  - do 2 f_equal. apply filter_ext. intros m. apply andb_true_r.
Qed.

(** ** [close] and [send_add] *)

Lemma listen_disconnected s : connected s = false -> listen s = (Return tt, s).
Proof.
  destruct s as [o env]. unfold connected. cbn [fst]. intros H.
  unfold listen, bind, self, gets. cbn [fst].
  destruct (_reader o) as [[|got rest]|]; try reflexivity;
    cbn [listen_loop]; unfold bind, self, gets; cbn [fst]; rewrite H; reflexivity.
Qed.

Lemma send_add_disconnected entry s :
  connected s = false -> send_add entry s = (Return tt, s).
Proof.
  destruct s as [o env]. unfold connected. cbn [fst]. intros H.
  unfold send_add, bind, self, gets. cbn [fst]. rewrite H.
  destruct (_writer o); reflexivity.
Qed.

(** X6.  After [close], whatever happened while closing, the client is
    not connected, and [send_add] and [listen] return at once without
    writing or reading anything. *)
Theorem nothing_is_sent_after_close s entry :
  let s' := snd (close s) in
  connected s' = false /\
  send_add entry s' = (Return tt, s') /\
  listen s' = (Return tt, s').
Proof.
  cbv zeta.
  assert (H : connected (snd (close s)) = false).
  { destruct s as [o env]. unfold close, bind, set_connected, set_self, modify,
      self, gets. cbn [fst snd _writer].
    destruct (_writer o) as [w|]; [|reflexivity].
    unfold try_except, close_writer. cbn [fst snd].
    destruct (close_error env w) as [e|]; [destruct (caught e [OSError])|];
      reflexivity. }
  split; [exact H|]. split; [apply send_add_disconnected|apply listen_disconnected]; exact H.
Qed.

(** X7.  When the write or the drain of [send_add] fails with a
    [ConnectionError] or an [OSError], [send_add] returns normally and the
    client is marked as not connected: every later [send_add] and
    [listen] does nothing. *)
Theorem failed_send_add_disconnects entry s w e :
  _writer (fst s) = Some w -> _connected (fst s) = true ->
  write_error (snd s) w = Some e \/
    (write_error (snd s) w = None /\ drain_error (snd s) w = Some e) ->
  caught e [ConnectionError; OSError] = true ->
  let s' := snd (send_add entry s) in
  fst (send_add entry s) = Return tt /\
  connected s' = false /\
  (forall later, send_add later s' = (Return tt, s')) /\
  listen s' = (Return tt, s').
Proof.
  destruct s as [o env]. cbn [fst snd]. intros Hw Hc Hf He. cbv zeta.
  assert (H : fst (send_add entry (o, env)) = Return tt /\
              connected (snd (send_add entry (o, env))) = false).
  { unfold send_add, bind, self, gets. cbn [fst]. rewrite Hw, Hc.
    unfold try_except, bind, lift. rewrite encode_msg_frame.
    unfold write, drain, emit, modify. cbn [fst snd].
    destruct Hf as [Hf|[Hf1 Hf2]].
    - rewrite Hf, He. split; reflexivity.
    - rewrite Hf1. cbn [fst snd log drain_error]. rewrite Hf2, He.
      split; reflexivity. }
  destruct H as [H1 H2]. split; [exact H1|]. split; [exact H2|].
  split; [intros later; apply send_add_disconnected|apply listen_disconnected]; exact H2.
Qed.

(** ** [connect] *)

(** X8.  On a connection that works, [connect] returns [True], keeps
    the reader and the writer, marks the client connected and writes the
    [hello] frame, and nothing else; the host's handler loop reads that
    frame and does nothing for it. *)
Theorem connect_says_hello o env r w host hw :
  open_connection env = Return (r, w) ->
  write_error env w = None -> drain_error env w = None ->
  connect (o, env)
  = (Return true,
     ({| _reader := Some r; _writer := Some w; _connected := true;
         on_sync := on_sync o |},
      log (Wrote w (frame hello)) env)) /\
  handle_loop [Return (frame hello)] hw host = (Return tt, host).
Proof.
  intros Ho Hw Hd. split.
  - unfold connect, try_except, bind at 1. cbn [snd]. rewrite Ho.
    unfold bind at 1, set_streams, set_self, modify. cbn [fst snd].
    unfold bind at 1, set_connected, set_self, modify. cbn [fst snd].
    unfold bind at 1, lift. rewrite encode_msg_frame.
    unfold bind, write, drain, emit, modify, ret. cbn [fst snd].
    rewrite Hw. cbn [fst snd log drain_error]. rewrite Hd. reflexivity.
  - rewrite (handle_loop_step (frame hello) hello); [|apply read_frame|]; reflexivity.
Qed.

(** ** A line that cannot be read ends the session *)

Lemma handle_loop_stops got rest w s :
  read_msg_of got = Return VNone ->
  handle_loop (got :: rest) w s = (Return tt, s).
Proof. intros H. cbn [handle_loop read_msg fst]. rewrite H. reflexivity. Qed.

(** X9.  Whenever [read_msg] gives [None] (30 seconds without a line, a
    failed read, the end of the stream, a line that is not UTF-8 or not
    JSON, the JSON text [null]), the handler stops reading: it removes
    the client from the registry and closes its writer, and what the
    stream holds after that line is never processed. *)
Theorem an_unreadable_line_ends_the_handler task got rest writer o env :
  read_msg_of got = Return VNone ->
  close_error env writer = None ->
  _handle_client task (got :: rest) writer (o, env)
  = (Return tt,
     ({| _clients := dict_pop Nat.eqb task (_clients o); on_add := on_add o |},
      log (Closed writer) env)).
Proof.
  intros Hg Hc. unfold _handle_client, bind at 1, set_clients at 1, set_self, modify.
  cbn [fst snd]. unfold try_finally, try_except at 1.
  rewrite handle_loop_stops by exact Hg.
  unfold bind, set_clients, set_self, modify, try_except, close_writer.
  cbn [fst snd _clients on_add]. rewrite Hc, dict_pop_set. reflexivity.
Qed.

Lemma silence_is_unreadable e :
  caught e [AsyncTimeoutError; ConnectionError; OSError] = true ->
  read_msg_of (Raise e) = Return VNone.
Proof. intros H. unfold read_msg_of. rewrite H. reflexivity. Qed.

(** ** [broadcast], twice *)

Lemma broadcast_spec msg o env :
  NoDup (map fst (_clients o)) ->
  (forall c e, In c (_clients o) -> write_error env (snd c) = Some e ->
               caught e [ConnectionError; OSError] = true) ->
  broadcast msg (o, env)
  = (Return tt,
     (with_clients (filter (alive env) (_clients o)) o,
      logs (map (fun c => Wrote (snd c) (frame msg))
                (filter (alive env) (_clients o))) env)).
Proof.
  destruct o as [cl oa]. cbn [_clients]. intros Hnd Herr.
  unfold broadcast, bind at 1, self, gets. cbn [fst _clients].
  destruct cl as [|c cl]; [reflexivity|].
  unfold bind at 1, lift. rewrite encode_msg_frame.
  unfold bind. rewrite broadcast_pass_spec by assumption.
  rewrite prune_spec. cbn [List.app _clients].
  pose proof (pops_are_filter (fun c => negb (alive env c)) (c :: cl) [] Hnd) as Hp.
  cbn [List.app] in Hp. rewrite Hp.
  replace (filter (fun c => negb (negb (alive env c))) (c :: cl))
    with (filter (alive env) (c :: cl)); [reflexivity|].
  apply filter_ext. intros a. symmetry. apply negb_involutive.
Qed.

Lemma alive_logs es env c : alive (logs es env) c = alive env c.
Proof. unfold alive. rewrite logs_write_error. reflexivity. Qed.

Lemma filter_idem {A} (f : A -> bool) l : filter f (filter f l) = filter f l.
Proof.
  induction l as [|x l IH]; [reflexivity|]. cbn [filter].
  destruct (f x) eqn:E; [cbn [filter]; rewrite E, IH|]; auto.
Qed.

Lemma NoDup_filter_keys (f : Task * StreamWriter -> bool) cl :
  NoDup (map fst cl) -> NoDup (map fst (filter f cl)).
Proof.
  induction cl as [|c cl IH]; intros H; [constructor|].
  cbn [map] in H. inversion H as [|? ? Hn Hd]; subst. cbn [filter].
  destruct (f c); [|auto]. cbn [map]. constructor; [|auto].
  intros Hin. apply Hn. apply in_map_iff in Hin as (x & Hx & Hin).
  apply filter_In in Hin as [Hin _]. apply in_map_iff. exists x. tauto.
Qed.

(** X10.  After a [broadcast] the registry holds only connections that
    took the write: as long as the transports behave the same, the next
    [broadcast] writes its frame to every registered connection and
    [client_count] stays as it is. *)
Theorem a_second_broadcast_prunes_nothing m1 m2 s :
  NoDup (map fst (_clients (fst s))) ->
  (forall c e, In c (_clients (fst s)) -> write_error (snd s) (snd c) = Some e ->
               caught e [ConnectionError; OSError] = true) ->
  let s1 := snd (broadcast m1 s) in
  broadcast m2 s1
  = (Return tt,
     (fst s1, logs (map (fun c => Wrote (snd c) (frame m2)) (_clients (fst s1)))
                   (snd s1))) /\
  client_count (snd (broadcast m2 s1)) = client_count s1.
Proof.
  destruct s as [o env]. cbn [fst snd]. intros Hnd Herr. cbv zeta.
  rewrite (broadcast_spec m1 o env Hnd Herr). cbn [fst snd].
  set (kept := filter (alive env) (_clients o)).
  set (env1 := logs (map (fun c => Wrote (snd c) (frame m1)) kept) env).
  assert (E : broadcast m2 (with_clients kept o, env1)
              = (Return tt, (with_clients kept o,
                   logs (map (fun c => Wrote (snd c) (frame m2)) kept) env1))).
  { rewrite broadcast_spec.
    - cbn [with_clients _clients].
      assert (Hk : filter (alive env1) kept = kept).
      { unfold kept. rewrite (filter_ext (alive env1) (alive env)).
        - apply filter_idem.
        - intros c. apply alive_logs. }
      rewrite Hk. destruct o. reflexivity.
    - cbn [with_clients _clients]. apply NoDup_filter_keys. exact Hnd.
    - cbn [with_clients _clients]. intros c e Hin Hw. unfold env1 in Hw.
      rewrite logs_write_error in Hw. apply (Herr c e); [|exact Hw].
      apply filter_In in Hin. tauto. }
  split; [exact E|]. rewrite E. reflexivity.
Qed.

Lemma add_is_queued_witness :
  _process (add song) 9 (host, broken_pipe)
  = (Return tt, (host, log (OnAdd song) broken_pipe)).
Proof.
  exact (add_is_queued_even_if_the_ack_fails
           [(u "id", VStr (u "abc")); (u "title", VStr (u "Song"));
            (u "duration", VFloat (FDec false 2125 (-1)))]
           9 (host, broken_pipe) BrokenPipeError eq_refl eq_refl eq_refl).
Defined.

Lemma adds_reach_the_host_witness :
  received 5 (trace (snd (snd (send_adds [song; song] (joined 5 [], quiet)))))
    = [frame (add song); frame (add song)] /\
  connected (snd (send_adds [song; song] (joined 5 [], quiet))) = true /\
  handle_loop [Return (frame (add song)); Return (frame (add song))] 7 (host, quiet)
  = (Return tt, (host, logs (accepted 7 song ++ accepted 7 song) quiet)).
Proof.
  apply (adds_reach_the_host_in_order [song; song] 5 (joined 5 [], quiet) 7
           (host, quiet)); try reflexivity.
  repeat constructor.
Defined.

Lemma listen_witness :
  listen (joined 5 [Return (frame (ack (VStr (u "Song")))); Return (frame snapshot)],
          quiet)
  = (Return tt,
     (disconnected (listening [] (joined 5 [])), log (OnSync snapshot) quiet)).
Proof.
  apply (listen_hands_over_every_sync [ack (VStr (u "Song")); snapshot]
           (joined 5 [Return (frame (ack (VStr (u "Song")))); Return (frame snapshot)])
           quiet); try reflexivity.
  repeat constructor.
Defined.

Lemma failed_send_add_witness :
  fst (send_add song (joined 9 [], broken_pipe)) = Return tt /\
  connected (snd (send_add song (joined 9 [], broken_pipe))) = false /\
  (forall later,
      send_add later (snd (send_add song (joined 9 [], broken_pipe)))
      = (Return tt, snd (send_add song (joined 9 [], broken_pipe)))) /\
  listen (snd (send_add song (joined 9 [], broken_pipe)))
  = (Return tt, snd (send_add song (joined 9 [], broken_pipe))).
Proof.
  exact (failed_send_add_disconnects song (joined 9 [], broken_pipe) 9
           BrokenPipeError eq_refl eq_refl (or_introl eq_refl) eq_refl).
Defined.

Lemma connect_says_hello_witness :
  connect (fresh_client, broken_pipe)
  = (Return true,
     ({| _reader := Some []; _writer := Some 5; _connected := true;
         on_sync := false |},
      log (Wrote 5 (frame hello)) broken_pipe)) /\
  handle_loop [Return (frame hello)] 7 (host, quiet) = (Return tt, (host, quiet)).
Proof.
  exact (connect_says_hello fresh_client broken_pipe [] 5 (host, quiet) 7
           eq_refl eq_refl eq_refl).
Defined.

Lemma unreadable_line_witness :
  _handle_client 1 [Raise AsyncTimeoutError; Return (frame (add song))] 7
                 (host, quiet)
  = (Return tt, ({| _clients := []; on_add := true |}, log (Closed 7) quiet)).
Proof.
  exact (an_unreadable_line_ends_the_handler 1 (Raise AsyncTimeoutError)
           [Return (frame (add song))] 7 host quiet eq_refl eq_refl).
Defined.

Lemma second_broadcast_witness :
  broadcast snapshot (snd (broadcast hello three_peers))
  = (Return tt,
     (fst (snd (broadcast hello three_peers)),
      logs (map (fun c => Wrote (snd c) (frame snapshot))
                (_clients (fst (snd (broadcast hello three_peers)))))
           (snd (snd (broadcast hello three_peers))))) /\
  client_count (snd (broadcast snapshot (snd (broadcast hello three_peers))))
  = client_count (snd (broadcast hello three_peers)).
Proof.
  exact (a_second_broadcast_prunes_nothing hello snapshot three_peers
           three_peers_distinct three_peers_faults).
Defined.

(** ** Blanks around a message *)

Lemma skip_ws_blanks ws s : blanks ws -> skip_ws (ws ++ s) = skip_ws s.
Proof.
  induction 1 as [|c ws Hc _ IH]; [reflexivity|].
  cbn [List.app skip_ws]. rewrite Hc. exact IH.
Qed.

Lemma blanks_ascii ws : blanks ws -> ascii_only ws.
Proof.
  intros H. eapply Forall_impl; [|exact H]. intros c Hc. cbv beta in *.
  unfold is_ws in Hc. rewrite !orb_true_iff, !N.eqb_eq in Hc. lia.
Qed.

(** The text of a dict is read back whatever follows it. *)
Lemma scan_once_dict d fuel rest :
  plain (VDict d) = true -> cost (VDict d) <= fuel ->
  scan_once fuel (dumps [44%N] [58%N] (VDict d) ++ rest) = Some (VDict d, rest).
Proof.
  intros Hp Hf.
  assert (H : Forall (fun kv => reads_back (snd kv)) d).
  { apply Forall_forall. intros kv _. apply scan_once_dumps. }
  destruct fuel as [|fuel]; [pose proof (cost_pos (VDict d)); lia|].
  rewrite dumps_dict. rewrite cost_dict in Hf. rewrite plain_dict in Hp.
  apply andb_true_iff in Hp as [Hd Hp].
  destruct d as [|[k x] d].
  - reflexivity.
  - cbn [List.app]. rewrite <- List.app_assoc. cbn [List.app].
    fold pt. rewrite pair_join.
    cbn [scan_once N.eqb Pos.eqb skip_ws is_ws orb].
    rewrite (object_loop_reads d k x H Hp) by lia.
    rewrite dict_of_pairs_distinct by assumption. reflexivity.
Qed.

Lemma loads_padded d before after :
  plain (VDict d) = true -> blanks before -> blanks after ->
  loads (before ++ dumps [44%N] [58%N] (VDict d) ++ after) = Some (VDict d).
Proof.
  intros Hp Hb Ha. unfold loads.
  assert (Hbom : has_bom (before ++ dumps [44%N] [58%N] (VDict d) ++ after) = false).
  { destruct Hb as [|c ws Hc _].
    - rewrite dumps_dict. reflexivity.
    - cbn [List.app has_bom]. unfold is_ws in Hc.
      destruct (N.eqb_spec c 65279) as [->|]; [discriminate Hc|reflexivity]. }
  rewrite Hbom, skip_ws_blanks by exact Hb.
  assert (Hs : skip_ws (dumps [44%N] [58%N] (VDict d) ++ after)
               = dumps [44%N] [58%N] (VDict d) ++ after).
  { rewrite dumps_dict. reflexivity. }
  rewrite Hs, scan_once_dict.
  - rewrite <- (List.app_nil_r after), skip_ws_blanks by exact Ha. reflexivity.
  - exact Hp.
  - pose proof (cost_fits (VDict d) Hp). rewrite !length_app. lia.
Qed.

(** X22.  [read_msg] reads a message also when blanks (spaces, tabs,
    carriage returns, newlines) stand before or after its JSON text, as
    they do on a line that ends in CR LF. *)
Theorem read_msg_ignores_blanks_around_a_message d before after :
  plain (VDict d) = true -> blanks before -> blanks after ->
  read_msg_of (Return (map Utf8.byte_of
                         (before ++ dumps [44%N] [58%N] (VDict d) ++ after)))
  = Return (VDict d).
Proof.
  intros Hp Hb Ha. unfold read_msg_of.
  assert (Hne : map Utf8.byte_of (before ++ dumps [44%N] [58%N] (VDict d) ++ after) <> []).
  { intros E. apply map_eq_nil in E. apply app_eq_nil in E as [_ E].
    apply app_eq_nil in E as [E _]. rewrite dumps_dict in E. discriminate E. }
  destruct (map Utf8.byte_of _) as [|b bs] eqn:E; [contradiction|].
  rewrite <- E. unfold bytes_decode.
  rewrite utf8_decode_ascii.
  - cbn [obind]. unfold json_loads. rewrite loads_padded by assumption. reflexivity.
  - apply ascii_app; [apply blanks_ascii; exact Hb|].
    apply ascii_app; [apply dumps_ascii; ascii_lit|apply blanks_ascii; exact Ha].
Qed.

Lemma read_msg_ignores_blanks_witness :
  read_msg_of (Return (map Utf8.byte_of
                         ([32; 32]%N ++ dumps [44%N] [58%N] hello ++ [13; 10]%N)))
  = Return hello.
Proof.
  apply (read_msg_ignores_blanks_around_a_message
           [(u "type", VStr (u "hello"))] [32; 32]%N [13; 10]%N).
  - reflexivity.
  - repeat constructor.
  - repeat constructor.
Defined.

(* ================================================================== *)
(** * The player                                                       *)
(* ================================================================== *)

Import Player.

Lemma stop_spec s :
  os_faults_are_OSError s -> stop s = (Return tt, stopped s).
Proof.
  destruct s as [[pr sk] [tr sf pd bt sp ue cr]]. intros [Hu Hk].
  cbn [fst snd unlink_error _sock _proc sock_file pending boot_time spawn connect_result Player.trace] in *.
  unfold stop, stopped, stop_events, bind, self, gets, set_proc, set_sock, when, try_except,
    path_exists, unlink, terminate, kill, wait, sock_close, with_os, modify, ret, raise.
  cbn [fst snd _proc _sock].
  destruct pr as [[pid run heed]|]; [destruct run; [destruct heed|]|];
    (destruct sk as [[inc se ce]|];
     [destruct ce as [e|] eqn:Hce;
      [pose proof (Hk _ e eq_refl eq_refl) as Hke; cbn [sock_close_error] in Hke|]|]);
    destruct sf; destruct ue as [e'|];
    repeat (cbn -[caught];
            try change (caught TimeoutExpired [TimeoutExpired]) with true;
            rewrite ?Hke, ?(Hu _ eq_refl));
    unfold log, set_pending, set_sock_file; cbn;
    rewrite <- ?List.app_assoc; cbn [List.app]; rewrite ?List.app_nil_r; reflexivity.
Qed.






(** ** [play] *)

Lemma sleep_tick o w : sleep (o, w) = (Return tt, (o, tick w)).
Proof. reflexivity. Qed.

Lemma iter_tick_swap n w : Nat.iter n tick (tick w) = tick (Nat.iter n tick w).
Proof. rewrite <- Nat.iter_succ_r. apply Nat.iter_succ. Qed.

Lemma trace_tick w : Player.trace (tick w) = Player.trace w ++ [Slept].
Proof.
  unfold tick, settle. cbn [set_pending log pending].
  destruct (option_map Nat.pred (pending w)) as [[|k]|]; reflexivity.
Qed.

Lemma trace_ticks n w :
  Player.trace (Nat.iter n tick w) = Player.trace w ++ repeat Slept n.
Proof.
  induction n; [cbn [repeat]; rewrite List.app_nil_r; reflexivity|].
  rewrite Nat.iter_succ.
  - rewrite trace_tick, IHn, <- List.app_assoc.
    f_equal. symmetry. apply (repeat_cons n Slept).
Qed.


Lemma play_unfold s :
  os_faults_are_OSError s ->
  play s =
  (let s0 := stopped s in
   match spawn (snd s) with
   | Raise e =>
       if caught e [FileNotFoundError] then (Return false, s0) else (Raise e, s0)
   | Return p =>
       let s1 := ({| _proc := Some p; _sock := None |},
                  settle (set_pending (boot_time (snd s))
                                      (log (Spawned (pid p)) (snd s0)))) in
       match poll_socket 30 s1 with
       | (Return true, s2) => _connect s2
       | (Return false, s2) => (Return false, s2)
       | (Raise e, s2) => (Raise e, s2)
       end
   end).
Proof.
  intros Hf. unfold play. unfold bind at 1. rewrite (stop_spec s Hf).
  unfold bind at 1, try_except, bind at 1, popen.
  change (spawn (snd (stopped s))) with (spawn (snd s)).
  change (boot_time (snd (stopped s))) with (boot_time (snd s)).
  cbv zeta. destruct (spawn (snd s)) as [p|e].
  - unfold bind at 1, set_proc, modify, ret. cbn [fst snd _sock stopped].
    unfold bind. destruct (poll_socket 30 _) as [[[|]|e] s2]; reflexivity.
  - destruct (caught e [FileNotFoundError]); reflexivity.
Qed.


Lemma idle_faults w :
  unlink_error w = None -> os_faults_are_OSError (idle, w).
Proof.
  intros Hu. split.
  - intros e H. cbn [snd] in H. rewrite Hu in H. discriminate H.
  - intros k e H. discriminate H.
Defined.



(** ** The accessors *)

(** C2, the failing input.  The engine answers [get_property volume]
    with success and the value [0.0]: [get_property] returns that zero,
    and [volume], which is [get_property("volume") or 100.0], returns
    [100.0]. *)
Theorem volume_zero_reads_as_default :
  fst (get_property (u "volume") muted) = Return zero /\
  fst (volume muted) = Return hundred.
Proof. split; vm_compute; reflexivity. Qed.

(* ================================================================== *)
(** * [player.py]: further properties                                 *)
(* ================================================================== *)

Lemma scan_lines_partial s : forall acc,
  one_line s -> scan_lines acc s = Return (None, List.rev acc ++ s).
Proof.
  induction s as [|b s IH]; intros acc H; cbn [scan_lines].
  - rewrite List.app_nil_r. reflexivity.
  - inversion H as [|? ? Hb Hs]; subst. rewrite Hb, IH by assumption.
    cbn [List.rev]. rewrite <- List.app_assoc. reflexivity.
Qed.

Lemma scan_lines_line l rest : forall acc,
  one_line l ->
  scan_lines acc (l ++ x0a :: rest)
  = obind (parse_line (List.rev acc ++ l)) (fun data =>
    obind (py_in (u "event") data) (fun is_event =>
    if is_event : bool then scan_lines [] rest else Return (Some data, rest))).
Proof.
  induction l as [|b l IH]; intros acc H; cbn [List.app scan_lines].
  - rewrite List.app_nil_r. reflexivity.
  - inversion H as [|? ? Hb Hs]; subst. rewrite Hb, IH by assumption.
    cbn [List.rev]. rewrite <- List.app_assoc. reflexivity.
Qed.

Lemma one_line_app a b : one_line a -> one_line b -> one_line (a ++ b).
Proof. intros Ha Hb. apply Forall_app. split; assumption. Qed.

Lemma one_line_prefix a b : one_line (a ++ b) -> one_line a.
Proof. intros H. apply Forall_app in H. tauto. Qed.

(** What [scan_lines] makes of the first bytes [x] of a stream of event
    lines followed by the line of a reply: the reply, if its newline is
    among them; otherwise the bytes of the line still open, with the
    lines not yet read. *)
Lemma scan_lines_prefix events reply data tail :
  Forall event_line events ->
  one_line reply -> parse_line reply = Return data ->
  py_in (u "event") data = Return false ->
  forall x y,
    x ++ y = stream_of events ++ reply ++ x0a :: tail ->
    (exists left, scan_lines [] x = Return (Some data, left)) \/
    (exists open events',
        scan_lines [] x = Return (None, open) /\
        one_line open /\ Forall event_line events' /\
        open ++ y = stream_of events' ++ reply ++ x0a :: tail).
Proof.
  intros Hev Hr Hp Hin.
  induction Hev as [|ev events Hev1 Hev' IH]; intros x y E.
  - cbn [stream_of flat_map List.app] in E.
    apply app_eq_app in E as [z [[E1 E2]|[E1 E2]]].
    + destruct z as [|b z].
      * right. exists reply, []. rewrite List.app_nil_r in E1. subst x.
        rewrite scan_lines_partial by exact Hr.
        split; [reflexivity|]. split; [exact Hr|]. split; [constructor|].
        cbn [List.app] in E2. rewrite <- E2. reflexivity.
      * left. cbn [List.app] in E2. injection E2 as <- E2. subst x.
        exists z. rewrite scan_lines_line by exact Hr.
        cbn [List.rev List.app]. rewrite Hp. cbn [obind]. rewrite Hin.
        reflexivity.
    + right. exists x, []. subst reply.
      rewrite scan_lines_partial by exact (one_line_prefix _ _ Hr).
      split; [reflexivity|]. split; [exact (one_line_prefix _ _ Hr)|].
      split; [constructor|]. cbn [stream_of flat_map List.app].
      rewrite E2, <- List.app_assoc. reflexivity.
  - destruct Hev1 as [Hl (d & Hd & He)].
    cbn [stream_of flat_map] in E. fold (stream_of events) in E.
    rewrite <- !List.app_assoc in E. cbn [List.app] in E.
    apply app_eq_app in E as [z [[E1 E2]|[E1 E2]]].
    + destruct z as [|b z].
      * right. exists ev, (ev :: events). rewrite List.app_nil_r in E1. subst x.
        rewrite scan_lines_partial by exact Hl.
        split; [reflexivity|]. split; [exact Hl|].
        split; [constructor; [split; [exact Hl|exists d; tauto]|exact Hev']|].
        cbn [stream_of flat_map]. fold (stream_of events).
        rewrite <- !List.app_assoc. cbn [List.app] in E2 |- *. rewrite <- E2.
        reflexivity.
      * cbn [List.app] in E2. injection E2 as <- E2. subst x.
        rewrite scan_lines_line by exact Hl.
        cbn [List.rev List.app]. rewrite Hd. cbn [obind]. rewrite He.
        cbn [obind]. apply IH. symmetry. exact E2.
    + right. exists x, (ev :: events). subst ev.
      rewrite scan_lines_partial by exact (one_line_prefix _ _ Hl).
      split; [reflexivity|]. split; [exact (one_line_prefix _ _ Hl)|].
      split; [constructor; [split; [exact Hl|exists d; tauto]|exact Hev']|].
      cbn [stream_of flat_map]. fold (stream_of events).
      rewrite E2, <- !List.app_assoc. cbn [List.app]. reflexivity.
Qed.

Lemma printable_ascii s : printable s -> ascii_only s.
Proof. intros H. eapply Forall_impl; [|exact H]. intros c Hc. cbv beta in *. lia. Qed.

Lemma command_text_printable args :
  printable (dumps [44; 32]%N [58; 32]%N (VDict [(u "command", VList args)])).
Proof. apply dumps_printable; printable_lit. Qed.

Lemma command_encodes args :
  Net.str_encode (dumps (u ", ") (u ": ") (VDict [(u "command", VList args)])
                  ++ u (String "010" EmptyString))
  = Return (command_line args).
Proof.
  unfold Net.str_encode, command_line.
  change (u ", ") with [44; 32]%N. change (u ": ") with [58; 32]%N.
  change (u (String "010" EmptyString)) with [10%N].
  rewrite utf8_encode_ascii; [reflexivity|].
  apply ascii_app; [apply printable_ascii, command_text_printable|ascii_lit].
Qed.

Lemma newline_in_stream events reply tail :
  ~ one_line (stream_of events ++ reply ++ x0a :: tail).
Proof.
  intros H. apply Forall_app in H as [_ H]. apply Forall_app in H as [_ H].
  inversion H as [|? ? Hb _]. discriminate Hb.
Qed.

Lemma recv_loop_finds (reply : bytes) data (tail : bytes) :
  one_line reply -> parse_line reply = Return data ->
  py_in (u "event") data = Return false ->
  forall (chunks : list bytes) (events : list bytes) (buf : bytes),
    Forall event_line events ->
    Forall (fun c => c <> []) chunks ->
    one_line buf ->
    buf ++ List.concat chunks = stream_of events ++ reply ++ x0a :: tail ->
    exists rest, recv_loop (map Return chunks) buf = (Return data, rest).
Proof.
  intros Hr Hp Hin. induction chunks as [|c chunks IH]; intros events buf Hev Hc Hb E.
  - exfalso. cbn [List.concat] in E. rewrite List.app_nil_r in E. subst buf.
    exact (newline_in_stream _ _ _ Hb).
  - inversion Hc as [|? ? Hc1 Hc2]; subst. cbn [List.concat] in E.
    rewrite List.app_assoc in E.
    destruct c as [|b c]; [contradiction|]. cbn [map recv_loop].
    destruct (scan_lines_prefix events reply data tail Hev Hr Hp Hin _ _ E)
      as [[left Hl]|(open & events' & Hs & Ho & Hev' & E')].
    + rewrite Hl. eexists. reflexivity.
    + rewrite Hs. apply (IH events' open); assumption.
Qed.

Lemma command_sends args o w k :
  _sock o = Some k -> send_error k = None ->
  _command args (o, w)
  = (let (result, rest) := recv_loop (incoming k) [] in
     match result with
     | Return data =>
         (Return data,
          ({| _proc := _proc o; _sock := Some (set_incoming rest k) |},
           log (Sent (command_line args)) w))
     | Raise e =>
         if caught e [BrokenPipeError; ConnectionResetError; OSError]
         then (Return VNone,
               ({| _proc := _proc o; _sock := None |},
                log (Sent (command_line args)) w))
         else (Raise e,
               ({| _proc := _proc o; _sock := Some (set_incoming rest k) |},
                log (Sent (command_line args)) w))
     end).
Proof.
  intros Hk Hs.
  unfold _command, bind at 1, self, gets. cbn [fst]. rewrite Hk.
  unfold try_except, bind at 1, lift. rewrite command_encodes.
  unfold bind at 1, sendall. rewrite Hs. unfold with_os, modify.
  destruct (recv_loop (incoming k) []) as [[data|e] rest];
    unfold bind, set_sock, modify, lift, ret; cbn [fst snd _proc _sock];
    [reflexivity|].
  destruct (caught e [BrokenPipeError; ConnectionResetError; OSError]); reflexivity.
Qed.

(** X11.  [_command] sends its request and returns the engine's reply,
    however the socket cuts the bytes into pieces: it skips every line
    that holds ["event"] and returns the first line that does not, also
    when a line arrives in several pieces or several lines in one. *)
Theorem command_returns_the_reply_however_it_is_chunked
    args (chunks events : list bytes) (reply : bytes) data (tail : bytes) o w k :
  _sock o = Some k -> send_error k = None ->
  incoming k = map Return chunks ->
  Forall (fun c => c <> []) chunks ->
  List.concat chunks = stream_of events ++ reply ++ x0a :: tail ->
  Forall event_line events ->
  one_line reply -> parse_line reply = Return data ->
  py_in (u "event") data = Return false ->
  fst (_command args (o, w)) = Return data /\
  trace (snd (snd (_command args (o, w)))) = trace w ++ [Sent (command_line args)].
Proof.
  intros Hk Hs Hi Hc E Hev Hr Hp Hin.
  destruct (recv_loop_finds reply data tail Hr Hp Hin chunks events [] Hev Hc
              (Forall_nil _) E) as [rest Hrest].
  rewrite (command_sends args o w k Hk Hs), Hi, Hrest. split; reflexivity.
Qed.

Lemma parse_line_errors l e :
  parse_line l = Raise e -> e = UnicodeDecodeError \/ e = JSONDecodeError.
Proof.
  unfold parse_line, Net.bytes_decode, Net.json_loads.
  destruct (Utf8.decode l) as [s|]; cbn [obind].
  - destruct (loads s); intros [=]. subst e. right. reflexivity.
  - intros [=]. subst e. left. reflexivity.
Qed.

Lemma py_in_errors key v e : py_in key v = Raise e -> e = TypeError.
Proof. destruct v; cbn [py_in]; intros [=]; subst e; reflexivity. Qed.

Lemma command_malformed args (l tail : bytes) more o w k e :
  _sock o = Some k -> send_error k = None ->
  incoming k = Return (l ++ x0a :: tail) :: more ->
  one_line l ->
  obind (parse_line l) (py_in (u "event")) = Raise e ->
  _command args (o, w)
  = (Raise e,
     ({| _proc := _proc o; _sock := Some (set_incoming more k) |},
      log (Sent (command_line args)) w)) /\
  (e = UnicodeDecodeError \/ e = JSONDecodeError \/ e = TypeError).
Proof.
  intros Hk Hs Hi Hl He.
  assert (Hcls : e = UnicodeDecodeError \/ e = JSONDecodeError \/ e = TypeError).
  { destruct (parse_line l) as [data|e'] eqn:Hp; cbn [obind] in He.
    - right. right. exact (py_in_errors _ _ _ He).
    - injection He as <-. destruct (parse_line_errors l e' Hp); tauto. }
  split; [|exact Hcls].
  rewrite (command_sends args o w k Hk Hs), Hi.
  assert (Hscan : scan_lines [] (l ++ x0a :: tail) = Raise e).
  { rewrite scan_lines_line by exact Hl. cbn [List.rev List.app].
    destruct (parse_line l) as [data|e'] eqn:Hp; cbn [obind] in He |- *.
    - rewrite He. reflexivity.
    - injection He as <-. reflexivity. }
  assert (Hloop : recv_loop (Return (l ++ x0a :: tail) :: more) []
                  = (Raise e, more)).
  { destruct l as [|b l]; cbn [List.app recv_loop] in *; rewrite Hscan;
      destruct Hcls as [->|[->| ->]]; reflexivity. }
  rewrite Hloop. destruct Hcls as [->|[->| ->]]; reflexivity.
Qed.

(** X12.  Unlike [read_msg], [_command] does not turn a line it cannot
    read into [None]: when the first line is not UTF-8, not JSON, or JSON
    of a kind that [in] cannot search, the exception
    ([UnicodeDecodeError], [JSONDecodeError], [TypeError]) reaches the
    caller; the socket is kept. *)
Theorem command_raises_on_a_malformed_line
    args (l tail : bytes) more o w k e :
  _sock o = Some k -> send_error k = None ->
  incoming k = Return (l ++ x0a :: tail) :: more ->
  one_line l ->
  obind (parse_line l) (py_in (u "event")) = Raise e ->
  _command args (o, w)
  = (Raise e,
     ({| _proc := _proc o; _sock := Some (set_incoming more k) |},
      log (Sent (command_line args)) w)) /\
  (e = UnicodeDecodeError \/ e = JSONDecodeError \/ e = TypeError).
Proof.
  exact (command_malformed args l tail more o w k e).
Qed.

Lemma command_send_fails args o w k e :
  _sock o = Some k -> send_error k = Some e ->
  caught e [BrokenPipeError; ConnectionResetError; OSError] = true ->
  _command args (o, w) = (Return VNone, ({| _proc := _proc o; _sock := None |}, w)).
Proof.
  intros Hk Hs He.
  unfold _command, bind at 1, self, gets. cbn [fst]. rewrite Hk.
  unfold try_except, bind at 1, lift. rewrite command_encodes.
  unfold bind at 1, sendall. rewrite Hs. unfold raise. rewrite He.
  reflexivity.
Qed.

(** X13.  When [sendall] fails with an [OSError] (a broken pipe, a
    reset connection), [_command] returns [None], sends nothing and
    forgets the socket: every later command returns [None] without
    touching anything. *)
Theorem command_drops_the_socket_when_sending_fails args o w k e :
  _sock o = Some k -> send_error k = Some e ->
  caught e [BrokenPipeError; ConnectionResetError; OSError] = true ->
  let s' := ({| _proc := _proc o; _sock := None |}, w) in
  _command args (o, w) = (Return VNone, s') /\
  forall later, _command later s' = (Return VNone, s').
Proof.
  intros Hk Hs He. cbv zeta. split; [|reflexivity].
  apply (command_send_fails args o w k e); assumption.
Qed.

(** ** [play], when the socket shows up *)

Lemma tick_connect_result w : connect_result (tick w) = connect_result w.
Proof.
  unfold tick, settle. cbn [set_pending log pending].
  destruct (option_map Nat.pred (pending w)) as [[|k]|]; reflexivity.
Qed.

Lemma ticks_connect_result n w :
  connect_result (Nat.iter n tick w) = connect_result w.
Proof.
  induction n; [reflexivity|]. rewrite Nat.iter_succ, tick_connect_result. exact IHn.
Qed.

(** The engine's socket shows up after [k] sleeps. *)
Lemma poll_socket_finds n : forall k o w,
  sock_file w = false -> pending w = Some (S k) -> S k < n ->
  poll_socket n (o, w) = (Return true, (o, Nat.iter (S k) tick w)).
Proof.
  induction n as [|n IH]; intros k o w Hf Hp Hk; [lia|].
  cbn [poll_socket]. unfold bind at 1, path_exists, gets. cbn [snd]. rewrite Hf.
  unfold bind. rewrite sleep_tick.
  destruct k as [|k].
  - assert (Ht : sock_file (tick w) = true).
    { unfold tick, settle. cbn [set_pending log pending]. rewrite Hp. reflexivity. }
    destruct n as [|n]; [lia|]. cbn [poll_socket]. unfold bind, path_exists, gets.
    cbn [snd]. rewrite Ht. reflexivity.
  - rewrite (IH k).
    + rewrite iter_tick_swap, <- Nat.iter_succ. reflexivity.
    + unfold tick, settle. cbn [set_pending log pending]. rewrite Hp.
      cbn [option_map Nat.pred sock_file]. exact Hf.
    + unfold tick, settle. cbn [set_pending log pending]. rewrite Hp. reflexivity.
    + lia.
Qed.

Lemma play_polls s p k :
  os_faults_are_OSError s ->
  (sock_file (snd s) = true -> unlink_error (snd s) = None) ->
  spawn (snd s) = Return p ->
  boot_time (snd s) = Some k -> k < 30 ->
  exists w,
    poll_socket 30 (spawned s p) = (Return true, ({| _proc := Some p; _sock := None |}, w)) /\
    connect_result w = connect_result (snd s) /\
    trace w = trace (snd (stopped s)) ++ Spawned (pid p) :: repeat Slept k.
Proof.
  intros Hf Hfile Hs Hb Hk. unfold spawned.
  assert (Hgone : sock_file (snd (stopped s)) = false).
  { cbn [stopped snd sock_file]. destruct (unlink_error (snd s)) eqn:Hu; [|reflexivity].
    destruct (sock_file (snd s)); [|reflexivity].
    specialize (Hfile eq_refl). discriminate Hfile. }
  rewrite Hb. destruct k as [|k].
  - eexists. split; [|split].
    + cbn [poll_socket]. unfold bind, path_exists, gets. cbn. reflexivity.
    + reflexivity.
    + cbn [repeat]. reflexivity.
  - set (w0 := set_pending (Some (S k)) (log (Spawned (pid p)) (snd (stopped s)))).
    assert (E : settle w0 = w0) by reflexivity. rewrite E.
    exists (Nat.iter (S k) tick w0). split; [|split].
    + apply poll_socket_finds; [exact Hgone|reflexivity|lia].
    + rewrite ticks_connect_result. reflexivity.
    + rewrite trace_ticks. unfold w0. cbn [set_pending log trace].
      rewrite <- List.app_assoc. reflexivity.
Qed.

(** X14.  If mpv starts and its socket exists after [k < 30] sleeps,
    [play] has stopped the old session, spawned the engine and slept [k]
    times, and the result is that of [_connect]: [True] with the socket
    kept, or [False] with no socket when connecting fails with an
    [OSError]; in both cases the new process handle is kept. *)
Theorem play_connects_once_the_socket_exists s p k :
  os_faults_are_OSError s ->
  (sock_file (snd s) = true -> unlink_error (snd s) = None) ->
  spawn (snd s) = Return p ->
  boot_time (snd s) = Some k -> k < 30 ->
  let out := play s in
  trace (snd (snd out))
    = trace (snd (snd (stop s))) ++ Spawned (pid p) :: repeat Slept k /\
  _proc (fst (snd out)) = Some p /\
  match connect_result (snd s) with
  | Return sock => fst out = Return true /\ _sock (fst (snd out)) = Some sock
  | Raise e =>
      if caught e [ConnectionRefusedError; FileNotFoundError; OSError]
      then fst out = Return false /\ _sock (fst (snd out)) = None
      else fst out = Raise e
  end.
Proof.
  intros Hf Hfile Hs Hb Hk. cbv zeta.
  destruct (play_polls s p k Hf Hfile Hs Hb Hk) as (w & Hpoll & Hcr & Htr).
  rewrite (play_unfold s Hf), (stop_spec s Hf), Hs. cbv zeta.
  fold (spawned s p). rewrite Hpoll.
  unfold _connect, try_except, bind. cbn [snd]. rewrite Hcr.
  destruct (connect_result (snd s)) as [sock|e].
  - unfold set_sock, modify, ret. cbn [fst snd _proc _sock].
    split; [exact Htr|]. split; [reflexivity|]. split; reflexivity.
  - destruct (caught e [ConnectionRefusedError; FileNotFoundError; OSError]);
      unfold set_sock, modify, ret; cbn [fst snd _proc _sock];
      (split; [exact Htr|]; split; [reflexivity|]); [split|]; reflexivity.
Qed.

(** ** Volume *)

Lemma float_ltb_asym a b : float_ltb a b = true -> float_ltb b a = false.
Proof.
  destruct a as [|na|na ma ea], b as [|nb|nb mb eb]; cbn [float_ltb];
    try discriminate; try (destruct na, nb; cbn; congruence);
    try (destruct na; cbn; congruence); try (destruct nb; cbn; congruence).
  rewrite (Z.min_comm eb ea). intros H. apply Z.ltb_lt in H. apply Z.ltb_ge. lia.
Qed.

Lemma float_ltb_nan a b : float_ltb a b = true -> a <> FNaN /\ b <> FNaN.
Proof. destruct a, b; cbn [float_ltb]; try discriminate; split; discriminate. Qed.

Lemma command_trace args o w k :
  _sock o = Some k -> send_error k = None ->
  trace (snd (snd (_command args (o, w)))) = trace w ++ [Sent (command_line args)].
Proof.
  intros Hk Hs. rewrite (command_sends args o w k Hk Hs).
  destruct (recv_loop (incoming k) []) as [[data|e] rest]; [reflexivity|].
  destruct (caught e [BrokenPipeError; ConnectionResetError; OSError]); reflexivity.
Qed.

Lemma clamp_range vol :
  clamp vol <> FNaN /\
  float_ltb (clamp vol) (FDec false 0 0) = false /\
  float_ltb (FDec false 15 1) (clamp vol) = false /\
  (float_ltb (FDec false 0 0) vol = true ->
   float_ltb vol (FDec false 15 1) = true -> clamp vol = vol).
Proof.
  unfold clamp, float_min.
  destruct (float_ltb vol (FDec false 15 1)) eqn:Hhi.
  - unfold float_max. destruct (float_ltb (FDec false 0 0) vol) eqn:Hlo.
    + split; [apply (float_ltb_nan _ _ Hhi)|].
      split; [apply float_ltb_asym; exact Hlo|].
      split; [apply float_ltb_asym; exact Hhi|]. reflexivity.
    + repeat split; try reflexivity; discriminate.
  - repeat split; try reflexivity; discriminate.
Qed.

(** X15.  [set_volume] sends [set_property volume c] with
    [c = max(0.0, min(150.0, vol))]: [c] is never [nan], not below 0 and
    not above 150, for every float [vol] ([nan] and the infinities
    included), and it is [vol] itself when [vol] lies strictly
    between. *)
Theorem set_volume_sends_a_volume_between_0_and_150 vol o w k :
  _sock o = Some k -> send_error k = None ->
  trace (snd (snd (set_volume vol (o, w))))
  = trace w ++ [Sent (command_line [VStr (u "set_property"); VStr (u "volume");
                                    VFloat (clamp vol)])] /\
  clamp vol <> FNaN /\
  float_ltb (clamp vol) (FDec false 0 0) = false /\
  float_ltb (FDec false 15 1) (clamp vol) = false /\
  (float_ltb (FDec false 0 0) vol = true ->
   float_ltb vol (FDec false 15 1) = true -> clamp vol = vol).
Proof.
  intros Hk Hs. split; [|apply clamp_range].
  unfold set_volume, bind. fold (clamp vol).
  pose proof (command_trace [VStr (u "set_property"); VStr (u "volume");
                             VFloat (clamp vol)] o w k Hk Hs) as H.
  destruct (_command _ (o, w)) as [[r|e] s']; exact H.
Qed.

(** ** The accessors *)

Lemma command_reply args o w k d :
  _sock o = Some k -> send_error k = None -> replies k d ->
  fst (_command args (o, w)) = Return (VDict d).
Proof.
  intros Hk Hs (reply & tail & more & Hi & Hl & Hp & He).
  rewrite (command_sends args o w k Hk Hs), Hi.
  assert (Hscan : scan_lines [] (reply ++ x0a :: tail) = Return (Some (VDict d), tail)).
  { rewrite scan_lines_line by exact Hl. cbn [List.rev List.app]. rewrite Hp.
    cbn [obind py_in]. unfold dict_contains. rewrite He. reflexivity. }
  destruct reply as [|b reply]; cbn [List.app recv_loop] in *; rewrite Hscan;
    reflexivity.
Qed.

Lemma get_property_unanswered name s :
  (_sock (fst s) = None \/
   exists k, _sock (fst s) = Some k /\
     ((exists e, send_error k = Some e /\
                 caught e [BrokenPipeError; ConnectionResetError; OSError] = true) \/
      (send_error k = None /\ unanswered k))) ->
  fst (get_property name s) = Return VNone.
Proof.
  destruct s as [o w]. cbn [fst]. unfold get_property, bind.
  intros [Hn|(k & Hk & [(e & Hs & He)|(Hs & [Hi|(d & Hr & Herr)])])].
  - unfold _command, bind, self, gets. cbn [fst]. rewrite Hn. reflexivity.
  - rewrite (command_send_fails [VStr (u "get_property"); VStr name] o w k e Hk Hs He).
    reflexivity.
  - rewrite (command_sends _ o w k Hk Hs), Hi. reflexivity.
  - pose proof (command_reply [VStr (u "get_property"); VStr name] o w k d Hk Hs Hr) as E.
    destruct (_command _ (o, w)) as [r s']. cbn [fst] in E. subst r.
    destruct d as [|kv d]; [reflexivity|]. cbn [truthy]. unfold lift.
    cbn [py_get].
    destruct (dict_get str_eqb (u "error") (kv :: d)) as [err|] eqn:Hg.
    + rewrite (Herr err eq_refl). reflexivity.
    + reflexivity.
Qed.

(** X16.  Without a socket, when sending fails, when the engine stays
    silent until the timeout, or when its reply does not say
    ["success"], [position] and [duration] are [0.0], [paused] is [False]
    and [volume] is [100.0]. *)
Theorem accessors_fall_back_to_their_defaults s :
  (_sock (fst s) = None \/
   exists k, _sock (fst s) = Some k /\
     ((exists e, send_error k = Some e /\
                 caught e [BrokenPipeError; ConnectionResetError; OSError] = true) \/
      (send_error k = None /\ unanswered k))) ->
  fst (position s) = Return zero /\
  fst (duration s) = Return zero /\
  fst (paused s) = Return (VBool false) /\
  fst (volume s) = Return hundred.
Proof.
  intros H. unfold position, duration, paused, volume, bind.
  pose proof (get_property_unanswered (u "playback-time") s H) as H1.
  pose proof (get_property_unanswered (u "duration") s H) as H2.
  pose proof (get_property_unanswered (u "pause") s H) as H3.
  pose proof (get_property_unanswered (u "volume") s H) as H4.
  destruct (get_property (u "playback-time") s) as [r1 s1].
  destruct (get_property (u "duration") s) as [r2 s2].
  destruct (get_property (u "pause") s) as [r3 s3].
  destruct (get_property (u "volume") s) as [r4 s4].
  cbn [fst] in *. subst. repeat split.
Qed.

Lemma get_property_success name o w k d x :
  _sock o = Some k -> send_error k = None -> replies k d ->
  dict_get str_eqb (u "error") d = Some (VStr (u "success")) ->
  dict_get str_eqb (u "data") d = Some x ->
  fst (get_property name (o, w)) = Return x.
Proof.
  intros Hk Hs Hr He Hd. unfold get_property, bind.
  pose proof (command_reply [VStr (u "get_property"); VStr name] o w k d Hk Hs Hr) as E.
  destruct (_command _ (o, w)) as [r s']. cbn [fst] in E. subst r.
  destruct d as [|kv d]; [discriminate He|]. cbn [truthy]. unfold lift.
  cbn [py_get]. rewrite He, Hd. reflexivity.
Qed.

(** X17.  When the engine's reply says ["success"] and carries a value
    that is truthy, [get_property] and each of the four accessors return
    that value. *)
Theorem accessors_return_what_the_engine_reports o w k d x :
  _sock o = Some k -> send_error k = None -> replies k d ->
  dict_get str_eqb (u "error") d = Some (VStr (u "success")) ->
  dict_get str_eqb (u "data") d = Some x ->
  truthy x = true ->
  (forall name, fst (get_property name (o, w)) = Return x) /\
  fst (position (o, w)) = Return x /\
  fst (duration (o, w)) = Return x /\
  fst (paused (o, w)) = Return x /\
  fst (volume (o, w)) = Return x.
Proof.
  intros Hk Hs Hr He Hd Ht.
  assert (H : forall name, fst (get_property name (o, w)) = Return x)
    by (intros name; apply (get_property_success name o w k d x); assumption).
  split; [exact H|].
  unfold position, duration, paused, volume, bind.
  pose proof (H (u "playback-time")) as H1. pose proof (H (u "duration")) as H2.
  pose proof (H (u "pause")) as H3. pose proof (H (u "volume")) as H4.
  destruct (get_property (u "playback-time") (o, w)) as [r1 s1].
  destruct (get_property (u "duration") (o, w)) as [r2 s2].
  destruct (get_property (u "pause") (o, w)) as [r3 s3].
  destruct (get_property (u "volume") (o, w)) as [r4 s4].
  cbn [fst] in *. subst. unfold ret, py_or. cbn [fst]. rewrite Ht. repeat split.
Qed.

Lemma command_line_shape args :
  exists body,
    command_line args = body ++ [x0a] /\
    Forall (fun b => (32 <= Byte.to_N b <= 126)%N) body.
Proof.
  exists (map Utf8.byte_of
            (dumps [44; 32]%N [58; 32]%N (VDict [(u "command", VList args)]))).
  split.
  - unfold command_line. rewrite map_app. reflexivity.
  - apply Forall_map.
    eapply Forall_impl; [|apply command_text_printable].
    intros c Hc. cbv beta in *. rewrite to_N_byte_of by lia. exact Hc.
Qed.

(** X18.  Every command goes out as one line: printable ASCII bytes and
    a closing newline, whatever the arguments hold; [toggle_pause] sends
    [cycle pause] and [seek] sends [seek seconds relative], each as one
    such line. *)
Theorem every_command_goes_out_as_one_line args seconds o w k :
  _sock o = Some k -> send_error k = None ->
  (exists body,
      command_line args = body ++ [x0a] /\
      Forall (fun b => (32 <= Byte.to_N b <= 126)%N) body) /\
  trace (snd (snd (_command args (o, w))))
    = trace w ++ [Sent (command_line args)] /\
  trace (snd (snd (toggle_pause (o, w))))
    = trace w ++ [Sent (command_line [VStr (u "cycle"); VStr (u "pause")])] /\
  trace (snd (snd (seek seconds (o, w))))
    = trace w ++ [Sent (command_line [VStr (u "seek"); seconds;
                                      VStr (u "relative")])].
Proof.
  intros Hk Hs. split; [apply command_line_shape|].
  split; [apply (command_trace args o w k Hk Hs)|].
  split.
  - unfold toggle_pause, bind.
    pose proof (command_trace [VStr (u "cycle"); VStr (u "pause")] o w k Hk Hs) as H.
    destruct (_command _ (o, w)) as [[r|e] s']; exact H.
  - unfold seek, bind.
    pose proof (command_trace [VStr (u "seek"); seconds; VStr (u "relative")]
                  o w k Hk Hs) as H.
    destruct (_command _ (o, w)) as [[r|e] s']; exact H.
Qed.

Lemma command_reply_witness :
  fst (_command [VStr (u "get_property"); VStr (u "playback-time")]
                (connected_by chatty, calm)) = Return at_12_5 /\
  trace (snd (snd (_command [VStr (u "get_property"); VStr (u "playback-time")]
                            (connected_by chatty, calm))))
  = trace calm ++ [Sent (command_line [VStr (u "get_property");
                                       VStr (u "playback-time")])].
Proof.
  apply (command_returns_the_reply_however_it_is_chunked
           [VStr (u "get_property"); VStr (u "playback-time")]
           [firstn 20 (Net.frame pause_event ++ Net.frame at_12_5);
            skipn 20 (Net.frame pause_event ++ Net.frame at_12_5)]
           [removelast (Net.frame pause_event)]
           (removelast (Net.frame at_12_5)) at_12_5 []
           (connected_by chatty) calm chatty eq_refl eq_refl eq_refl).
  - repeat constructor; discriminate.
  - reflexivity.
  - repeat constructor. exists pause_event. split; reflexivity.
  - repeat constructor.
  - reflexivity.
  - reflexivity.
Defined.

Lemma malformed_line_witness :
  _command [VStr (u "cycle"); VStr (u "pause")]
           (connected_by (answers [Net.line "garbage"]), calm)
  = (Raise JSONDecodeError,
     (connected_by (answers []),
      log (Sent (command_line [VStr (u "cycle"); VStr (u "pause")])) calm)).
Proof.
  apply (command_raises_on_a_malformed_line
           [VStr (u "cycle"); VStr (u "pause")]
           (list_byte_of_string "garbage") [] []
           (connected_by (answers [Net.line "garbage"])) calm
           (answers [Net.line "garbage"]) JSONDecodeError eq_refl eq_refl eq_refl).
  - repeat constructor.
  - reflexivity.
Defined.

Lemma sending_fails_witness :
  _command [VStr (u "cycle"); VStr (u "pause")] (connected_by hung_up, calm)
  = (Return VNone,
     ({| _proc := _proc (connected_by hung_up); _sock := None |}, calm)) /\
  forall later,
    _command later ({| _proc := _proc (connected_by hung_up); _sock := None |}, calm)
    = (Return VNone,
       ({| _proc := _proc (connected_by hung_up); _sock := None |}, calm)).
Proof.
  exact (command_drops_the_socket_when_sending_fails
           [VStr (u "cycle"); VStr (u "pause")] (connected_by hung_up) calm
           hung_up BrokenPipeError eq_refl eq_refl eq_refl).
Defined.

Lemma play_connects_witness :
  trace (snd (snd (play (idle, calm))))
    = trace (snd (snd (stop (idle, calm)))) ++ Spawned 1 :: repeat Slept 2 /\
  _proc (fst (snd (play (idle, calm))))
    = Some {| pid := 1; running := true; heeds_sigterm := true |} /\
  fst (play (idle, calm)) = Return true /\
  _sock (fst (snd (play (idle, calm)))) = Some (answers []).
Proof.
  exact (play_connects_once_the_socket_exists (idle, calm)
           {| pid := 1; running := true; heeds_sigterm := true |} 2
           (idle_faults calm eq_refl) (fun _ => eq_refl) eq_refl eq_refl
           (le_n_S _ _ (le_n_S _ _ (le_n_S _ _ (Nat.le_0_l _))))).
Defined.

Lemma set_volume_witness :
  trace (snd (snd (set_volume (FDec false 2 2) (connected_by (answers []), calm))))
  = trace calm ++ [Sent (command_line [VStr (u "set_property"); VStr (u "volume");
                                       VFloat (FDec false 15 1)])] /\
  clamp (FDec false 2 2) = FDec false 15 1.
Proof.
  destruct (set_volume_sends_a_volume_between_0_and_150 (FDec false 2 2)
              (connected_by (answers [])) calm (answers []) eq_refl eq_refl)
    as (H & _).
  split; [exact H|reflexivity].
Defined.

Lemma defaults_witness :
  fst (position (idle, calm)) = Return zero /\
  fst (duration (idle, calm)) = Return zero /\
  fst (paused (idle, calm)) = Return (VBool false) /\
  fst (volume (idle, calm)) = Return hundred.
Proof.
  exact (accessors_fall_back_to_their_defaults (idle, calm) (or_introl eq_refl)).
Defined.

Lemma reported_value_witness :
  (forall name,
      fst (get_property name (connected_by (answers [Net.frame at_12_5]), calm))
      = Return (VFloat (FDec false 125 (-1)))) /\
  fst (position (connected_by (answers [Net.frame at_12_5]), calm))
    = Return (VFloat (FDec false 125 (-1))) /\
  fst (duration (connected_by (answers [Net.frame at_12_5]), calm))
    = Return (VFloat (FDec false 125 (-1))) /\
  fst (paused (connected_by (answers [Net.frame at_12_5]), calm))
    = Return (VFloat (FDec false 125 (-1))) /\
  fst (volume (connected_by (answers [Net.frame at_12_5]), calm))
    = Return (VFloat (FDec false 125 (-1))).
Proof.
  apply (accessors_return_what_the_engine_reports
           (connected_by (answers [Net.frame at_12_5])) calm
           (answers [Net.frame at_12_5])
           [(u "data", VFloat (FDec false 125 (-1)));
            (u "error", VStr (u "success"))]
           (VFloat (FDec false 125 (-1))) eq_refl eq_refl); try reflexivity.
  exists (removelast (Net.frame at_12_5)), [], [].
  split; [reflexivity|]. split; [repeat constructor|]. split; reflexivity.
Defined.

Lemma one_line_witness :
  (exists body,
      command_line [VStr (u "loadfile"); VStr [10%N; 233%N]] = body ++ [x0a] /\
      Forall (fun b => (32 <= Byte.to_N b <= 126)%N) body) /\
  trace (snd (snd (_command [VStr (u "loadfile"); VStr [10%N; 233%N]]
                            (connected_by (answers []), calm))))
    = trace calm ++ [Sent (command_line [VStr (u "loadfile"); VStr [10%N; 233%N]])] /\
  trace (snd (snd (toggle_pause (connected_by (answers []), calm))))
    = trace calm ++ [Sent (command_line [VStr (u "cycle"); VStr (u "pause")])] /\
  trace (snd (snd (seek (VInt 10) (connected_by (answers []), calm))))
    = trace calm ++ [Sent (command_line [VStr (u "seek"); VInt 10;
                                         VStr (u "relative")])].
Proof.
  exact (every_command_goes_out_as_one_line
           [VStr (u "loadfile"); VStr [10%N; 233%N]] (VInt 10)
           (connected_by (answers [])) calm (answers []) eq_refl eq_refl).
Defined.

Lemma command_reply_state args (reply tail : bytes) more data o w k :
  _sock o = Some k -> send_error k = None ->
  incoming k = Return (reply ++ x0a :: tail) :: more ->
  one_line reply -> parse_line reply = Return data ->
  py_in (u "event") data = Return false ->
  _command args (o, w)
  = (Return data,
     ({| _proc := _proc o; _sock := Some (set_incoming more k) |},
      log (Sent (command_line args)) w)).
Proof.
  intros Hk Hs Hi Hl Hp He.
  rewrite (command_sends args o w k Hk Hs), Hi.
  assert (Hscan : scan_lines [] (reply ++ x0a :: tail) = Return (Some data, tail)).
  { rewrite scan_lines_line by exact Hl. cbn [List.rev List.app]. rewrite Hp.
    cbn [obind]. rewrite He. reflexivity. }
  destruct reply as [|b reply]; cbn [List.app recv_loop] in *; rewrite Hscan;
    reflexivity.
Qed.

(** X19.  [_command] drops whatever follows the reply in the piece that
    completed it, and the next command starts at the next piece.  So a
    line that the end of that piece cut in two is never put together: its
    second half is read as a line of its own, and the next command raises
    when that half is not JSON. *)
Theorem bytes_after_the_reply_are_lost
    args next (reply tail l tail' : bytes) more data o w k e :
  _sock o = Some k -> send_error k = None ->
  incoming k
    = Return (reply ++ x0a :: tail) :: Return (l ++ x0a :: tail') :: more ->
  one_line reply -> parse_line reply = Return data ->
  py_in (u "event") data = Return false ->
  one_line l -> obind (parse_line l) (py_in (u "event")) = Raise e ->
  _command args (o, w)
  = (Return data,
     ({| _proc := _proc o;
         _sock := Some (set_incoming (Return (l ++ x0a :: tail') :: more) k) |},
      log (Sent (command_line args)) w)) /\
  fst (_command next (snd (_command args (o, w)))) = Raise e.
Proof.
  intros Hk Hs Hi Hl Hp He Hl' He'.
  rewrite (command_reply_state args reply tail _ data o w k Hk Hs Hi Hl Hp He).
  split; [reflexivity|]. cbn [snd].
  rewrite (proj1 (command_malformed next l tail' more
                    {| _proc := _proc o;
                       _sock := Some (set_incoming
                                        (Return (l ++ x0a :: tail') :: more) k) |}
                    (log (Sent (command_line args)) w)
                    (set_incoming (Return (l ++ x0a :: tail') :: more) k) e
                    eq_refl Hs eq_refl Hl' He')).
  reflexivity.
Qed.

Lemma bytes_after_the_reply_witness :
  fst (_command [VStr (u "get_property"); VStr (u "playback-time")]
                (connected_by cut_event, calm)) = Return at_12_5 /\
  fst (_command [VStr (u "get_property"); VStr (u "duration")]
         (snd (_command [VStr (u "get_property"); VStr (u "playback-time")]
                        (connected_by cut_event, calm))))
  = Raise JSONDecodeError.
Proof.
  assert (Hr : one_line (removelast (Net.frame at_12_5))) by repeat constructor.
  assert (Hl : one_line (removelast (skipn 9 (Net.frame pause_event))))
    by repeat constructor.
  destruct (bytes_after_the_reply_are_lost
              [VStr (u "get_property"); VStr (u "playback-time")]
              [VStr (u "get_property"); VStr (u "duration")]
              (removelast (Net.frame at_12_5)) (firstn 9 (Net.frame pause_event))
              (removelast (skipn 9 (Net.frame pause_event))) (Net.frame at_12_5)
              [] at_12_5 (connected_by cut_event) calm cut_event JSONDecodeError
              eq_refl eq_refl eq_refl Hr eq_refl eq_refl Hl eq_refl) as [H1 H2].
  split; [rewrite H1; reflexivity|exact H2].
Defined.

Lemma poll_socket_at_once n o w :
  sock_file w = true -> poll_socket (S n) (o, w) = (Return true, (o, w)).
Proof.
  intros H. cbn [poll_socket]. unfold bind, path_exists, gets. cbn [snd].
  rewrite H. reflexivity.
Qed.

Lemma settle_fields w :
  Player.trace (settle w) = Player.trace w /\
  connect_result (settle w) = connect_result w /\
  (sock_file w = true -> sock_file (settle w) = true).
Proof. unfold settle. destruct (pending w) as [[|b]|]; repeat split; auto. Qed.

(** X20.  If the socket file of an earlier run is there and [os.unlink]
    fails, [stop] swallows the failure and [play] finds the path at its
    first poll: it connects without a single sleep, whether or not the
    new engine has created its socket. *)
Theorem play_does_not_wait_if_the_old_socket_file_stays s p e :
  os_faults_are_OSError s ->
  sock_file (snd s) = true -> unlink_error (snd s) = Some e ->
  spawn (snd s) = Return p ->
  let out := play s in
  Player.trace (snd (snd out))
    = Player.trace (snd (snd (stop s))) ++ [Spawned (pid p)] /\
  _proc (fst (snd out)) = Some p /\
  match connect_result (snd s) with
  | Return sock => fst out = Return true /\ _sock (fst (snd out)) = Some sock
  | Raise e' =>
      if caught e' [ConnectionRefusedError; FileNotFoundError; OSError]
      then fst out = Return false /\ _sock (fst (snd out)) = None
      else fst out = Raise e'
  end.
Proof.
  intros Hf Hfile Hu Hs. cbv zeta.
  rewrite (play_unfold s Hf), (stop_spec s Hf), Hs. cbv zeta.
  set (w0 := set_pending (boot_time (snd s)) (log (Spawned (pid p)) (snd (stopped s)))).
  destruct (settle_fields w0) as (Htr & Hcr & Hstay).
  rewrite poll_socket_at_once
    by (apply Hstay; unfold w0; cbn [sock_file set_pending log stopped snd];
        rewrite Hu; exact Hfile).
  unfold _connect, try_except, bind. cbn [snd]. rewrite Hcr.
  change (connect_result w0) with (connect_result (snd s)).
  destruct (connect_result (snd s)) as [sock|e'].
  - unfold set_sock, modify, ret. cbn [fst snd _proc _sock].
    split; [exact Htr|]. split; [reflexivity|]. split; reflexivity.
  - destruct (caught e' [ConnectionRefusedError; FileNotFoundError; OSError]);
      unfold set_sock, modify, ret; cbn [fst snd _proc _sock];
      (split; [exact Htr|]; split; [reflexivity|]); [split|]; reflexivity.
Qed.

Lemma sticky_faults : os_faults_are_OSError (idle, sticky).
Proof.
  split.
  - intros e H. cbn in H. injection H as <-. reflexivity.
  - intros k e H. discriminate H.
Defined.

Lemma play_does_not_wait_witness :
  Player.trace (snd (snd (play (idle, sticky)))) = [Spawned 1] /\
  fst (play (idle, sticky)) = Return true.
Proof.
  destruct (play_does_not_wait_if_the_old_socket_file_stays (idle, sticky)
              {| pid := 1; running := true; heeds_sigterm := true |}
              PermissionError sticky_faults eq_refl eq_refl eq_refl)
    as (H1 & _ & H2 & _).
  split; [exact H1|exact H2].
Defined.

(** ** One engine at a time *)

Lemma poll_socket_sleeps n : forall o w,
  exists found m,
    m <= n /\ poll_socket n (o, w) = (Return found, (o, Nat.iter m tick w)).
Proof.
  induction n as [|n IH]; intros o w.
  - exists false, 0. split; [lia|reflexivity].
  - cbn [poll_socket]. unfold bind at 1, path_exists, gets. cbn [snd].
    destruct (sock_file w).
    + exists true, 0. split; [lia|reflexivity].
    + unfold bind. rewrite sleep_tick.
      destruct (IH o (tick w)) as (found & m & Hm & E). rewrite E.
      exists found, (S m). split; [lia|].
      rewrite iter_tick_swap, Nat.iter_succ. reflexivity.
Qed.

Lemma connect_trace s : Player.trace (snd (snd (_connect s))) = Player.trace (snd s).
Proof.
  destruct s as [o w]. unfold _connect, try_except, bind. cbn [snd].
  destruct (connect_result w) as [k|e]; [reflexivity|].
  destruct (caught e [ConnectionRefusedError; FileNotFoundError; OSError]); reflexivity.
Qed.

(** X21.  Whenever mpv can be spawned, [play] does exactly this to the
    outside world: what [stop] does to the old session, then the spawn,
    then at most 30 sleeps, and after the spawn it sends no signal.  A
    running old engine is told to terminate before the new one is
    spawned. *)
Theorem play_runs_one_engine_at_a_time s p :
  os_faults_are_OSError s ->
  spawn (snd s) = Return p ->
  (exists sleeps,
      sleeps <= 30 /\
      Player.trace (snd (snd (play s)))
      = Player.trace (snd s) ++ stop_events s ++
        Spawned (pid p) :: repeat Slept sleeps) /\
  (forall q, _proc (fst s) = Some q -> running q = true ->
             exists rest, stop_events s = Terminate (pid q) :: rest).
Proof.
  intros Hf Hs. split.
  - rewrite (play_unfold s Hf), Hs. cbv zeta.
    set (w0 := set_pending (boot_time (snd s)) (log (Spawned (pid p)) (snd (stopped s)))).
    destruct (settle_fields w0) as (Htr & _ & _).
    destruct (poll_socket_sleeps 30 {| _proc := Some p; _sock := None |} (settle w0))
      as (found & m & Hm & E).
    rewrite E. exists m. split; [exact Hm|].
    assert (Ht : Player.trace (Nat.iter m tick (settle w0))
                 = Player.trace (snd s) ++ stop_events s ++
                   Spawned (pid p) :: repeat Slept m).
    { rewrite trace_ticks, Htr. unfold w0.
      cbn [set_pending log Player.trace stopped snd].
      rewrite <- !List.app_assoc. reflexivity. }
    destruct found; [rewrite connect_trace|]; exact Ht.
  - intros q Hq Hr. unfold stop_events. rewrite Hq, Hr. cbn [List.app].
    eexists. reflexivity.
Qed.

Lemma playing_faults : os_faults_are_OSError playing.
Proof.
  split.
  - intros e H. discriminate H.
  - intros k e H1 H2. cbn in H1. injection H1 as <-. discriminate H2.
Defined.

Lemma one_engine_witness :
  exists sleeps,
    sleeps <= 30 /\
    Player.trace (snd (snd (play playing)))
    = [Terminate 7; SockClosed; Unlinked] ++ Spawned 1 :: repeat Slept sleeps.
Proof.
  exact (proj1 (play_runs_one_engine_at_a_time playing
                  {| pid := 1; running := true; heeds_sigterm := true |}
                  playing_faults eq_refl)).
Defined.
